(** * Roles: role hierarchy, role assignments and membership queries

    A shallow embedding of [roles/roles_common_async.js] of the
    [alanning:roles] package: the two collections [Meteor.roles] and
    [Meteor.roleAssignment] become an explicit store that every operation
    threads through, a JavaScript exception becomes the [Throw] outcome, and
    the loops whose termination depends on the store take fuel. *)

From Stdlib Require Import List String Ascii Bool Arith Lia ZArith DecimalString.
Import ListNotations.
Local Open Scope string_scope.
Local Open Scope list_scope.

Set Implicit Arguments.

(** ** JavaScript values that reach the public interface *)

Module JS.

(** The primitive values a caller can pass where a name or an id is
    expected. A string is held as the bytes of its UTF-8 encoding, so a
    character outside ASCII takes two or three of them. A number is an
    integer that a double holds: every integer up to [2^53] in absolute
    value, and beyond it the multiples of a power of two that 53 bits of
    significand reach; fractions, [NaN] and the infinities are not
    represented. *)
Inductive Val : Type :=
| Undefined
| Null
| Bool (b : bool)
| Num (n : Z)
| Str (s : string).

(** [a === b] on primitives. *)
Definition strictEq (a b : Val) : bool :=
  match a, b with
  | Undefined, Undefined => true
  | Null, Null => true
  | Bool x, Bool y => Bool.eqb x y
  | Num x, Num y => Z.eqb x y
  | Str x, Str y => String.eqb x y
  | _, _ => false
  end.

(** [v == null], true for [null] and [undefined] only. *)
Definition isNullish (v : Val) : bool :=
  match v with
  | Undefined | Null => true
  | _ => false
  end.

(** The truthiness used by [!v] and [if (v)]. *)
Definition truthy (v : Val) : bool :=
  match v with
  | Undefined | Null => false
  | Bool b => b
  | Num n => negb (Z.eqb n 0)
  | Str s => negb (String.eqb s EmptyString)
  end.

(** [typeof v === 'string'] *)
Definition isString (v : Val) : bool :=
  match v with
  | Str _ => true
  | _ => false
  end.

(** White space and line terminators, which [String.prototype.trim]
    strips. In one byte: TAB, LF, VT, FF, CR and SPACE. *)
Definition isWhiteSpace (c : ascii) : bool :=
  match nat_of_ascii c with
  | 9 | 10 | 11 | 12 | 13 | 32 => true
  | _ => false
  end.

Definition byte (c : ascii) : N := N_of_ascii c.

(** In two bytes: U+00A0, the no-break space. *)
Definition isWhiteSpace2 (c1 c2 : ascii) : bool :=
  (byte c1 =? 194)%N && (byte c2 =? 160)%N.

(** In three bytes: U+1680; U+2000 to U+200A, U+2028, U+2029 and U+202F;
    U+205F; U+3000; and U+FEFF, the byte order mark. *)
Definition isWhiteSpace3 (c1 c2 c3 : ascii) : bool :=
  ((byte c1 =? 225) && (byte c2 =? 154) && (byte c3 =? 128)
   || (byte c1 =? 226) && (byte c2 =? 128)
      && ((128 <=? byte c3) && (byte c3 <=? 138)
          || (byte c3 =? 168) || (byte c3 =? 169) || (byte c3 =? 175))
   || (byte c1 =? 226) && (byte c2 =? 129) && (byte c3 =? 159)
   || (byte c1 =? 227) && (byte c2 =? 128) && (byte c3 =? 128)
   || (byte c1 =? 239) && (byte c2 =? 187) && (byte c3 =? 191))%N.

Section Strip.

(** The characters to strip, by the number of bytes they take. *)
Variable w1 : ascii -> bool.
Variable w2 : ascii -> ascii -> bool.
Variable w3 : ascii -> ascii -> ascii -> bool.

(** What follows the first character, when it is one to strip. *)
Definition leading (s : string) : option string :=
  match s with
  | String c1 r1 =>
      if w1 c1 then Some r1
      else
        match r1 with
        | String c2 r2 =>
            if w2 c1 c2 then Some r2
            else
              match r2 with
              | String c3 r3 => if w3 c1 c2 c3 then Some r3 else None
              | EmptyString => None
              end
        | EmptyString => None
        end
  | EmptyString => None
  end.

(** The string without the characters to strip it starts with. *)
Fixpoint strip (s : string) : string :=
  match s with
  | String c1 r1 =>
      if w1 c1 then strip r1
      else
        match r1 with
        | String c2 r2 =>
            if w2 c1 c2 then strip r2
            else
              match r2 with
              | String c3 r3 => if w3 c1 c2 c3 then strip r3 else s
              | EmptyString => s
              end
        | EmptyString => s
        end
  | EmptyString => s
  end.

End Strip.

Definition reverse (s : string) : string :=
  string_of_list_ascii (rev (list_ascii_of_string s)).

Definition trimStart (s : string) : string :=
  strip isWhiteSpace isWhiteSpace2 isWhiteSpace3 s.

(** The end is the start of the reversed string, where the bytes of a
    character come last one first. *)
Definition trimEnd (s : string) : string :=
  reverse
    (strip isWhiteSpace (fun c2 c1 => isWhiteSpace2 c1 c2)
       (fun c3 c2 c1 => isWhiteSpace3 c1 c2 c3) (reverse s)).

Definition trim (s : string) : string := trimEnd (trimStart s).

Definition startsWithWhiteSpace (s : string) : bool :=
  match leading isWhiteSpace isWhiteSpace2 isWhiteSpace3 s with
  | Some _ => true
  | None => false
  end.

Definition endsWithWhiteSpace (s : string) : bool :=
  match leading isWhiteSpace (fun c2 c1 => isWhiteSpace2 c1 c2)
          (fun c3 c2 c1 => isWhiteSpace3 c1 c2 c3) (reverse s) with
  | Some _ => true
  | None => false
  end.

(** The double nearest to a natural number, ties going to the even
    significand; [None] past the largest double, where the number is
    [Infinity]. *)
Definition toDouble (z : Z) : option Z :=
  if (z <? 2 ^ 53)%Z then Some z
  else
    let e := (Z.log2 z - 52)%Z in
    let q := Z.shiftr z e in
    let r := (z - Z.shiftl q e)%Z in
    let half := Z.shiftl 1 (e - 1) in
    let q := if (half <? r)%Z || (r =? half)%Z && Z.odd q then (q + 1)%Z else q in
    let d := Z.shiftl q e in
    if (d <? 2 ^ 1024)%Z then Some d else None.

Definition digits (z : Z) : string := NilZero.string_of_int (Z.to_int z).

(** Among the decimals of [k] significant digits and as many digits as
    [x], the one that reads back as the double [x], the nearer to [x] of
    two and of two equally near the one whose last digit is even. *)
Definition nearestOf (x : Z) (length k : nat) : option Z :=
  let p := (10 ^ Z.of_nat (length - k))%Z in
  let lo := (x / p * p)%Z in
  let hi := (lo + p)%Z in
  let reads v := match toDouble v with Some d => (d =? x)%Z | None => false end in
  match reads lo, reads hi with
  | true, true =>
      if (x - lo <? hi - x)%Z then Some lo
      else if (hi - x <? x - lo)%Z then Some hi
      else if Z.even (x / p) then Some lo else Some hi
  | true, false => Some lo
  | false, true => Some hi
  | false, false => None
  end.

(** The decimal of fewest significant digits that reads back as [x]. *)
Fixpoint shortest (x : Z) (length k rounds : nat) : Z :=
  match rounds with
  | O => x
  | S rounds =>
      match nearestOf x length k with
      | Some v => v
      | None => shortest x length (S k) rounds
      end
  end.

(** [Number::toString] of a positive integer: the digits of the shortest
    decimal that reads back as the number, with zeros up to the decimal
    point when there are at most 21 digits, and in exponent form
    otherwise. *)
Definition numberToString (z : Z) : string :=
  match toDouble z with
  | None => "Infinity"
  | Some x =>
      let ds := digits (shortest x (String.length (digits x)) 1 (String.length (digits x))) in
      let n := String.length ds in
      if Nat.leb n 21 then ds
      else
        let significant :=
          reverse (strip (Ascii.eqb "0") (fun _ _ => false) (fun _ _ _ => false)
                     (reverse ds)) in
        match significant with
        | String d EmptyString => String d ("e+" ++ digits (Z.of_nat (n - 1)))
        | String d rest => String d ("." ++ rest ++ "e+" ++ digits (Z.of_nat (n - 1)))
        | EmptyString => ds
        end
  end.

(** [String(v)], as string concatenation applies it. *)
Definition toString (v : Val) : string :=
  match v with
  | Undefined => "undefined"
  | Null => "null"
  | Bool true => "true"
  | Bool false => "false"
  | Num n =>
      if (n =? 0)%Z then "0"
      else if (n <? 0)%Z then "-" ++ numberToString (- n)
      else numberToString n
  | Str s => s
  end.

(** The property names [for (const k in s)] visits when [s] is a [Set]:
    the elements live in an internal slot, not in properties, and the
    properties of [Set.prototype] and [Object.prototype] are not
    enumerable, so there is none, whatever the elements are. *)
Definition Set_enumerableKeys {A : Type} (elements : list A) : list string := [].

(** [l.pop()]: the last element and the array without it. *)
Definition pop {A : Type} (l : list A) : option (list A * A) :=
  match rev l with
  | [] => None
  | x :: r => Some (rev r, x)
  end.

End JS.

(** ** Exceptions and outcomes *)

Inductive Exception : Type :=
| Error (message : string)          (* [throw new Error(message)] *)
| TypeError (message : string)      (* raised by the runtime *)
| DuplicateKey (id : string).       (* raised by an insert on a taken [_id] *)

Inductive Outcome (A : Type) : Type :=
| Return (a : A)
| Throw (e : Exception).

Arguments Return {A} a.
Arguments Throw {A} e.

(** ** Documents and the store *)

(** A document of [Meteor.roles]: [{_id, children: [{_id}, ...]}]. *)
Record RoleDoc : Type := mkRole {
  role_id : string;
  children : list string
}.

(** A document of [Meteor.roleAssignment]: [a_id] is the generated [_id],
    [user] and [role] hold the [_id] of the subdocuments of these names.
    The [inheritedRoles] field is absent between the insert and the update
    that sets it. *)
Record Assignment : Type := mkAssignment {
  a_id : nat;
  user : JS.Val;
  role : string;
  scope : option string;
  inheritedRoles : option (list string)
}.

Record Store : Type := mkStore {
  Meteor_roles : list RoleDoc;
  Meteor_roleAssignment : list Assignment;
  nextId : nat
}.

Definition emptyStore : Store := mkStore [] [] 1.

Definition option_eqb {A} (eqb : A -> A -> bool) (x y : option A) : bool :=
  match x, y with
  | None, None => true
  | Some a, Some b => eqb a b
  | _, _ => false
  end.

Definition scope_eqb : option string -> option string -> bool :=
  option_eqb String.eqb.

Definition memStr (x : string) (l : list string) : bool :=
  existsb (String.eqb x) l.

(** ** The store's driver: selectors, modifiers and the collection calls *)

Module Mongo.

(** A condition on the array of children: ['children._id': id] holds when
    some element has this id, ['children._id': {$ne: id}] when none has. *)
Inductive ChildrenCond : Type :=
| ChildrenHas (id : string)
| ChildrenLacks (id : string).

Record RoleSelector : Type := mkRoleSelector {
  rs_id : option string;
  rs_children_id : option ChildrenCond
}.

Inductive ScopeCond : Type :=
| ScopeIs (s : option string)             (* [scope: s] *)
| ScopeIn (l : list (option string)).     (* [scope: {$in: l}] *)

Record Selector : Type := mkSelector {
  q_id : option nat;
  q_user_id : option JS.Val;
  q_role_id : option string;
  q_scope : option ScopeCond;
  q_inheritedRoles_id : option JS.Val
}.

Definition holds {A : Type} (c : option A) (p : A -> bool) : bool :=
  match c with
  | None => true
  | Some a => p a
  end.

Definition matchesRole (q : RoleSelector) (d : RoleDoc) : bool :=
  holds (rs_id q) (String.eqb (role_id d))
  && holds (rs_children_id q)
       (fun c => match c with
                 | ChildrenHas id => memStr id (children d)
                 | ChildrenLacks id => negb (memStr id (children d))
                 end).

Definition matches (q : Selector) (d : Assignment) : bool :=
  holds (q_id q) (Nat.eqb (a_id d))
  && holds (q_user_id q) (JS.strictEq (user d))
  && holds (q_role_id q) (String.eqb (role d))
  && holds (q_scope q)
       (fun c => match c with
                 | ScopeIs s => scope_eqb (scope d) s
                 | ScopeIn l => existsb (scope_eqb (scope d)) l
                 end)
  && holds (q_inheritedRoles_id q)
       (fun v => match v, inheritedRoles d with
                 | JS.Str n, Some l => memStr n l
                 | _, _ => false
                 end).

Inductive RoleModifier : Type :=
| SetOnInsertChildren (l : list string)   (* [$setOnInsert: {children: l}] *)
| PushChild (id : string)                 (* [$push: {children: {_id: id}}] *)
| SetChildPositional (id : string).       (* [$set: {'children.$._id': id}] *)

Inductive Modifier : Type :=
| SetUserRoleScope (u : JS.Val) (r : string) (s : option string)
| SetInheritedRoles (l : list string)
| PushInheritedRoles (l : list string)    (* [$push] with [$each] *)
| SetRoleId (r : string)                  (* [$set: {'role._id': r}] *)
| SetInheritedRolePositional (r : string) (* [$set: {'inheritedRoles.$._id': r}] *)
| SetScope (s : option string).

(** The positional [$] stands for the first element of the array that the
    selector's condition on this array matches. *)
Fixpoint replaceFirst (old new : string) (l : list string) : list string :=
  match l with
  | [] => []
  | x :: rest =>
      if String.eqb x old then new :: rest else x :: replaceFirst old new rest
  end.

(** Without [upsert] an update inserts nothing, so [$setOnInsert] leaves
    the matched document as it is. *)
Definition applyRoleModifier (q : RoleSelector) (m : RoleModifier) (d : RoleDoc) : RoleDoc :=
  match m with
  | SetOnInsertChildren _ => d
  | PushChild id => mkRole (role_id d) (children d ++ [id])
  | SetChildPositional new =>
      match rs_children_id q with
      | Some (ChildrenHas old) => mkRole (role_id d) (replaceFirst old new (children d))
      | _ => d
      end
  end.

Definition applyModifier (q : Selector) (m : Modifier) (d : Assignment) : Assignment :=
  match m with
  | SetUserRoleScope u r s => mkAssignment (a_id d) u r s (inheritedRoles d)
  | SetInheritedRoles l => mkAssignment (a_id d) (user d) (role d) (scope d) (Some l)
  | PushInheritedRoles l =>
      mkAssignment (a_id d) (user d) (role d) (scope d)
        (Some (match inheritedRoles d with Some old => old ++ l | None => l end))
  | SetRoleId r => mkAssignment (a_id d) (user d) r (scope d) (inheritedRoles d)
  | SetInheritedRolePositional new =>
      match q_inheritedRoles_id q, inheritedRoles d with
      | Some (JS.Str old), Some l =>
          mkAssignment (a_id d) (user d) (role d) (scope d) (Some (replaceFirst old new l))
      | _, _ => d
      end
  | SetScope s => mkAssignment (a_id d) (user d) (role d) s (inheritedRoles d)
  end.

(** [update]: the documents after the call and the number of documents the
    selector matched, which is what the call returns. Without [multi] only
    the first match is touched. *)
Fixpoint update {D : Type} (sel : D -> bool) (f : D -> D) (multi : bool)
    (docs : list D) : list D * nat :=
  match docs with
  | [] => ([], 0)
  | d :: rest =>
      if sel d then
        if multi then
          let '(rest', n) := update sel f multi rest in (f d :: rest', S n)
        else (f d :: rest, 1)
      else
        let '(rest', n) := update sel f multi rest in (d :: rest', n)
  end.

Definition remove {D : Type} (sel : D -> bool) (docs : list D) : list D :=
  filter (fun d => negb (sel d)) docs.

End Mongo.

(** ** Asynchronous calls as store transformers

    An awaited call runs on the store and leaves a store behind, also when
    it throws: nothing is rolled back. *)

Definition Async (A : Type) : Type := Store -> Outcome A * Store.

Definition ret {A : Type} (a : A) : Async A := fun st => (Return a, st).

Definition throw {A : Type} (e : Exception) : Async A := fun st => (Throw e, st).

Definition bind {A B : Type} (m : Async A) (k : A -> Async B) : Async B :=
  fun st =>
    match m st with
    | (Return a, st') => k a st'
    | (Throw e, st') => (Throw e, st')
    end.

(** A validator touches no store. *)
Definition lift {A : Type} (o : Outcome A) : Async A := fun st => (o, st).

Declare Scope async_scope.
Delimit Scope async_scope with async.
Notation "'let!' x ':=' m 'in' k" := (bind m (fun x => k))
  (at level 10, x name, m at level 100, k at level 200) : async_scope.
Notation "m ';;' k" := (bind m (fun _ => k))
  (at level 100, k at level 200, right associativity) : async_scope.
Local Open Scope async_scope.

(** [for (const x of xs) { await body(x) }] *)
Fixpoint forOf {A : Type} (xs : list A) (body : A -> Async unit) : Async unit :=
  match xs with
  | [] => ret tt
  | x :: rest => body x ;; forOf rest body
  end.

(** The same loop when the body can [return] from the enclosing function. *)
Inductive Flow : Type := Next | Exit.

Fixpoint forOfFlow {A : Type} (xs : list A) (body : A -> Async Flow) : Async Flow :=
  match xs with
  | [] => ret Next
  | x :: rest =>
      let! f := body x in
      match f with
      | Next => forOfFlow rest body
      | Exit => ret Exit
      end
  end.

(** [asyncSome]: the predicate is awaited on the elements in order and the
    first [true] ends the loop. *)
Fixpoint asyncSome {A : Type} (arr : list A) (predicate : A -> Async bool) : Async bool :=
  match arr with
  | [] => ret false
  | e :: rest =>
      let! b := predicate e in
      if b then ret true else asyncSome rest predicate
  end.

(** Calls on [Meteor.roles]. The [_id] of a role is its key: an insert on
    a taken [_id] throws, otherwise it returns the [_id]. *)
Definition roles_findOneAsync (q : Mongo.RoleSelector) : Async (option RoleDoc) :=
  fun st => (Return (find (Mongo.matchesRole q) (Meteor_roles st)), st).

Definition roles_insertAsync (d : RoleDoc) : Async string :=
  fun st =>
    if existsb (fun r => String.eqb (role_id r) (role_id d)) (Meteor_roles st)
    then (Throw (DuplicateKey (role_id d)), st)
    else (Return (role_id d),
          mkStore (Meteor_roles st ++ [d]) (Meteor_roleAssignment st) (nextId st)).

Definition roles_updateAsync (q : Mongo.RoleSelector) (m : Mongo.RoleModifier)
    (multi : bool) : Async nat :=
  fun st =>
    let '(docs, n) :=
      Mongo.update (Mongo.matchesRole q) (Mongo.applyRoleModifier q m) multi (Meteor_roles st) in
    (Return n, mkStore docs (Meteor_roleAssignment st) (nextId st)).

Definition roles_removeAsync (q : Mongo.RoleSelector) : Async unit :=
  fun st =>
    (Return tt,
     mkStore (Mongo.remove (Mongo.matchesRole q) (Meteor_roles st))
       (Meteor_roleAssignment st) (nextId st)).

(** Calls on [Meteor.roleAssignment]. An insert generates the [_id]; the
    generated ids are never falsy. The inserted document has no
    [inheritedRoles] field. *)
Definition roleAssignment_findOneAsync (q : Mongo.Selector) : Async (option Assignment) :=
  fun st => (Return (find (Mongo.matches q) (Meteor_roleAssignment st)), st).

Definition roleAssignment_insertAsync (u : JS.Val) (r : string) (s : option string) : Async nat :=
  fun st =>
    (Return (nextId st),
     mkStore (Meteor_roles st)
       (Meteor_roleAssignment st ++ [mkAssignment (nextId st) u r s None])
       (S (nextId st))).

Definition roleAssignment_updateAsync (q : Mongo.Selector) (m : Mongo.Modifier)
    (multi : bool) : Async nat :=
  fun st =>
    let '(docs, n) :=
      Mongo.update (Mongo.matches q) (Mongo.applyModifier q m) multi (Meteor_roleAssignment st) in
    (Return n, mkStore (Meteor_roles st) docs (nextId st)).

Definition roleAssignment_removeAsync (q : Mongo.Selector) : Async unit :=
  fun st =>
    (Return tt,
     mkStore (Meteor_roles st)
       (Mongo.remove (Mongo.matches q) (Meteor_roleAssignment st)) (nextId st)).

(** [find(selector, {limit: 1}).countAsync()] *)
Definition roleAssignment_countLimit1Async (q : Mongo.Selector) : Async nat :=
  fun st =>
    (Return (List.length (firstn 1 (filter (Mongo.matches q) (Meteor_roleAssignment st)))), st).

(** ** Arguments of the public interface *)

(** The options bag. A flag that is absent is [false]; [opt_scope] is
    [JS.Undefined] when the bag has no [scope]. *)
Record Options : Type := mkOptions {
  opt_scope : JS.Val;
  anyScope : bool;
  ifExists : bool;
  unlessExists : bool
}.

Inductive OptionsArg : Type :=
| OptionsUndefined
| OptionsNull
| OptionsString (s : string)
| OptionsObject (o : Options).

(** A user is given by id or as an object with an [_id] field. *)
Inductive UserArg : Type :=
| UserVal (v : JS.Val)
| UserObj (_id : JS.Val).

(** An argument that is one element or an array of them. *)
Inductive OneOrMany (A : Type) : Type :=
| One (a : A)
| Many (l : list A).

Arguments One {A} a.
Arguments Many {A} l.

(** [if (!Array.isArray(x)) x = [x]] *)
Definition ensureArray {A : Type} (x : OneOrMany A) : list A :=
  match x with
  | One a => [a]
  | Many l => l
  end.

(** Truthiness of the [users] and [roles] arguments: an array and an
    object are truthy. *)
Definition usersTruthy (users : OneOrMany UserArg) : bool :=
  match users with
  | One (UserVal v) => JS.truthy v
  | _ => true
  end.

Definition namesTruthy (names : OneOrMany string) : bool :=
  match names with
  | One s => JS.truthy (JS.Str s)
  | Many _ => true
  end.

(** The scope a checked scope name stands for: [null] is the global scope. *)
Definition scopeOf (v : JS.Val) : option string :=
  match v with
  | JS.Str s => Some s
  | _ => None
  end.

(** ** Validators and option normalisation *)

Definition _checkRoleName (roleName : JS.Val) : Outcome unit :=
  if negb (JS.truthy roleName)
     || negb (JS.isString roleName)
     || negb (match roleName with
              | JS.Str s => String.eqb (JS.trim s) s
              | _ => false
              end)
  then Throw (Error ("Invalid role name '" ++ JS.toString roleName ++ "'."))
  else Return tt.

Definition _checkScopeName (scopeName : JS.Val) : Outcome unit :=
  if JS.strictEq scopeName JS.Null then Return tt
  else if negb (JS.truthy scopeName)
          || negb (JS.isString scopeName)
          || negb (match scopeName with
                   | JS.Str s => String.eqb (JS.trim s) s
                   | _ => false
                   end)
  then Throw (Error ("Invalid scope name '" ++ JS.toString scopeName ++ "'."))
  else Return tt.

Definition _normalizeScopeName (scopeName : JS.Val) : JS.Val :=
  if JS.isNullish scopeName then JS.Null else scopeName.

Definition _normalizeOptions (options : OptionsArg) : Options :=
  let options :=
    match options with
    | OptionsUndefined => mkOptions JS.Undefined false false false
    | OptionsNull => mkOptions JS.Null false false false
    | OptionsString s => mkOptions (JS.Str s) false false false
    | OptionsObject o => o
    end in
  mkOptions (_normalizeScopeName (opt_scope options))
    (anyScope options) (ifExists options) (unlessExists options).

(** ** Calls whose loops depend on the store

    A loop that runs until the store says so takes fuel, one unit per
    iteration; [None] means the fuel ran out before the loop ended. *)

Definition Fueled (A : Type) : Type := Store -> option (Outcome A * Store).

Definition run {A : Type} (m : Async A) : Fueled A := fun st => Some (m st).

Definition bindF {A B : Type} (m : Fueled A) (k : A -> Fueled B) : Fueled B :=
  fun st =>
    match m st with
    | None => None
    | Some (Return a, st') => k a st'
    | Some (Throw e, st') => Some (Throw e, st')
    end.

Notation "'let?' x ':=' m 'in' k" := (bindF m (fun x => k))
  (at level 10, x name, m at level 100, k at level 200) : async_scope.

(** [do { count = await body } while (count > 0)] *)
Fixpoint doWhile (fuel : nat) (body : Async nat) : Fueled unit :=
  fun st =>
    match fuel with
    | O => None
    | S fuel' =>
        match body st with
        | (Return count, st') =>
            if Nat.ltb 0 count then doWhile fuel' body st' else Some (Return tt, st')
        | (Throw e, st') => Some (Throw e, st')
        end
    end.

(** ** Selectors the operations use *)

Definition roleById (id : string) : Mongo.RoleSelector :=
  Mongo.mkRoleSelector (Some id) None.

Definition roleWithChild (id : string) : Mongo.RoleSelector :=
  Mongo.mkRoleSelector None (Some (Mongo.ChildrenHas id)).

Definition byId (id : nat) : Mongo.Selector :=
  Mongo.mkSelector (Some id) None None None None.

Definition byUser (id : JS.Val) : Mongo.Selector :=
  Mongo.mkSelector None (Some id) None None None.

Definition byRole (r : string) : Mongo.Selector :=
  Mongo.mkSelector None None (Some r) None None.

Definition byScope (s : option string) : Mongo.Selector :=
  Mongo.mkSelector None None None (Some (Mongo.ScopeIs s)) None.

Definition byInherited (r : string) : Mongo.Selector :=
  Mongo.mkSelector None None None None (Some (JS.Str r)).

(** [selector.scope = c] and [selector['inheritedRoles._id'] = v] *)
Definition withScope (c : Mongo.ScopeCond) (q : Mongo.Selector) : Mongo.Selector :=
  Mongo.mkSelector (Mongo.q_id q) (Mongo.q_user_id q) (Mongo.q_role_id q)
    (Some c) (Mongo.q_inheritedRoles_id q).

Definition withInherited (v : JS.Val) (q : Mongo.Selector) : Mongo.Selector :=
  Mongo.mkSelector (Mongo.q_id q) (Mongo.q_user_id q) (Mongo.q_role_id q)
    (Mongo.q_scope q) (Some v).

Definition byUserRole (u : JS.Val) (r : string) : Mongo.Selector :=
  Mongo.mkSelector None (Some u) (Some r) None None.

(** ** Roles *)

(** [createRoleAsync(roleName, options)]: the id of the new role or
    [null], which is [None]. *)
Definition createRoleAsync (roleName : string) (options : option Options) : Async (option string) :=
  lift (_checkRoleName (JS.Str roleName)) ;;
  let unlessExists :=
    match options with
    | Some o => unlessExists o
    | None => false
    end in
  let! existingRole := roles_findOneAsync (roleById roleName) in
  match existingRole with
  | Some _ =>
      roles_updateAsync (roleById roleName) (Mongo.SetOnInsertChildren []) false ;;
      ret None
  | None =>
      let! insertedId := roles_insertAsync (mkRole roleName []) in
      if negb (JS.truthy (JS.Str insertedId)) then
        if unlessExists then ret None
        else throw (Error ("Role '" ++ roleName ++ "' already exists."))
      else ret (Some insertedId)
  end.

(** [renameRoleAsync(oldName, newName)] *)
Definition renameRoleAsync (fuel : nat) (oldName newName : string) : Fueled unit :=
  let? _ := run (lift (_checkRoleName (JS.Str oldName))) in
  let? _ := run (lift (_checkRoleName (JS.Str newName))) in
  if String.eqb oldName newName then run (ret tt)
  else
    let? role := run (roles_findOneAsync (roleById oldName)) in
    match role with
    | None => run (throw (Error ("Role '" ++ oldName ++ "' does not exist.")))
    | Some role =>
        let role := mkRole newName (children role) in
        let? _ := run (roles_insertAsync role) in
        let? _ := doWhile fuel
                    (roleAssignment_updateAsync (byRole oldName) (Mongo.SetRoleId newName) true) in
        let? _ := doWhile fuel
                    (roleAssignment_updateAsync (byInherited oldName)
                       (Mongo.SetInheritedRolePositional newName) true) in
        let? _ := doWhile fuel
                    (roles_updateAsync (roleWithChild oldName)
                       (Mongo.SetChildPositional newName) true) in
        run (roles_removeAsync (roleById oldName))
    end.

(** [_getInheritedRoleNamesAsync(role)]. The loop is written
    [for (const r in nestedRoles)]: it visits the enumerable property names
    of the [Set], not its elements. A visited [r] would be a string, whose
    [children] is [undefined], so the body's [r.children.map] would throw. *)
Definition _getInheritedRoleNamesAsync (role : RoleDoc) : Async (list string) :=
  let inheritedRoles : list string := [] in
  let nestedRoles : list RoleDoc := [role] in
  forOf (JS.Set_enumerableKeys nestedRoles)
    (fun r => throw (TypeError "Cannot read properties of undefined (reading 'map')")) ;;
  ret inheritedRoles.

(** [_addRoleToParentAsync(roleName, parentName)] *)
Definition _addRoleToParentAsync (roleName parentName : string) : Async unit :=
  lift (_checkRoleName (JS.Str roleName)) ;;
  lift (_checkRoleName (JS.Str parentName)) ;;
  let! role := roles_findOneAsync (roleById roleName) in
  match role with
  | None => throw (Error ("Role '" ++ roleName ++ "' does not exist."))
  | Some role =>
      let! inherited := _getInheritedRoleNamesAsync role in
      if memStr parentName inherited then
        throw (Error ("Roles '" ++ roleName ++ "' and '" ++ parentName
                      ++ "' would form a cycle."))
      else
        let! count :=
          roles_updateAsync
            (Mongo.mkRoleSelector (Some parentName) (Some (Mongo.ChildrenLacks (role_id role))))
            (Mongo.PushChild (role_id role)) false in
        if Nat.eqb count 0 then ret tt
        else
          let! inherited := _getInheritedRoleNamesAsync role in
          roleAssignment_updateAsync (byInherited parentName)
            (Mongo.PushInheritedRoles (role_id role :: inherited)) true ;;
          ret tt
  end.

(** [addRolesToParentAsync(rolesNames, parentName)] *)
Definition addRolesToParentAsync (rolesNames : OneOrMany string) (parentName : string) : Async unit :=
  forOf (ensureArray rolesNames) (fun roleName => _addRoleToParentAsync roleName parentName).

(** What [_addUserToRoleAsync] returns: nothing, an empty array, or the
    document it read back. *)
Inductive AddResult : Type :=
| ResUndefined
| ResEmptyArray
| ResDoc (d : option Assignment).

(** [_addUserToRoleAsync(userId, roleName, options)] *)
Definition _addUserToRoleAsync (userId : JS.Val) (roleName : string) (options : Options)
    : Async AddResult :=
  lift (_checkRoleName (JS.Str roleName)) ;;
  lift (_checkScopeName (opt_scope options)) ;;
  if negb (JS.truthy userId) then ret ResUndefined
  else
    let! role := roles_findOneAsync (roleById roleName) in
    match role with
    | None =>
        if ifExists options then ret ResEmptyArray
        else throw (Error ("Role '" ++ roleName ++ "' does not exist."))
    | Some role =>
        let scope := scopeOf (opt_scope options) in
        let! existingAssignment :=
          roleAssignment_findOneAsync
            (withScope (Mongo.ScopeIs scope) (byUserRole userId roleName)) in
        let! p :=
          match existingAssignment with
          | Some existing =>
              roleAssignment_updateAsync (byId (a_id existing))
                (Mongo.SetUserRoleScope userId roleName scope) false ;;
              let! res := roleAssignment_findOneAsync (byId (a_id existing)) in
              ret (None, ResDoc res)
          | None =>
              let! insertedId := roleAssignment_insertAsync userId roleName scope in
              ret (Some insertedId, ResUndefined)
          end in
        match fst p with
        | Some insertedId =>
            let! inherited := _getInheritedRoleNamesAsync role in
            roleAssignment_updateAsync (byId insertedId)
              (Mongo.SetInheritedRoles (roleName :: inherited)) false ;;
            let! res := roleAssignment_findOneAsync (byId insertedId) in
            ret (ResDoc res)
        | None => ret (snd p)
        end
    end.

(** [typeof user === 'object' ? user._id : user]; [typeof null] is
    ['object'] too, and reading [_id] of [null] throws. *)
Definition userIdOf (u : UserArg) : Outcome JS.Val :=
  match u with
  | UserObj i => Return i
  | UserVal JS.Null => Throw (TypeError "Cannot read properties of null (reading '_id')")
  | UserVal v => Return v
  end.

(** [addUsersToRolesAsync(users, roles, options)] *)
Definition addUsersToRolesAsync (users : OneOrMany UserArg) (roles : OneOrMany string)
    (options : OptionsArg) : Async unit :=
  if negb (usersTruthy users) then throw (Error "Missing 'users' param.")
  else if negb (namesTruthy roles) then throw (Error "Missing 'roles' param.")
  else
    let options := _normalizeOptions options in
    let users := ensureArray users in
    let roles := ensureArray roles in
    lift (_checkScopeName (opt_scope options)) ;;
    forOf users (fun user =>
      let! id := lift (userIdOf user) in
      forOf roles (fun role => _addUserToRoleAsync id role options ;; ret tt)).

Section SetUserRoles.

(** [Roles._addUserToRole], the function [setUserRolesAsync] calls for
    each role; it is defined in [roles/roles_common.js]. *)
Variable _addUserToRole : JS.Val -> string -> Options -> Async AddResult.

(** [setUserRolesAsync(users, roles, options)] *)
Definition setUserRolesAsync (users : OneOrMany UserArg) (roles : OneOrMany string)
    (options : OptionsArg) : Async unit :=
  if negb (usersTruthy users) then throw (Error "Missing 'users' param.")
  else if negb (namesTruthy roles) then throw (Error "Missing 'roles' param.")
  else
    let options := _normalizeOptions options in
    let users := ensureArray users in
    let roles := ensureArray roles in
    lift (_checkScopeName (opt_scope options)) ;;
    forOf users (fun user =>
      let! id := lift (userIdOf user) in
      let selector := byUser id in
      let selector :=
        if negb (anyScope options)
        then withScope (Mongo.ScopeIs (scopeOf (opt_scope options))) selector
        else selector in
      roleAssignment_removeAsync selector ;;
      forOf roles (fun role => _addUserToRole id role options ;; ret tt)).

End SetUserRoles.

(** [_removeUserFromRoleAsync(userId, roleName, options)] *)
Definition _removeUserFromRoleAsync (userId : JS.Val) (roleName : string) (options : Options)
    : Async unit :=
  lift (_checkRoleName (JS.Str roleName)) ;;
  lift (_checkScopeName (opt_scope options)) ;;
  if negb (JS.truthy userId) then ret tt
  else
    let selector := byUserRole userId roleName in
    let selector :=
      if negb (anyScope options)
      then withScope (Mongo.ScopeIs (scopeOf (opt_scope options))) selector
      else selector in
    roleAssignment_removeAsync selector.

(** [!user] for an element of [users]: an object is truthy. *)
Definition userTruthy (u : UserArg) : bool :=
  match u with
  | UserVal v => JS.truthy v
  | UserObj _ => true
  end.

(** [removeUsersFromRolesAsync(users, roles, options)]; a falsy user ends
    the whole call. *)
Definition removeUsersFromRolesAsync (users : OneOrMany UserArg) (roles : OneOrMany string)
    (options : OptionsArg) : Async unit :=
  if negb (usersTruthy users) then throw (Error "Missing 'users' param.")
  else if negb (namesTruthy roles) then throw (Error "Missing 'roles' param.")
  else
    let options := _normalizeOptions options in
    let users := ensureArray users in
    let roles := ensureArray roles in
    lift (_checkScopeName (opt_scope options)) ;;
    forOfFlow users (fun user =>
      if negb (userTruthy user) then ret Exit
      else
        forOf roles (fun role =>
          let! id := lift (userIdOf user) in
          _removeUserFromRoleAsync id role options) ;;
        ret Next) ;;
    ret tt.

(** [user && typeof user === 'object' ? user._id : user] *)
Definition guardedUserIdOf (u : UserArg) : JS.Val :=
  match u with
  | UserObj i => i
  | UserVal v => v
  end.

(** The predicate [userIsInRoleAsync] hands to [asyncSome]. *)
Definition hasRoleAsync (selector : Mongo.Selector) (roleName : JS.Val) : Async bool :=
  let selector := withInherited roleName selector in
  let! n := roleAssignment_countLimit1Async selector in
  ret (Nat.ltb 0 n).

(** [userIsInRoleAsync(user, roles, options)] *)
Definition userIsInRoleAsync (user : UserArg) (roles : OneOrMany JS.Val) (options : OptionsArg)
    : Async bool :=
  let options := _normalizeOptions options in
  let roles := ensureArray roles in
  let roles := filter (fun r => negb (JS.isNullish r)) roles in
  if Nat.eqb (List.length roles) 0 then ret false
  else
    lift (_checkScopeName (opt_scope options)) ;;
    let id := guardedUserIdOf user in
    if negb (JS.truthy id) then ret false
    else if negb (JS.isString id) then ret false
    else
      let selector := byUser id in
      let selector :=
        if negb (anyScope options)
        then withScope (Mongo.ScopeIn [scopeOf (opt_scope options); None]) selector
        else selector in
      asyncSome roles (hasRoleAsync selector).

(** [renameScopeAsync(oldName, newName)] *)
Definition renameScopeAsync (fuel : nat) (oldName newName : JS.Val) : Fueled unit :=
  let? _ := run (lift (_checkScopeName oldName)) in
  let? _ := run (lift (_checkScopeName newName)) in
  if JS.strictEq oldName newName then run (ret tt)
  else
    doWhile fuel
      (roleAssignment_updateAsync (byScope (scopeOf oldName))
         (Mongo.SetScope (scopeOf newName)) true).

(** The [while (rolesToCheck.length !== 0)] loop of [isParentOfAsync]. *)
Fixpoint isParentOf_loop (fuel : nat) (childRoleName : string) (rolesToCheck : list string)
    : Fueled bool :=
  fun st =>
    match fuel with
    | O => None
    | S fuel' =>
        match JS.pop rolesToCheck with
        | None => Some (Return false, st)
        | Some (rolesToCheck, roleName) =>
            if String.eqb roleName childRoleName then Some (Return true, st)
            else
              match roles_findOneAsync (roleById roleName) st with
              | (Return None, st') => isParentOf_loop fuel' childRoleName rolesToCheck st'
              | (Return (Some role), st') =>
                  isParentOf_loop fuel' childRoleName (rolesToCheck ++ children role) st'
              | (Throw e, st') => Some (Throw e, st')
              end
        end
    end.

(** [isParentOfAsync(parentRoleName, childRoleName)]. Past the two name
    checks both names are strings. *)
Definition isParentOfAsync (fuel : nat) (parentRoleName childRoleName : JS.Val) : Fueled bool :=
  if JS.strictEq parentRoleName childRoleName then run (ret true)
  else if JS.isNullish parentRoleName || JS.isNullish childRoleName then run (ret false)
  else
    let? _ := run (lift (_checkRoleName parentRoleName)) in
    let? _ := run (lift (_checkRoleName childRoleName)) in
    match parentRoleName, childRoleName with
    | JS.Str parent, JS.Str child => isParentOf_loop fuel child [parent]
    | _, _ => run (ret false)
    end.

(** ** The reference notions the operations are measured against *)

(** [reaches st a b]: [b] is [a] or is reachable from [a] along children
    edges, an edge leaving a name only when the name has a role document. *)
Inductive reaches (st : Store) : string -> string -> Prop :=
| reaches_refl (a : string) : reaches st a a
| reaches_step (a b c : string) (r : RoleDoc) :
    find (Mongo.matchesRole (roleById a)) (Meteor_roles st) = Some r ->
    In c (children r) ->
    reaches st c b ->
    reaches st a b.

(** The children relation is acyclic when the role names can be ranked so
    that every edge goes down. *)
Definition acyclic (st : Store) : Prop :=
  exists rank : string -> nat,
    forall r c, In r (Meteor_roles st) -> In c (children r) -> rank c < rank (role_id r).

(** A cycle: a role document with a child from which its own name is
    reachable. *)
Definition hasCycle (st : Store) : Prop :=
  exists r c, In r (Meteor_roles st) /\ In c (children r) /\ reaches st c (role_id r).

Definition childrenOf (st : Store) (name : string) : list string :=
  match find (Mongo.matchesRole (roleById name)) (Meteor_roles st) with
  | Some r => children r
  | None => []
  end.

Fixpoint addNew (seen : list string) (names : list string) : list string * list string :=
  match names with
  | [] => (seen, [])
  | n :: rest =>
      if memStr n seen then addNew seen rest
      else let '(seen', fresh) := addNew (seen ++ [n]) rest in (seen', n :: fresh)
  end.

(** Breadth-first closure with a visited set: [visited] holds every name
    met so far, [frontier] the names met in the last round. *)
Fixpoint closureFrom (fuel : nat) (st : Store) (visited frontier : list string) : list string :=
  match fuel with
  | O => visited
  | S fuel' =>
      match frontier with
      | [] => visited
      | _ =>
          let '(visited', fresh) := addNew visited (flat_map (childrenOf st) frontier) in
          closureFrom fuel' st visited' fresh
      end
  end.

(** [descendantsOf(role)] as the specification words it: the transitive
    closure of the children relation from [role], [role] itself left out,
    by a breadth-first search over forward edges with a visited set. Every
    round but the last meets a new child name, so one round per child
    entry in the store, and one more, is enough. *)
Definition descendantsOf (st : Store) (roleName : string) : list string :=
  let fuel := S (List.length (flat_map children (Meteor_roles st))) in
  filter (fun n => negb (String.eqb n roleName))
    (closureFrom fuel st [roleName] [roleName]).

(** [inheritedClosureOf(role)] as the specification words it. *)
Definition inheritedClosureOf (st : Store) (roleName : string) : list string :=
  roleName :: descendantsOf st roleName.

(** Modelled from the spec: [Roles._addUserToRole] of
    [roles/roles_common.js], which [setUserRolesAsync] calls and which is
    not among the sources. It fails on a malformed role or scope name; it
    fails unless the role exists, or returns silently when [ifExists] is
    set; it looks up an assignment of the exact user, role and scope and
    overwrites it in place if there is one; otherwise it inserts a record
    and sets its [inheritedRoles] to [inheritedClosureOf] of the role. *)
Definition _addUserToRole (userId : JS.Val) (roleName : string) (options : Options)
    : Async AddResult :=
  lift (_checkRoleName (JS.Str roleName)) ;;
  lift (_checkScopeName (opt_scope options)) ;;
  let! role := roles_findOneAsync (roleById roleName) in
  match role with
  | None =>
      if ifExists options then ret ResEmptyArray
      else throw (Error ("Role '" ++ roleName ++ "' does not exist."))
  | Some role =>
      let scope := scopeOf (opt_scope options) in
      let! existingAssignment :=
        roleAssignment_findOneAsync
          (withScope (Mongo.ScopeIs scope) (byUserRole userId roleName)) in
      match existingAssignment with
      | Some existing =>
          roleAssignment_updateAsync (byId (a_id existing))
            (Mongo.SetUserRoleScope userId roleName scope) false ;;
          ret (ResDoc (Some existing))
      | None =>
          let! insertedId := roleAssignment_insertAsync userId roleName scope in
          fun st =>
            (roleAssignment_updateAsync (byId insertedId)
               (Mongo.SetInheritedRoles (inheritedClosureOf st roleName)) false ;;
             let! res := roleAssignment_findOneAsync (byId insertedId) in
             ret (ResDoc res)) st
      end
  end.

(** ** Well-formed stores and the sample hierarchy *)

(** The generated [_id] is the key of [Meteor.roleAssignment]: no two
    assignments share one, and the ids still to come are fresh. *)
Definition wfStore (st : Store) : Prop :=
  NoDup (map a_id (Meteor_roleAssignment st))
  /\ forall a, In a (Meteor_roleAssignment st) -> a_id a < nextId st.

(** The selector of the assignments of one user, role and scope. *)
Definition byTriple (u : JS.Val) (r : string) (s : option string) : Mongo.Selector :=
  withScope (Mongo.ScopeIs s) (byUserRole u r).

(** How many assignment records the store holds for a user, role and scope. *)
Definition countFor (st : Store) (u : JS.Val) (r : string) (s : option string) : nat :=
  List.length (filter (Mongo.matches (byTriple u r s)) (Meteor_roleAssignment st)).

(** How often a name occurs in a list. *)
Definition occurrences (n : string) (l : list string) : nat :=
  List.length (filter (String.eqb n) l).

(** The store after [createRole('admin')], [createRole('editor')] and
    [addRolesToParent('editor', 'admin')] on an empty store. *)
Definition adminOverEditor : Store :=
  snd ((createRoleAsync "admin" None ;;
        createRoleAsync "editor" None ;;
        addRolesToParentAsync (One "editor") "admin") emptyStore).

(** That store after [addUsersToRoles('u1', 'admin')]. *)
Definition adminAssigned : Store :=
  snd (addUsersToRolesAsync (One (UserVal (JS.Str "u1"))) (One "admin")
         OptionsUndefined adminOverEditor).

(** And after [addUsersToRoles('u1', 'admin', 's1')]: [u1] now holds
    [admin] globally and in the scope [s1]. *)
Definition adminGlobalAndScoped : Store :=
  snd (addUsersToRolesAsync (One (UserVal (JS.Str "u1"))) (One "admin")
         (OptionsString "s1") adminAssigned).

(** The store after a grant that had to insert: one more assignment, with
    the given [inheritedRoles]. *)
Definition granted (st : Store) (u : JS.Val) (r : string) (s : option string)
    (l : list string) : Store :=
  mkStore (Meteor_roles st)
    (Meteor_roleAssignment st ++ [mkAssignment (nextId st) u r s (Some l)])
    (S (nextId st)).

(** The selector [setUserRolesAsync] clears a user's assignments with,
    and the store once they are cleared. *)
Definition assignmentsToReplace (u : JS.Val) (o : Options) : Mongo.Selector :=
  if negb (anyScope o)
  then withScope (Mongo.ScopeIs (scopeOf (opt_scope o))) (byUser u)
  else byUser u.

Definition cleared (st : Store) (u : JS.Val) (o : Options) : Store :=
  mkStore (Meteor_roles st)
    (Mongo.remove (Mongo.matches (assignmentsToReplace u o)) (Meteor_roleAssignment st))
    (nextId st).

(** What the search does with the name on top of the stack, given [n]
    turns: it answers [true] when [child] is reachable from the name, and
    otherwise goes on with the rest of the stack. *)
Definition explored (st : Store) (child : string) (x : string) (n : nat) : Prop :=
  (reaches st x child
   /\ forall rest fuel,
        isParentOf_loop (n + fuel) child (rest ++ [x]) st = Some (Return true, st))
  \/ (~ reaches st x child
      /\ forall rest fuel,
           isParentOf_loop (n + fuel) child (rest ++ [x]) st
           = isParentOf_loop fuel child rest st).

Definition exploredAll (st : Store) (child : string) (xs : list string) (n : nat) : Prop :=
  ((exists x, In x xs /\ reaches st x child)
   /\ forall rest fuel,
        isParentOf_loop (n + fuel) child (rest ++ xs) st = Some (Return true, st))
  \/ ((forall x, In x xs -> ~ reaches st x child)
      /\ forall rest fuel,
           isParentOf_loop (n + fuel) child (rest ++ xs) st
           = isParentOf_loop fuel child rest st).

(** Measures for the rewriting loops: the sum of a weight over a
    collection, and how often a name is still referred to. *)
Definition total {D : Type} (w : D -> nat) (docs : list D) : nat :=
  list_sum (map w docs).

Definition indicator {D : Type} (sel : D -> bool) (d : D) : nat :=
  if sel d then 1 else 0.

Definition inheritedWeight (name : string) (a : Assignment) : nat :=
  match inheritedRoles a with
  | Some l => occurrences name l
  | None => 0
  end.

Definition childrenWeight (name : string) (r : RoleDoc) : nat :=
  occurrences name (children r).

(** A role store with a role that is its own child. *)
Definition selfLoop : Store := mkStore [mkRole "a" ["a"]] [] 1.

(** ** The rest of the interface *)

(** [$pull: {children: {_id: id}}]: every element with this id goes. *)
Definition pullChild (id : string) (d : RoleDoc) : RoleDoc :=
  mkRole (role_id d) (filter (fun c => negb (String.eqb c id)) (children d)).

Definition roles_pullChildAsync (q : Mongo.RoleSelector) (id : string) : Async nat :=
  fun st =>
    let '(docs, n) :=
      Mongo.update (Mongo.matchesRole q) (pullChild id) false (Meteor_roles st) in
    (Return n, mkStore docs (Meteor_roleAssignment st) (nextId st)).

(** [Meteor.roles.find(selector).fetchAsync()]: the matching documents in
    the order of the collection. *)
Definition roles_fetchAsync (sel : RoleDoc -> bool) : Async (list RoleDoc) :=
  fun st => (Return (filter sel (Meteor_roles st)), st).

(** [s.add(x)] on a [Set] kept in insertion order. *)
Definition Set_add (s : list string) (x : string) : list string :=
  if memStr x s then s else s ++ [x].

(** The loop [for (const roleName of parentRoles)] of
    [_getParentRoleNamesAsync]: the iteration of a [Set] visits its
    elements in insertion order, those added on the way included, so it is
    a walk by index over a growing list. Each turn visits one element. *)
Fixpoint parentRoles_loop (turns : nat) (parentRoles : list string) (i : nat)
    : Async (list string) :=
  match turns with
  | O => ret parentRoles
  | S turns' =>
      match nth_error parentRoles i with
      | None => ret parentRoles
      | Some roleName =>
          let! found := roles_fetchAsync (Mongo.matchesRole (roleWithChild roleName)) in
          parentRoles_loop turns' (fold_left Set_add (map role_id found) parentRoles) (S i)
      end
  end.

(** [_getParentRoleNamesAsync(role)]; [role] is [None] for [undefined].
    The set only ever holds the id of [role] and ids of role documents,
    each once, so the walk takes at most one turn more than there are role
    documents. *)
Definition _getParentRoleNamesAsync (role : option RoleDoc) : Async (list string) :=
  match role with
  | None => ret []
  | Some role =>
      fun st =>
        (let! parentRoles :=
           parentRoles_loop (S (List.length (Meteor_roles st))) [role_id role] 0 in
         ret (filter (fun n => negb (String.eqb n (role_id role))) parentRoles)) st
  end.

(** [_removeRoleFromParentAsync(roleName, parentName)]. A role document
    that [findOneAsync] does not find makes [_getInheritedRoleNamesAsync]
    build a [Set] of [undefined], which its loop visits as little as any
    other. *)
Definition _removeRoleFromParentAsync (roleName parentName : string) : Async unit :=
  lift (_checkRoleName (JS.Str roleName)) ;;
  lift (_checkRoleName (JS.Str parentName)) ;;
  let! role := roles_findOneAsync (roleById roleName) in
  match role with
  | None => throw (Error ("Role '" ++ roleName ++ "' does not exist."))
  | Some role =>
      let! count := roles_pullChildAsync (roleById parentName) (role_id role) in
      if Nat.eqb count 0 then ret tt
      else
        let! parent := roles_findOneAsync (roleById parentName) in
        let! ancestors := _getParentRoleNamesAsync parent in
        let roles := ancestors ++ [parentName] in
        let! found := roles_fetchAsync (fun d => memStr (role_id d) roles) in
        forOf found (fun r =>
          let! doc := roles_findOneAsync (roleById (role_id r)) in
          let! inheritedRoles :=
            match doc with
            | Some d => _getInheritedRoleNamesAsync d
            | None => ret []
            end in
          roleAssignment_updateAsync
            (Mongo.mkSelector None None (Some (role_id r)) None (Some (JS.Str (role_id role))))
            (Mongo.SetInheritedRoles (role_id r :: inheritedRoles)) true ;;
          ret tt)
  end.

(** [removeRolesFromParentAsync(rolesNames, parentName)] *)
Definition removeRolesFromParentAsync (rolesNames : OneOrMany string) (parentName : string)
    : Async unit :=
  forOf (ensureArray rolesNames)
    (fun roleName => _removeRoleFromParentAsync roleName parentName).

(** [removeScopeAsync(name)] *)
Definition removeScopeAsync (name : JS.Val) : Async unit :=
  lift (_checkScopeName name) ;;
  roleAssignment_removeAsync (byScope (scopeOf name)).

(** A selector with the two conditions the queries add:
    [scope: {$ne: null}] and ['inheritedRoles._id': {$in: names}]. *)
Record Query : Type := mkQuery {
  query_base : Mongo.Selector;
  query_scoped : bool;
  query_inherits : option (list string)
}.

Definition matchesQuery (q : Query) (d : Assignment) : bool :=
  Mongo.matches (query_base q) d
  && (if query_scoped q then negb (scope_eqb (scope d) None) else true)
  && Mongo.holds (query_inherits q)
       (fun names => match inheritedRoles d with
                     | Some l => existsb (fun n => memStr n l) names
                     | None => false
                     end).

(** [Meteor.roleAssignment.find(selector, options)]: a cursor reads
    nothing until it is fetched. *)
Record Cursor : Type := mkCursor { cursor_query : Query }.

Definition fetchAsync (c : Cursor) : Async (list Assignment) :=
  fun st => (Return (filter (matchesQuery (cursor_query c)) (Meteor_roleAssignment st)), st).

(** The options of the queries: the bag of [Options] with the flags
    [onlyScoped], [onlyAssigned] and [fullObjects], absent flags being
    [false]. *)
Inductive QueryOptionsArg : Type :=
| QueryUndefined
| QueryNull
| QueryString (s : string)
| QueryObject (o : Options) (onlyScoped onlyAssigned fullObjects : bool).

Definition baseOptions (options : QueryOptionsArg) : OptionsArg :=
  match options with
  | QueryUndefined => OptionsUndefined
  | QueryNull => OptionsNull
  | QueryString s => OptionsString s
  | QueryObject o _ _ _ => OptionsObject o
  end.

Definition onlyScopedOf (options : QueryOptionsArg) : bool :=
  match options with
  | QueryObject _ b _ _ => b
  | _ => false
  end.

Definition onlyAssignedOf (options : QueryOptionsArg) : bool :=
  match options with
  | QueryObject _ _ b _ => b
  | _ => false
  end.

Definition fullObjectsOf (options : QueryOptionsArg) : bool :=
  match options with
  | QueryObject _ _ _ b => b
  | _ => false
  end.

(** [selector.scope = {$in: [options.scope]}], with [null] pushed unless
    [onlyScoped]. *)
Definition scopeIn (s : option string) (onlyScoped : bool) : Mongo.ScopeCond :=
  Mongo.ScopeIn (if negb onlyScoped then [s; None] else [s]).

(** An assignment as a projection returns it: only the field asked for. *)
Record Projected : Type := mkProjected {
  p_inheritedRoles : option (list string);
  p_role : option string
}.

Definition project (onlyAssigned : bool) (d : Assignment) : Projected :=
  if onlyAssigned then mkProjected None (Some (role d))
  else mkProjected (inheritedRoles d) None.

(** [[...new Set(xs)]]: the elements in order, each at its first place;
    [seen] holds the elements met so far. *)
Fixpoint Set_of {A : Type} (eqb : A -> A -> bool) (seen : list A) (xs : list A) : list A :=
  match xs with
  | [] => []
  | x :: rest =>
      if existsb (eqb x) seen then Set_of eqb seen rest
      else x :: Set_of eqb (x :: seen) rest
  end.

(** What [getRolesForUserAsync] returns: the documents or the names; the
    empty array it returns for a falsy user id is the empty one of either. *)
Inductive RolesForUser : Type :=
| FullObjects (docs : list Assignment)
| RoleNames (names : list string).

(** [getRolesForUserAsync(user, options)] *)
Definition getRolesForUserAsync (user : UserArg) (options : QueryOptionsArg)
    : Async RolesForUser :=
  let onlyScoped := onlyScopedOf options in
  let onlyAssigned := onlyAssignedOf options in
  let fullObjects := fullObjectsOf options in
  let options := _normalizeOptions (baseOptions options) in
  lift (_checkScopeName (opt_scope options)) ;;
  let id := guardedUserIdOf user in
  if negb (JS.truthy id) then ret (if fullObjects then FullObjects [] else RoleNames [])
  else
    let selector := byUser id in
    let selector :=
      if negb (anyScope options)
      then withScope (scopeIn (scopeOf (opt_scope options)) onlyScoped) selector
      else selector in
    let! roles := fetchAsync (mkCursor (mkQuery selector false None)) in
    if fullObjects then ret (FullObjects roles)
    else
      ret (RoleNames
             (Set_of String.eqb []
                (fold_left
                   (fun rev current =>
                      match p_inheritedRoles current with
                      | Some l => rev ++ l
                      | None =>
                          match p_role current with
                          | Some r => rev ++ [r]
                          | None => rev
                          end
                      end)
                   (map (project onlyAssigned) roles) []))).

(** [_getUsersInRoleCursor(roles, options, filter)], called with role
    names and without query options of the caller's own. *)
Definition _getUsersInRoleCursor (roles : OneOrMany string) (options : QueryOptionsArg)
    : Outcome Cursor :=
  let onlyScoped := onlyScopedOf options in
  let options := _normalizeOptions (baseOptions options) in
  let roles := ensureArray roles in
  match _checkScopeName (opt_scope options) with
  | Throw e => Throw e
  | Return _ =>
      let selector := Mongo.mkSelector None None None None None in
      let selector :=
        if negb (anyScope options)
        then withScope (scopeIn (scopeOf (opt_scope options)) onlyScoped) selector
        else selector in
      Return (mkCursor (mkQuery selector false (Some roles)))
  end.

(** [getUserAssignmentsForRole(roles, options)]: it normalises the
    options and hands the normalised bag on, which is normalised again. *)
Definition getUserAssignmentsForRole (roles : OneOrMany string) (options : QueryOptionsArg)
    : Outcome Cursor :=
  _getUsersInRoleCursor roles
    (QueryObject (_normalizeOptions (baseOptions options))
       (onlyScopedOf options) (onlyAssignedOf options) (fullObjectsOf options)).

(** [getUsersInRoleAsync(roles, options)]. The cursor it returns is over
    [Meteor.users] and selects the users whose [_id] is one of [ids]; it is
    given here by [ids]. *)
Definition getUsersInRoleAsync (roles : OneOrMany string) (options : QueryOptionsArg)
    : Async (list JS.Val) :=
  let! cursor := lift (getUserAssignmentsForRole roles options) in
  let! assignments := fetchAsync cursor in
  ret (map user assignments).

(** [getScopesForUserAsync(user, roles)]; [roles] is [None] when the
    argument is left out. The scopes are returned as the assignments hold
    them, [None] being [null]. *)
Definition getScopesForUserAsync (user : UserArg) (roles : option (OneOrMany string))
    : Async (list (option string)) :=
  let roles :=
    match roles with
    | Some r => if namesTruthy r then Some (ensureArray r) else None
    | None => None
    end in
  let id := guardedUserIdOf user in
  if negb (JS.truthy id) then ret []
  else
    let! found := fetchAsync (mkCursor (mkQuery (byUser id) true roles)) in
    let scopes := map scope found in
    ret (Set_of scope_eqb [] scopes).

(** ** Notions the further properties are stated with *)

(** A role name or a scope name as the checks want it: a string that is
    not empty and neither starts nor ends with white space. *)
Definition wellFormedName (v : JS.Val) : Prop :=
  exists s, v = JS.Str s /\ s <> EmptyString
            /\ JS.startsWithWhiteSpace s = false
            /\ JS.endsWithWhiteSpace s = false.

(** The [_id] of a role is its key: no two role documents share one. *)
Definition uniqueRoleIds (st : Store) : Prop :=
  NoDup (map role_id (Meteor_roles st)).

(** Every assignment lists its own role among its [inheritedRoles]. *)
Definition selfListed (st : Store) : Prop :=
  forall a, In a (Meteor_roleAssignment st) ->
    exists l, inheritedRoles a = Some l /\ In (role a) l.

(** The three together: what every store built by the operations is. *)
Definition consistent (st : Store) : Prop :=
  wfStore st /\ uniqueRoleIds st /\ selfListed st.

(** The selector [userIsInRoleAsync] builds before it sets the role. *)
Definition membershipSelector (id : JS.Val) (options : Options) : Mongo.Selector :=
  if negb (anyScope options)
  then withScope (Mongo.ScopeIn [scopeOf (opt_scope options); None]) (byUser id)
  else byUser id.

(** A call keeps a property of the store when the store it leaves behind
    has the property whenever the store it ran on had it, whether it
    returned or threw. *)
Definition keeps {A : Type} (P : Store -> Prop) (m : Async A) : Prop :=
  forall st, P st -> P (snd (m st)).

(** The selector [_removeUserFromRoleAsync] removes with, and whether one
    of the calls [removeUsersFromRoles] makes for a user and a list of
    roles removes an assignment. *)
Definition revocationSelector (u : JS.Val) (o : Options) (r : string) : Mongo.Selector :=
  if negb (anyScope o) then byTriple u r (scopeOf (opt_scope o)) else byUserRole u r.

Definition revokes (u : JS.Val) (o : Options) (names : list string) (a : Assignment) : bool :=
  existsb (fun r => Mongo.matches (revocationSelector u o r) a) names.

(** The selector and the two rewritings of [_addRoleToParentAsync]: the
    parent that lacks the child gets it, and the assignments that list the
    parent get the child. *)
Definition parentLacking (roleName parentName : string) : Mongo.RoleSelector :=
  Mongo.mkRoleSelector (Some parentName) (Some (Mongo.ChildrenLacks roleName)).

Definition withChild (roleName parentName : string) (d : RoleDoc) : RoleDoc :=
  if Mongo.matchesRole (parentLacking roleName parentName) d
  then mkRole (role_id d) (children d ++ [roleName])
  else d.

Definition withInheritedChild (roleName parentName : string) (a : Assignment) : Assignment :=
  if Mongo.matches (byInherited parentName) a
  then Mongo.applyModifier (byInherited parentName) (Mongo.PushInheritedRoles [roleName]) a
  else a.

(** Two roles without an edge between them, and [u1] holding [admin]. *)
Definition adminHeldAlone : Store :=
  snd ((createRoleAsync "admin" None ;;
        createRoleAsync "editor" None ;;
        addUsersToRolesAsync (One (UserVal (JS.Str "u1"))) (One "admin") OptionsUndefined)
         emptyStore).

(** A call that always returns and leaves the role collection and the id
    counter alone: all it can write is the assignments. *)
Definition writesAssignmentsOnly {A : Type} (m : Async A) : Prop :=
  forall st, exists a st1,
    m st = (Return a, st1)
    /\ Meteor_roles st1 = Meteor_roles st /\ nextId st1 = nextId st.

(** A role document without the child [roleName] when it is [parentName]'s. *)
Definition withoutChild (roleName parentName : string) (d : RoleDoc) : RoleDoc :=
  if Mongo.matchesRole (roleById parentName) d then pullChild roleName d else d.

(** [ancestorOf st x y]: a chain of role documents, each listing the next
    one's name among its children, leads from a document named [x] down to
    a document that lists [y]. *)
Inductive ancestorOf (st : Store) : string -> string -> Prop :=
| ancestor_parent (d : RoleDoc) (y : string) :
    In d (Meteor_roles st) -> In y (children d) -> ancestorOf st (role_id d) y
| ancestor_step (d : RoleDoc) (z y : string) :
    In d (Meteor_roles st) -> In z (children d) -> ancestorOf st z y ->
    ancestorOf st (role_id d) y.

(** An assignment moved from the scope [old] to the scope [new]. *)
Definition rescope (old new : option string) (a : Assignment) : Assignment :=
  if Mongo.matches (byScope old) a
  then mkAssignment (a_id a) (user a) (role a) new (inheritedRoles a)
  else a.

(** [cycleBelow st x]: from [x] the children edges lead to a name that they
    lead back to. *)
Definition cycleBelow (st : Store) (x : string) : Prop :=
  exists c r ch,
    reaches st x c
    /\ find (Mongo.matchesRole (roleById c)) (Meteor_roles st) = Some r
    /\ In ch (children r)
    /\ reaches st ch c.

(** A name, an assignment and a list of children after [old] has been
    renamed to [new]. *)
Definition renamed (old new x : string) : string :=
  if String.eqb x old then new else x.

Definition renamedAssignment (old new : string) (a : Assignment) : Assignment :=
  mkAssignment (a_id a) (user a) (renamed old new (role a)) (scope a)
    (option_map (map (renamed old new)) (inheritedRoles a)).

Definition renamedChildren (old new : string) (r : RoleDoc) : RoleDoc :=
  mkRole (role_id r) (map (renamed old new) (children r)).

(** Two cyclic hierarchies the interface builds, [_addRoleToParentAsync]
    reporting no cycle: [admin] and [editor] each the child of the other,
    and [a] with the children [t] and [a]. *)
Definition adminEditorCycle : Store :=
  snd (addRolesToParentAsync (One "admin") "editor" adminOverEditor).

Definition aboveItself : Store :=
  snd ((createRoleAsync "a" None ;;
        createRoleAsync "t" None ;;
        addRolesToParentAsync (Many ["t"; "a"]) "a") emptyStore).

(** ** Basic facts *)

Unset Implicit Arguments.

Lemma strictEq_refl (v : JS.Val) : JS.strictEq v v = true.
Proof.
  destruct v; simpl; auto using Bool.eqb_reflx, Z.eqb_refl, String.eqb_refl.
Qed.

Lemma strictEq_eq (a b : JS.Val) : JS.strictEq a b = true <-> a = b.
Proof.
  split.
  - destruct a, b; simpl; intros H; try discriminate; auto.
    + apply Bool.eqb_prop in H. now subst.
    + apply Z.eqb_eq in H. now subst.
    + apply String.eqb_eq in H. now subst.
  - intros ->. apply strictEq_refl.
Qed.

Lemma scope_eqb_eq (x y : option string) : scope_eqb x y = true <-> x = y.
Proof.
  destruct x, y; simpl; split; intros H; try discriminate; auto.
  - apply String.eqb_eq in H. now subst.
  - inversion H. apply String.eqb_refl.
Qed.

Lemma scope_eqb_refl (x : option string) : scope_eqb x x = true.
Proof. now apply scope_eqb_eq. Qed.

Lemma memStr_In (x : string) (l : list string) : memStr x l = true <-> In x l.
Proof.
  unfold memStr. rewrite existsb_exists. split.
  - intros (y & Hy & E). apply String.eqb_eq in E. now subst.
  - intros H. exists x. split; auto. apply String.eqb_refl.
Qed.

Lemma pop_snoc {A : Type} (l : list A) (x : A) : JS.pop (l ++ [x]) = Some (l, x).
Proof.
  unfold JS.pop. rewrite rev_app_distr. simpl. now rewrite rev_involutive.
Qed.

Lemma pop_nil {A : Type} : JS.pop (@nil A) = None.
Proof. reflexivity. Qed.

Lemma findOne_role_id (st : Store) (x : string) (r : RoleDoc) :
  find (Mongo.matchesRole (roleById x)) (Meteor_roles st) = Some r ->
  In r (Meteor_roles st) /\ role_id r = x.
Proof.
  intros H. apply find_some in H. destruct H as [Hin Hm]. split; auto.
  unfold Mongo.matchesRole, roleById in Hm. simpl in Hm. rewrite andb_true_r in Hm.
  now apply String.eqb_eq.
Qed.

Lemma reaches_inv (st : Store) (x y : string) :
  reaches st x y ->
  x = y
  \/ exists r c, find (Mongo.matchesRole (roleById x)) (Meteor_roles st) = Some r
                 /\ In c (children r) /\ reaches st c y.
Proof.
  intros H. destruct H as [a | a b c r Hf Hc Hr]; [now left |].
  right. exists r, c. auto.
Qed.

Lemma reaches_rank (st : Store) (rank : string -> nat) (x y : string) :
  (forall r c, In r (Meteor_roles st) -> In c (children r) -> rank c < rank (role_id r)) ->
  reaches st x y -> rank y <= rank x.
Proof.
  intros Hrank H. induction H as [a | a b c r Hf Hc Hr IH]; [lia |].
  destruct (findOne_role_id st a r Hf) as [Hin Hid].
  pose proof (Hrank r c Hin Hc). rewrite Hid in *. lia.
Qed.

(** A ranked role store has no cycle. *)
Lemma acyclic_no_cycle (st : Store) : acyclic st -> ~ hasCycle st.
Proof.
  intros (rank & Hrank) (r & c & Hr & Hc & Hreach).
  pose proof (reaches_rank st rank c (role_id r) Hrank Hreach).
  pose proof (Hrank r c Hr Hc). lia.
Qed.

(** The closure helper returns the empty list on every role and store:
    its loop body never runs. *)
Lemma getInheritedRoleNames_empty (r : RoleDoc) (st : Store) :
  _getInheritedRoleNamesAsync r st = (Return [], st).
Proof. reflexivity. Qed.

(** ** Closure of a new assignment *)

(** C1, on the hierarchy where [admin] has the child [editor]:
    [addUsersToRoles('u1', 'admin')] stores [inheritedRoles = ['admin']]
    although [editor] is reachable from [admin] along a children edge and
    the closure of [admin] is [admin] and [editor]. *)
Theorem addUsersToRoles_omits_descendants :
  let st := adminAssigned in
  Meteor_roles st = [mkRole "admin" ["editor"]; mkRole "editor" []]
  /\ Meteor_roleAssignment st = [mkAssignment 1 (JS.Str "u1") "admin" None (Some ["admin"])]
  /\ reaches st "admin" "editor"
  /\ inheritedClosureOf st "admin" = ["admin"; "editor"]
  /\ userIsInRoleAsync (UserVal (JS.Str "u1")) (One (JS.Str "editor")) OptionsUndefined st
     = (Return false, st).
Proof.
  cbv zeta. repeat split; try reflexivity.
  eapply reaches_step with (c := "editor"); [reflexivity | simpl; auto | constructor].
Qed.

(** ** Cycles *)

(** C2, on the same hierarchy: [_addRoleToParentAsync('admin', 'editor')]
    returns without an error although [editor] is reachable from [admin];
    it adds [admin] to the children of [editor], and the children
    relation, acyclic before the call, has a cycle after it. *)
Theorem addRoleToParent_closes_cycle :
  acyclic adminOverEditor
  /\ reaches adminOverEditor "admin" "editor"
  /\ In "editor" (inheritedClosureOf adminOverEditor "admin")
  /\ exists st,
       _addRoleToParentAsync "admin" "editor" adminOverEditor = (Return tt, st)
       /\ Meteor_roles st = [mkRole "admin" ["editor"]; mkRole "editor" ["admin"]]
       /\ st <> adminOverEditor
       /\ hasCycle st
       /\ ~ acyclic st.
Proof.
  assert (Hcycle : hasCycle (snd (_addRoleToParentAsync "admin" "editor" adminOverEditor))).
  { exists (mkRole "admin" ["editor"]), "editor".
    split; [simpl; auto |]. split; [simpl; auto |].
    eapply reaches_step with (c := "admin"); [reflexivity | simpl; auto | constructor]. }
  split; [| split; [| split]].
  - exists (fun n => if String.eqb n "admin" then 1 else 0).
    intros r c Hr Hc. vm_compute in Hr.
    destruct Hr as [<- | [<- | []]]; simpl in Hc.
    + destruct Hc as [<- | []]. simpl. lia.
    + destruct Hc.
  - eapply reaches_step with (c := "editor"); [reflexivity | simpl; auto | constructor].
  - vm_compute. auto.
  - eexists. split; [reflexivity |]. split; [reflexivity |]. split; [| split].
    + intros H. apply (f_equal Meteor_roles) in H. vm_compute in H. discriminate.
    + exact Hcycle.
    + intros Hacyclic. exact (acyclic_no_cycle _ Hacyclic Hcycle).
Qed.

(** The cycle error is out of reach: whatever the store and the names,
    [_addRoleToParentAsync] throws only for a malformed name or a missing
    role. *)
Lemma addRoleToParent_never_reports_cycle (roleName parentName : string) (st st' : Store)
    (e : Exception) :
  _addRoleToParentAsync roleName parentName st = (Throw e, st') ->
  e = Error ("Invalid role name '" ++ roleName ++ "'.")
  \/ e = Error ("Invalid role name '" ++ parentName ++ "'.")
  \/ e = Error ("Role '" ++ roleName ++ "' does not exist.").
Proof.
  unfold _addRoleToParentAsync, bind, lift.
  destruct (_checkRoleName (JS.Str roleName)) as [[] | e1] eqn:H1.
  2:{ intros H. inversion H; subst. left.
      unfold _checkRoleName in H1. destruct (_ || _); inversion H1. reflexivity. }
  destruct (_checkRoleName (JS.Str parentName)) as [[] | e2] eqn:H2.
  2:{ intros H. inversion H; subst. right. left.
      unfold _checkRoleName in H2. destruct (_ || _); inversion H2. reflexivity. }
  unfold roles_findOneAsync.
  destruct (find (Mongo.matchesRole (roleById roleName)) (Meteor_roles st)) as [rd |].
  2:{ intros H. inversion H. auto. }
  rewrite getInheritedRoleNames_empty. cbn [memStr existsb].
  unfold roles_updateAsync.
  destruct (Mongo.update _ _ false (Meteor_roles st)) as [docs n].
  destruct (Nat.eqb n 0); [discriminate |].
  rewrite getInheritedRoleNames_empty. unfold roleAssignment_updateAsync.
  destruct (Mongo.update _ _ true _) as [docs' n']. discriminate.
Qed.

(** ** Creating a role that exists *)

(** C3, on a store that has the role [admin]: [createRole('admin')]
    without [unlessExists] returns [null] and leaves the store as it is;
    no error is raised. *)
Theorem createRole_existing_returns_null :
  let st := snd (createRoleAsync "admin" None emptyStore) in
  Meteor_roles st = [mkRole "admin" []]
  /\ createRoleAsync "admin" None st = (Return None, st)
  /\ createRoleAsync "admin" (Some (mkOptions JS.Undefined false false false)) st
     = (Return None, st).
Proof. cbv zeta. repeat split; reflexivity. Qed.

(** ** Membership queries *)

Lemma count_limit1_positive {A : Type} (p : A -> bool) (l : list A) :
  Nat.ltb 0 (List.length (firstn 1 (filter p l))) = existsb p l.
Proof.
  induction l as [| x l IH]; simpl; auto.
  destruct (p x); simpl; auto.
Qed.

Lemma hasRoleAsync_eval (q : Mongo.Selector) (r : JS.Val) (st : Store) :
  hasRoleAsync q r st
  = (Return (existsb (Mongo.matches (withInherited r q)) (Meteor_roleAssignment st)), st).
Proof.
  unfold hasRoleAsync, bind, roleAssignment_countLimit1Async, ret.
  now rewrite count_limit1_positive.
Qed.

(** [asyncSome] never awaits the predicate past the first element it
    holds on: what follows that element plays no part, whatever the
    predicate would do there. *)
Lemma asyncSome_stops_at_first_true {A : Type} (p : A -> Async bool)
    (before : list A) (e : A) (after : list A) (st st' st'' : Store) :
  asyncSome before p st = (Return false, st') ->
  p e st' = (Return true, st'') ->
  asyncSome (before ++ e :: after) p st = (Return true, st'').
Proof.
  revert st. induction before as [| x before IH]; simpl; intros st Hb He.
  - unfold ret in Hb. inversion Hb; subst. unfold bind. now rewrite He.
  - unfold bind in *. destruct (p x st) as [[[|] | ex] s1]; try discriminate.
    now apply IH.
Qed.

Lemma asyncSome_hasRole (q : Mongo.Selector) (rs : list JS.Val) (st : Store) :
  asyncSome rs (hasRoleAsync q) st
  = (Return (existsb (fun r => existsb (Mongo.matches (withInherited r q))
                                 (Meteor_roleAssignment st)) rs), st).
Proof.
  induction rs as [| r rs IH]; simpl; auto.
  unfold bind. rewrite hasRoleAsync_eval.
  destruct (existsb (Mongo.matches (withInherited r q)) (Meteor_roleAssignment st)); simpl; auto.
Qed.

(** What the selector of [userIsInRoleAsync] matches. *)
Lemma matches_userIsInRole (id r : string) (any : bool) (s : option string) (a : Assignment) :
  Mongo.matches
    (withInherited (JS.Str r)
       (if negb any then withScope (Mongo.ScopeIn [s; None]) (byUser (JS.Str id))
        else byUser (JS.Str id))) a = true
  <-> user a = JS.Str id
      /\ (any = true \/ scope a = s \/ scope a = None)
      /\ exists l, inheritedRoles a = Some l /\ In r l.
Proof.
  unfold Mongo.matches. destruct any; simpl.
  - rewrite !andb_true_r. rewrite andb_true_iff, strictEq_eq.
    split.
    + intros [Hu Hi]. split; auto. split; auto.
      destruct (inheritedRoles a) as [l |]; try discriminate.
      exists l. split; auto. now apply memStr_In.
    + intros (Hu & _ & l & Hl & Hin). split; auto. rewrite Hl. now apply memStr_In.
  - rewrite !andb_true_r, !orb_false_r. rewrite !andb_true_iff, strictEq_eq, orb_true_iff.
    rewrite !scope_eqb_eq. split.
    + intros [[Hu Hs] Hi]. split; auto. split; auto.
      destruct (inheritedRoles a) as [l |]; try discriminate.
      exists l. split; auto. now apply memStr_In.
    + intros (Hu & [Hf | Hs] & l & Hl & Hin); try discriminate.
      split; auto. rewrite Hl. now apply memStr_In.
Qed.

Lemma filter_nullish_names (names : list string) :
  filter (fun r => negb (JS.isNullish r)) (map JS.Str names) = map JS.Str names.
Proof. induction names; simpl; congruence. Qed.

(** [userIsInRoleAsync] past its guards: one query per requested role. *)
Lemma userIsInRole_eval (usr : UserArg) (options : OptionsArg) (id : string)
    (rs : list JS.Val) (st : Store) :
  guardedUserIdOf usr = JS.Str id -> id <> EmptyString ->
  _checkScopeName (opt_scope (_normalizeOptions options)) = Return tt ->
  filter (fun r => negb (JS.isNullish r)) rs <> [] ->
  userIsInRoleAsync usr (Many rs) options st
  = (Return (existsb (fun r => existsb
       (Mongo.matches (withInherited r
          (if negb (anyScope (_normalizeOptions options))
           then withScope (Mongo.ScopeIn [scopeOf (opt_scope (_normalizeOptions options)); None])
                  (byUser (JS.Str id))
           else byUser (JS.Str id))))
       (Meteor_roleAssignment st))
       (filter (fun r => negb (JS.isNullish r)) rs)), st).
Proof.
  intros Hid Hne Hscope Hrs. unfold userIsInRoleAsync.
  change (ensureArray (Many rs)) with rs.
  destruct (filter (fun r => negb (JS.isNullish r)) rs) as [| r0 rs0] eqn:E; [congruence |].
  change (Nat.eqb (List.length (r0 :: rs0)) 0) with false. cbv iota.
  unfold bind, lift. rewrite Hscope, Hid.
  change (JS.truthy (JS.Str id)) with (negb (String.eqb id EmptyString)).
  assert (Hid' : String.eqb id EmptyString = false) by now apply String.eqb_neq.
  rewrite Hid'. simpl negb. cbv iota. simpl JS.isString. simpl negb. cbv iota.
  apply asyncSome_hasRole.
Qed.

(** [userIsInRoleAsync] past its guards is the loop of [asyncSome] over
    the requested roles, with the query for one role as its predicate. *)
Lemma userIsInRole_is_asyncSome (usr : UserArg) (options : OptionsArg) (id : string)
    (rs : list JS.Val) (st : Store) :
  guardedUserIdOf usr = JS.Str id -> id <> EmptyString ->
  _checkScopeName (opt_scope (_normalizeOptions options)) = Return tt ->
  filter (fun r => negb (JS.isNullish r)) rs <> [] ->
  userIsInRoleAsync usr (Many rs) options st
  = asyncSome (filter (fun r => negb (JS.isNullish r)) rs)
      (hasRoleAsync (membershipSelector (JS.Str id) (_normalizeOptions options))) st.
Proof.
  intros Hid Hne Hscope Hrs. unfold userIsInRoleAsync.
  change (ensureArray (Many rs)) with rs.
  destruct (filter (fun r => negb (JS.isNullish r)) rs) as [| r0 rs0] eqn:E; [congruence |].
  change (Nat.eqb (List.length (r0 :: rs0)) 0) with false. cbv iota.
  unfold bind, lift. rewrite Hscope, Hid.
  change (JS.truthy (JS.Str id)) with (negb (String.eqb id EmptyString)).
  assert (Hid' : String.eqb id EmptyString = false) by now apply String.eqb_neq.
  rewrite Hid'. simpl negb. cbv iota. simpl JS.isString. simpl negb. cbv iota.
  reflexivity.
Qed.

(** A user id that is a number is accepted by [addUsersToRoles], which
    stores the assignment, and refused by [userIsInRole], which answers
    [false] although the assignment of that user lists the role; and with
    the scope [' x'] the question about a user who holds the role globally
    is not answered but throws. *)
Lemma userIsInRole_false_or_throws_despite_assignment :
  exists st,
    addUsersToRolesAsync (One (UserVal (JS.Num 7))) (One "admin") OptionsUndefined adminOverEditor
    = (Return tt, st)
    /\ In (mkAssignment 1 (JS.Num 7) "admin" None (Some ["admin"])) (Meteor_roleAssignment st)
    /\ userIsInRoleAsync (UserVal (JS.Num 7)) (One (JS.Str "admin")) OptionsUndefined st
       = (Return false, st)
    /\ In (mkAssignment 1 (JS.Str "u1") "admin" None (Some ["admin"]))
         (Meteor_roleAssignment adminAssigned)
    /\ userIsInRoleAsync (UserVal (JS.Str "u1")) (One (JS.Str "admin")) (OptionsString " x")
         adminAssigned
       = (Throw (Error "Invalid scope name ' x'."), adminAssigned).
Proof.
  eexists. split; [vm_compute; reflexivity |].
  split; [left; reflexivity |]. split; [reflexivity |].
  split; [left; reflexivity | reflexivity].
Qed.

(** C4, amended. For a user given by a non-empty string id, a non-empty
    list of role names and options whose scope passes the scope check,
    [userIsInRole] returns a boolean and leaves the store alone; the
    boolean is [true] exactly when some assignment of the user lists one
    of the requested names in [inheritedRoles] and is in the requested
    scope or the global one, or in any scope when [anyScope] is set.  Once
    a requested name matches, whatever follows it in the request plays no
    part in the answer: the call is the loop of [asyncSome] over the
    requested names, and that loop, for any predicate, one that throws or
    writes on a later element included, returns [true] at the first
    element the predicate holds on without running it on the rest. *)
Theorem userIsInRole_iff (usr : UserArg) (rolesArg : OneOrMany JS.Val) (options : OptionsArg)
    (id : string) (names : list string) (st : Store) :
  guardedUserIdOf usr = JS.Str id -> id <> EmptyString ->
  ensureArray rolesArg = map JS.Str names -> names <> [] ->
  _checkScopeName (opt_scope (_normalizeOptions options)) = Return tt ->
  let o := _normalizeOptions options in
  let holdsRole := fun (a : Assignment) (r : string) =>
    user a = JS.Str id
    /\ (anyScope o = true \/ scope a = scopeOf (opt_scope o) \/ scope a = None)
    /\ exists l, inheritedRoles a = Some l /\ In r l in
  exists b,
    userIsInRoleAsync usr rolesArg options st = (Return b, st)
    /\ (b = true <->
        exists a r, In a (Meteor_roleAssignment st) /\ In r names /\ holdsRole a r)
    /\ (forall before r after after',
          names = before ++ r :: after ->
          (exists a, In a (Meteor_roleAssignment st) /\ holdsRole a r) ->
          userIsInRoleAsync usr (Many (map JS.Str (before ++ [r]) ++ after')) options st
          = (Return true, st))
    /\ userIsInRoleAsync usr rolesArg options st
       = asyncSome (map JS.Str names) (hasRoleAsync (membershipSelector (JS.Str id) o)) st
    /\ (forall (A : Type) (p : A -> Async bool) before e after s0 s1 s2,
          asyncSome before p s0 = (Return false, s1) ->
          p e s1 = (Return true, s2) ->
          asyncSome (before ++ e :: after) p s0 = (Return true, s2)).
Proof.
  intros Hid Hne Hroles Hnames Hscope o holdsRole.
  pose proof (fun rs => @userIsInRole_eval usr options id rs st Hid Hne Hscope) as Heval.
  fold o in Heval.
  assert (Hsame : userIsInRoleAsync usr rolesArg options st
                  = userIsInRoleAsync usr (Many (map JS.Str names)) options st).
  { unfold userIsInRoleAsync. now rewrite Hroles. }
  eexists. split; [| split; [| split; [| split]]].
  - rewrite Hsame. apply Heval. rewrite filter_nullish_names.
    destruct names; simpl; congruence.
  - rewrite filter_nullish_names. rewrite existsb_exists. split.
    + intros (v & Hv & Hex). apply in_map_iff in Hv. destruct Hv as (r & <- & Hr).
      apply existsb_exists in Hex. destruct Hex as (a & Ha & Hm).
      apply matches_userIsInRole in Hm. exists a, r. repeat split; try tauto.
    + intros (a & r & Ha & Hr & Hh). exists (JS.Str r). split.
      * now apply in_map.
      * apply existsb_exists. exists a. split; auto. now apply matches_userIsInRole.
  - intros before r after after' _ (a & Ha & Hh).
    rewrite Heval.
    + f_equal. f_equal. apply existsb_exists. exists (JS.Str r). split.
      * apply filter_In. split; [| reflexivity].
        apply in_or_app. left. apply in_map. apply in_or_app. right. simpl; auto.
      * apply existsb_exists. exists a. split; auto. now apply matches_userIsInRole.
    + intros E.
      assert (Hin : In (JS.Str r) (filter (fun r => negb (JS.isNullish r))
                                     (map JS.Str (before ++ [r]) ++ after'))).
      { apply filter_In. split; [| reflexivity].
        apply in_or_app. left. apply in_map. apply in_or_app. right. simpl; auto. }
      rewrite E in Hin. destruct Hin.
  - rewrite Hsame.
    rewrite (@userIsInRole_is_asyncSome usr options id (map JS.Str names) st Hid Hne Hscope)
      by (rewrite filter_nullish_names; destruct names; simpl; congruence).
    now rewrite filter_nullish_names.
  - intros A p before e after s0 s1 s2. apply asyncSome_stops_at_first_true.
Qed.

Lemma userIsInRole_iff_witness :
  userIsInRoleAsync (UserObj (JS.Str "u1")) (Many [JS.Str "editor"; JS.Str "admin"])
    (OptionsString "s1") adminAssigned
  = (Return true, adminAssigned).
Proof.
  destruct (@userIsInRole_iff (UserObj (JS.Str "u1")) (Many [JS.Str "editor"; JS.Str "admin"])
              (OptionsString "s1") "u1" ["editor"; "admin"] adminAssigned)
    as (b & Hrun & Hiff & _).
  - reflexivity.
  - discriminate.
  - reflexivity.
  - discriminate.
  - reflexivity.
  - rewrite Hrun. f_equal. f_equal. apply Hiff.
    exists (mkAssignment 1 (JS.Str "u1") "admin" None (Some ["admin"])), "admin".
    split; [left; reflexivity |]. split; [right; left; reflexivity |].
    split; [reflexivity |]. split; [right; right; reflexivity |].
    exists ["admin"]. split; [reflexivity | left; reflexivity].
Defined.

(** A call with a [null] user, a role name and the scope [' x'] throws:
    the scope name is checked before the user is looked at. *)
Lemma userIsInRole_null_user_bad_scope_throws :
  userIsInRoleAsync (UserVal JS.Null) (One (JS.Str "admin")) (OptionsString " x") emptyStore
  = (Throw (Error "Invalid scope name ' x'."), emptyStore).
Proof. reflexivity. Qed.

(** C10, amended. [userIsInRole] returns [false], raises nothing and
    leaves the store alone when the roles argument, as an array, is empty
    or holds only [null] and [undefined], whatever the other arguments
    are; and also when the user argument is [null] or [undefined] or the
    resolved user id is not a string, provided the scope of the options
    passes the scope check, which runs before the user is looked at. *)
Theorem userIsInRole_degenerate (usr : UserArg) (rolesArg : OneOrMany JS.Val)
    (options : OptionsArg) (st : Store) :
  (forall r, In r (ensureArray rolesArg) -> JS.isNullish r = true)
  \/ (_checkScopeName (opt_scope (_normalizeOptions options)) = Return tt
      /\ (usr = UserVal JS.Null \/ usr = UserVal JS.Undefined
          \/ JS.isString (guardedUserIdOf usr) = false)) ->
  userIsInRoleAsync usr rolesArg options st = (Return false, st).
Proof.
  intros [Hroles | [Hscope Husr]]; unfold userIsInRoleAsync.
  - assert (E : filter (fun r => negb (JS.isNullish r)) (ensureArray rolesArg) = []).
    { induction (ensureArray rolesArg) as [| r l IH]; simpl; auto.
      rewrite (Hroles r) by (simpl; auto). simpl. apply IH.
      intros r' Hr'. apply Hroles. simpl; auto. }
    rewrite E. reflexivity.
  - destruct (Nat.eqb _ 0); [reflexivity |].
    unfold bind, lift. rewrite Hscope.
    destruct Husr as [-> | [-> | Hs]]; try reflexivity.
    destruct (negb (JS.truthy (guardedUserIdOf usr))); [reflexivity |].
    rewrite Hs. reflexivity.
Qed.

Lemma userIsInRole_degenerate_witness :
  userIsInRoleAsync (UserObj (JS.Num 7)) (One (JS.Str "admin")) (OptionsString "s1") adminAssigned
  = (Return false, adminAssigned)
  /\ userIsInRoleAsync (UserVal (JS.Str "u1")) (Many [JS.Null; JS.Undefined])
       (OptionsString " x") adminAssigned
     = (Return false, adminAssigned).
Proof.
  split.
  - apply userIsInRole_degenerate. right. split; [reflexivity |].
    right; right; reflexivity.
  - apply userIsInRole_degenerate. left. simpl.
    intros r [<- | [<- | []]]; reflexivity.
Defined.

(** ** Revocation *)

Lemma matches_byTriple (u : JS.Val) (r : string) (s : option string) (a : Assignment) :
  Mongo.matches (byTriple u r s) a = true <-> user a = u /\ role a = r /\ scope a = s.
Proof.
  unfold Mongo.matches, byTriple. simpl. rewrite andb_true_r.
  rewrite !andb_true_iff, strictEq_eq, String.eqb_eq, scope_eqb_eq. tauto.
Qed.

Lemma matches_byUserRole (u : JS.Val) (r : string) (a : Assignment) :
  Mongo.matches (byUserRole u r) a = true <-> user a = u /\ role a = r.
Proof.
  unfold Mongo.matches, byUserRole. simpl. rewrite !andb_true_r.
  rewrite !andb_true_iff, strictEq_eq, String.eqb_eq. tauto.
Qed.

Lemma checkRoleName_not_empty (n : string) :
  _checkRoleName (JS.Str n) = Return tt -> n <> EmptyString.
Proof.
  unfold _checkRoleName. simpl. intros H ->. simpl in H. discriminate.
Qed.

(** [_removeUserFromRoleAsync] on a truthy user id: when it returns, it
    has removed the assignments its selector matches and nothing else. *)
Lemma removeUserFromRole_eval (u : JS.Val) (r : string) (o : Options) (st st' : Store) :
  JS.truthy u = true ->
  _removeUserFromRoleAsync u r o st = (Return tt, st') ->
  _checkRoleName (JS.Str r) = Return tt
  /\ _checkScopeName (opt_scope o) = Return tt
  /\ st' = mkStore (Meteor_roles st)
             (Mongo.remove
                (Mongo.matches (if negb (anyScope o)
                                then byTriple u r (scopeOf (opt_scope o))
                                else byUserRole u r))
                (Meteor_roleAssignment st))
             (nextId st).
Proof.
  intros Hu. unfold _removeUserFromRoleAsync, bind, lift.
  destruct (_checkRoleName (JS.Str r)) as [[] | e]; [| discriminate].
  destruct (_checkScopeName (opt_scope o)) as [[] | e]; [| discriminate].
  rewrite Hu. simpl negb. cbv iota. unfold roleAssignment_removeAsync, byTriple.
  intros H. inversion H. auto.
Qed.

(** After [addUsersToRoles('u1', 'admin')] and
    [addUsersToRoles('u1', 'admin', 's1')],
    [removeUsersFromRoles('u1', 'admin', {scope: 's1'})] completes and
    removes the scoped assignment, and [userIsInRole('u1', 'admin',
    {scope: 's1'})] still returns [true]: the global assignment remains and
    the query also looks at the global scope. *)
Lemma revoked_in_scope_still_in_role :
  exists st,
    removeUsersFromRolesAsync (One (UserVal (JS.Str "u1"))) (One "admin")
      (OptionsObject (mkOptions (JS.Str "s1") false false false)) adminGlobalAndScoped
    = (Return tt, st)
    /\ countFor adminGlobalAndScoped (JS.Str "u1") "admin" (Some "s1") = 1
    /\ countFor st (JS.Str "u1") "admin" (Some "s1") = 0
    /\ userIsInRoleAsync (UserVal (JS.Str "u1")) (One (JS.Str "admin"))
         (OptionsObject (mkOptions (JS.Str "s1") false false false)) st
       = (Return true, st).
Proof.
  eexists. split; [vm_compute; reflexivity |].
  repeat split; reflexivity.
Qed.

(** C5, amended. After [removeUsersFromRoles(P, R, {scope: S})]
    completes, for a user given by a non-empty string id [P], no assignment
    record with user [P], role [R] and scope [S] remains; and
    [userIsInRole(P, R, {scope: S})] then returns [false] provided that,
    before the call, every assignment of [P] in scope [S] or in the global
    scope that lists [R] in [inheritedRoles] was an assignment of [R] in
    scope [S]. *)
Theorem removeUsersFromRoles_revokes (usr : UserArg) (P R : string) (options : OptionsArg)
    (st st' : Store) :
  guardedUserIdOf usr = JS.Str P -> P <> EmptyString ->
  anyScope (_normalizeOptions options) = false ->
  removeUsersFromRolesAsync (One usr) (One R) options st = (Return tt, st') ->
  let S := scopeOf (opt_scope (_normalizeOptions options)) in
  (forall a, In a (Meteor_roleAssignment st') ->
             ~ (user a = JS.Str P /\ role a = R /\ scope a = S))
  /\ countFor st' (JS.Str P) R S = 0
  /\ ((forall a, In a (Meteor_roleAssignment st) ->
                 user a = JS.Str P -> scope a = S \/ scope a = None ->
                 (exists l, inheritedRoles a = Some l /\ In R l) ->
                 role a = R /\ scope a = S) ->
      userIsInRoleAsync usr (One (JS.Str R)) options st' = (Return false, st')).
Proof.
  intros Hid HP Hany Hrun S.
  assert (HPt : JS.truthy (JS.Str P) = true).
  { simpl. apply String.eqb_neq in HP. now rewrite HP. }
  assert (Htruthy : userTruthy usr = true).
  { destruct usr as [v | i]; simpl in *; [now subst v | reflexivity]. }
  assert (HidOf : userIdOf usr = Return (JS.Str P)).
  { destruct usr as [v | i]; simpl in *; now subst. }
  unfold removeUsersFromRolesAsync in Hrun.
  destruct (negb (usersTruthy (One usr))); [discriminate |].
  destruct (negb (namesTruthy (One R))); [discriminate |].
  simpl ensureArray in Hrun. unfold bind at 1 2, lift at 1 in Hrun.
  destruct (_checkScopeName (opt_scope (_normalizeOptions options))) as [[] | e] eqn:Hscope;
    [| discriminate].
  simpl forOfFlow in Hrun. rewrite Htruthy in Hrun. simpl negb in Hrun. cbv iota in Hrun.
  simpl forOf in Hrun. rewrite HidOf in Hrun.
  unfold bind, lift, ret in Hrun.
  destruct (_removeUserFromRoleAsync (JS.Str P) R (_normalizeOptions options) st)
    as [[[] | e] st1] eqn:Hrem; [| discriminate].
  inversion Hrun; subst st1; clear Hrun.
  apply removeUserFromRole_eval in Hrem; auto.
  destruct Hrem as (HR & _ & Hst'). rewrite Hany in Hst'.
  simpl negb in Hst'. cbv iota in Hst'. fold S in Hst'.
  assert (Hnone : forall a, In a (Meteor_roleAssignment st') ->
                    In a (Meteor_roleAssignment st)
                    /\ ~ (user a = JS.Str P /\ role a = R /\ scope a = S)).
  { intros a Ha. rewrite Hst' in Ha. cbn [Meteor_roleAssignment] in Ha.
    unfold Mongo.remove in Ha.
    apply filter_In in Ha. destruct Ha as [Ha Hm]. split; auto.
    intros Hc. apply matches_byTriple in Hc. rewrite Hc in Hm. discriminate. }
  split; [| split].
  - intros a Ha. now apply Hnone.
  - unfold countFor.
    destruct (filter (Mongo.matches (byTriple (JS.Str P) R S)) (Meteor_roleAssignment st'))
      as [| a l] eqn:E; auto.
    assert (Ha : In a (filter (Mongo.matches (byTriple (JS.Str P) R S))
                         (Meteor_roleAssignment st'))) by (rewrite E; simpl; auto).
    apply filter_In in Ha. destruct Ha as [Ha Hm]. apply matches_byTriple in Hm.
    destruct (Hnone a Ha) as [_ Hn]. contradiction.
  - intros Hsole.
    change (userIsInRoleAsync usr (One (JS.Str R)) options st')
      with (userIsInRoleAsync usr (Many [JS.Str R]) options st').
    rewrite (@userIsInRole_eval usr options P [JS.Str R] st' Hid HP Hscope)
      by (simpl; discriminate).
    f_equal. f_equal. cbn [filter JS.isNullish negb existsb]. rewrite orb_false_r.
    destruct (existsb _ (Meteor_roleAssignment st')) eqn:E; auto.
    apply existsb_exists in E. destruct E as (a & Ha & Hm).
    apply matches_userIsInRole in Hm. destruct Hm as (Hu & Hs & Hg).
    rewrite Hany in Hs. destruct Hs as [Hs | Hs]; [discriminate |].
    destruct (Hnone a Ha) as [Hin Hn].
    destruct (Hsole a Hin Hu Hs Hg) as [Hr Hsc]. exfalso. apply Hn. auto.
Qed.

Lemma removeUsersFromRoles_revokes_witness :
  let st' := snd (removeUsersFromRolesAsync (One (UserVal (JS.Str "u1"))) (One "admin")
                    OptionsUndefined adminAssigned) in
  countFor st' (JS.Str "u1") "admin" None = 0
  /\ userIsInRoleAsync (UserVal (JS.Str "u1")) (One (JS.Str "admin")) OptionsUndefined st'
     = (Return false, st').
Proof.
  cbv zeta.
  destruct (@removeUsersFromRoles_revokes (UserVal (JS.Str "u1")) "u1" "admin"
              OptionsUndefined adminAssigned
              (snd (removeUsersFromRolesAsync (One (UserVal (JS.Str "u1"))) (One "admin")
                      OptionsUndefined adminAssigned)))
    as (_ & Hcount & Hquery).
  - reflexivity.
  - discriminate.
  - reflexivity.
  - vm_compute. reflexivity.
  - split; [exact Hcount |]. apply Hquery.
    intros a Ha _ _ _. vm_compute in Ha. destruct Ha as [<- | []]. split; reflexivity.
Defined.

(** ** Updates of a collection *)

Lemma update_unchanged {D : Type} (sel : D -> bool) (f : D -> D) (multi : bool) (docs : list D) :
  (forall d, In d docs -> sel d = true -> f d = d) ->
  fst (Mongo.update sel f multi docs) = docs.
Proof.
  induction docs as [| d docs IH]; simpl; intros H; auto.
  destruct (sel d) eqn:E.
  - destruct multi.
    + destruct (Mongo.update sel f true docs) as [rest n] eqn:U. simpl in *.
      rewrite H by auto. f_equal. apply IH. intros; apply H; auto.
    + simpl. rewrite H by auto. reflexivity.
  - destruct (Mongo.update sel f multi docs) as [rest n] eqn:U. simpl in *.
    f_equal. apply IH. intros; apply H; auto.
Qed.

Lemma update_keeps_key {D K : Type} (key : D -> K) (sel : D -> bool) (f : D -> D)
    (multi : bool) (docs : list D) :
  (forall d, key (f d) = key d) ->
  map key (fst (Mongo.update sel f multi docs)) = map key docs.
Proof.
  intros Hk. induction docs as [| d docs IH]; simpl; auto.
  destruct (sel d).
  - destruct multi.
    + destruct (Mongo.update sel f true docs) as [rest n]. simpl in *.
      now rewrite Hk, IH.
    + simpl. now rewrite Hk.
  - destruct (Mongo.update sel f multi docs) as [rest n]. simpl in *.
    now rewrite IH.
Qed.

Lemma update_last {D : Type} (sel : D -> bool) (f : D -> D) (docs : list D) (x : D) :
  (forall d, In d docs -> sel d = false) -> sel x = true ->
  Mongo.update sel f false (docs ++ [x]) = (docs ++ [f x], 1).
Proof.
  intros Hno Hx. induction docs as [| d docs IH]; simpl.
  - now rewrite Hx.
  - rewrite (Hno d) by (simpl; auto). rewrite IH; auto.
    intros; apply Hno; simpl; auto.
Qed.

Lemma find_last {D : Type} (sel : D -> bool) (docs : list D) (x : D) :
  (forall d, In d docs -> sel d = false) -> sel x = true ->
  find sel (docs ++ [x]) = Some x.
Proof.
  intros Hno Hx. induction docs as [| d docs IH]; simpl.
  - now rewrite Hx.
  - rewrite (Hno d) by (simpl; auto). apply IH. intros; apply Hno; simpl; auto.
Qed.

Lemma find_unique {D : Type} (sel : D -> bool) (docs : list D) (x : D) :
  In x docs -> sel x = true ->
  (forall d, In d docs -> sel d = true -> d = x) ->
  find sel docs = Some x.
Proof.
  intros Hin Hx Huniq. destruct (find sel docs) as [d |] eqn:E.
  - apply find_some in E. destruct E as [Hd Hs]. f_equal. now apply Huniq.
  - apply (find_none _ _ E) in Hin. congruence.
Qed.

Lemma matches_byId (id : nat) (a : Assignment) :
  Mongo.matches (byId id) a = true <-> a_id a = id.
Proof.
  unfold Mongo.matches, byId. simpl. rewrite !andb_true_r. apply Nat.eqb_eq.
Qed.

Lemma same_id_same_doc (docs : list Assignment) (d e : Assignment) :
  NoDup (map a_id docs) -> In d docs -> In e docs -> a_id d = a_id e -> d = e.
Proof.
  induction docs as [| x docs IH]; simpl; intros Hnd Hd He Hid; [contradiction |].
  inversion Hnd as [| ? ? Hnot Hnd']; subst.
  destruct Hd as [-> | Hd], He as [-> | He]; auto.
  - exfalso. apply Hnot. rewrite Hid. now apply in_map.
  - exfalso. apply Hnot. rewrite <- Hid. now apply in_map.
Qed.

Lemma applyModifier_keeps_id (q : Mongo.Selector) (m : Mongo.Modifier) (a : Assignment) :
  a_id (Mongo.applyModifier q m a) = a_id a.
Proof.
  destruct m; simpl; auto.
  destruct (Mongo.q_inheritedRoles_id q) as [[| | | |] |]; auto.
  destruct (inheritedRoles a); auto.
Qed.

(** ** Granting a role *)

Lemma wfStore_insert (st : Store) (u : JS.Val) (r : string) (s : option string)
    (inh : option (list string)) :
  wfStore st ->
  wfStore (mkStore (Meteor_roles st)
             (Meteor_roleAssignment st ++ [mkAssignment (nextId st) u r s inh])
             (S (nextId st))).
Proof.
  intros [Hnd Hlt]. split; simpl.
  - rewrite map_app. simpl. apply NoDup_app; auto.
    + repeat constructor. simpl. tauto.
    + intros n Hn [<- | []]. apply in_map_iff in Hn. destruct Hn as (a & E & Ha).
      apply Hlt in Ha. lia.
  - intros a Ha. apply in_app_or in Ha. destruct Ha as [Ha | [<- | []]]; simpl.
    + apply Hlt in Ha. lia.
    + lia.
Qed.

(** Overwriting an assignment with the user, role and scope it already
    has changes nothing. *)
Lemma overwrite_existing (st : Store) (ex : Assignment) (u : JS.Val) (r : string)
    (s : option string) :
  wfStore st -> In ex (Meteor_roleAssignment st) ->
  user ex = u -> role ex = r -> scope ex = s ->
  exists n,
    roleAssignment_updateAsync (byId (a_id ex)) (Mongo.SetUserRoleScope u r s) false st
    = (Return n, st).
Proof.
  intros [Hnd _] Hin Hu Hr Hs. unfold roleAssignment_updateAsync.
  destruct (Mongo.update _ _ false (Meteor_roleAssignment st)) as [docs n] eqn:U.
  exists n. f_equal.
  assert (E : docs = Meteor_roleAssignment st).
  { change docs with (fst (docs, n)). rewrite <- U. apply update_unchanged.
    intros d Hd Hm. apply matches_byId in Hm.
    assert (d = ex) by (eapply same_id_same_doc; eauto). subst d.
    destruct ex; simpl in *; subst; reflexivity. }
  rewrite E. destruct st; reflexivity.
Qed.

Lemma findOne_byId (st : Store) (ex : Assignment) :
  wfStore st -> In ex (Meteor_roleAssignment st) ->
  roleAssignment_findOneAsync (byId (a_id ex)) st = (Return (Some ex), st).
Proof.
  intros [Hnd _] Hin. unfold roleAssignment_findOneAsync. f_equal. f_equal.
  apply find_unique; auto.
  - now apply matches_byId.
  - intros d Hd Hm. apply matches_byId in Hm. eapply same_id_same_doc; eauto.
Qed.

(** Setting [inheritedRoles] on the assignment just inserted. *)
Lemma set_inherited_on_inserted (st : Store) (u : JS.Val) (r : string) (s : option string)
    (l : list string) :
  wfStore st ->
  roleAssignment_updateAsync (byId (nextId st)) (Mongo.SetInheritedRoles l) false
    (mkStore (Meteor_roles st)
       (Meteor_roleAssignment st ++ [mkAssignment (nextId st) u r s None])
       (S (nextId st)))
  = (Return 1,
     mkStore (Meteor_roles st)
       (Meteor_roleAssignment st ++ [mkAssignment (nextId st) u r s (Some l)])
       (S (nextId st))).
Proof.
  intros [_ Hlt]. unfold roleAssignment_updateAsync. cbn [Meteor_roleAssignment].
  rewrite update_last.
  - reflexivity.
  - intros d Hd. destruct (Mongo.matches (byId (nextId st)) d) eqn:E; auto.
    apply matches_byId in E. apply Hlt in Hd. lia.
  - now apply matches_byId.
Qed.

Lemma addUserToRoleAsync_existing (u : JS.Val) (r : string) (o : Options) (st : Store)
    (rd : RoleDoc) (ex : Assignment) :
  wfStore st -> JS.truthy u = true ->
  _checkRoleName (JS.Str r) = Return tt -> _checkScopeName (opt_scope o) = Return tt ->
  find (Mongo.matchesRole (roleById r)) (Meteor_roles st) = Some rd ->
  find (Mongo.matches (byTriple u r (scopeOf (opt_scope o)))) (Meteor_roleAssignment st)
  = Some ex ->
  _addUserToRoleAsync u r o st = (Return (ResDoc (Some ex)), st).
Proof.
  intros Hwf Hu Hr Hs Hrole Hex.
  pose proof (find_some _ _ Hex) as [Hin Hm]. apply matches_byTriple in Hm.
  destruct Hm as (Eu & Er & Es).
  destruct (overwrite_existing st ex u r _ Hwf Hin Eu Er Es) as [n Hup].
  unfold _addUserToRoleAsync, bind, lift. rewrite Hr, Hs, Hu. cbn [negb]. cbv beta iota.
  unfold roles_findOneAsync. rewrite Hrole.
  unfold roleAssignment_findOneAsync at 1. fold (byTriple u r (scopeOf (opt_scope o))).
  rewrite Hex. rewrite Hup. rewrite (findOne_byId st ex Hwf Hin). reflexivity.
Qed.

Lemma addUserToRoleAsync_fresh (u : JS.Val) (r : string) (o : Options) (st : Store)
    (rd : RoleDoc) :
  wfStore st -> JS.truthy u = true ->
  _checkRoleName (JS.Str r) = Return tt -> _checkScopeName (opt_scope o) = Return tt ->
  find (Mongo.matchesRole (roleById r)) (Meteor_roles st) = Some rd ->
  find (Mongo.matches (byTriple u r (scopeOf (opt_scope o)))) (Meteor_roleAssignment st)
  = None ->
  _addUserToRoleAsync u r o st
  = (Return (ResDoc (Some (mkAssignment (nextId st) u r (scopeOf (opt_scope o)) (Some [r])))),
     granted st u r (scopeOf (opt_scope o)) [r]).
Proof.
  intros Hwf Hu Hr Hs Hrole Hex.
  unfold _addUserToRoleAsync, bind, lift. rewrite Hr, Hs, Hu. cbn [negb]. cbv beta iota.
  unfold roles_findOneAsync. rewrite Hrole.
  unfold roleAssignment_findOneAsync at 1. fold (byTriple u r (scopeOf (opt_scope o))).
  rewrite Hex. unfold roleAssignment_insertAsync, ret. cbn [fst snd].
  rewrite getInheritedRoleNames_empty.
  rewrite set_inherited_on_inserted by assumption.
  fold (granted st u r (scopeOf (opt_scope o)) [r]).
  pose proof (wfStore_insert st u r (scopeOf (opt_scope o)) (Some [r]) Hwf) as Hwf'.
  fold (granted st u r (scopeOf (opt_scope o)) [r]) in Hwf'.
  change (nextId st)
    with (a_id (mkAssignment (nextId st) u r (scopeOf (opt_scope o)) (Some [r]))) at 1.
  rewrite (findOne_byId _ _ Hwf').
  - reflexivity.
  - unfold granted. cbn [Meteor_roleAssignment]. apply in_or_app. right. simpl; auto.
Qed.

Lemma find_none_filter {D : Type} (sel : D -> bool) (docs : list D) :
  find sel docs = None -> filter sel docs = [].
Proof.
  induction docs as [| d docs IH]; simpl; auto.
  destruct (sel d); [discriminate | auto].
Qed.

Lemma find_some_filter {D : Type} (sel : D -> bool) (docs : list D) (x : D) :
  find sel docs = Some x -> 1 <= List.length (filter sel docs).
Proof.
  induction docs as [| d docs IH]; simpl; [discriminate |].
  destruct (sel d); simpl; [lia | auto].
Qed.

Lemma countFor_granted (st : Store) (u u' : JS.Val) (r r' : string) (s s' : option string)
    (l : list string) :
  countFor (granted st u r s l) u' r' s'
  = countFor st u' r' s'
    + (if Mongo.matches (byTriple u' r' s') (mkAssignment (nextId st) u r s (Some l))
       then 1 else 0).
Proof.
  unfold countFor, granted. cbn [Meteor_roleAssignment].
  rewrite filter_app, length_app. f_equal. cbn [filter].
  destruct (Mongo.matches _ _); reflexivity.
Qed.

Lemma matches_own_triple (id : nat) (u : JS.Val) (r : string) (s : option string)
    (inh : option (list string)) :
  Mongo.matches (byTriple u r s) (mkAssignment id u r s inh) = true.
Proof. apply matches_byTriple. simpl. auto. Qed.

(** What a returning [_addUserToRoleAsync] has done: nothing, or one
    insert. *)
Lemma addUserToRoleAsync_cases (u : JS.Val) (r : string) (o : Options) (st st1 : Store)
    (res : AddResult) :
  wfStore st ->
  _addUserToRoleAsync u r o st = (Return res, st1) ->
  _checkRoleName (JS.Str r) = Return tt
  /\ _checkScopeName (opt_scope o) = Return tt
  /\ ((st1 = st
       /\ (JS.truthy u = false
           \/ find (Mongo.matchesRole (roleById r)) (Meteor_roles st) = None
           \/ exists ex,
                find (Mongo.matches (byTriple u r (scopeOf (opt_scope o))))
                  (Meteor_roleAssignment st) = Some ex))
      \/ (st1 = granted st u r (scopeOf (opt_scope o)) [r]
          /\ JS.truthy u = true
          /\ find (Mongo.matchesRole (roleById r)) (Meteor_roles st) <> None
          /\ find (Mongo.matches (byTriple u r (scopeOf (opt_scope o))))
               (Meteor_roleAssignment st) = None)).
Proof.
  intros Hwf Hrun.
  destruct (_checkRoleName (JS.Str r)) as [[] | e] eqn:Hr.
  2:{ unfold _addUserToRoleAsync, bind, lift in Hrun. rewrite Hr in Hrun. discriminate. }
  destruct (_checkScopeName (opt_scope o)) as [[] | e] eqn:Hs.
  2:{ unfold _addUserToRoleAsync, bind, lift in Hrun. rewrite Hr, Hs in Hrun. discriminate. }
  split; [reflexivity |]. split; [reflexivity |].
  destruct (JS.truthy u) eqn:Hu.
  2:{ unfold _addUserToRoleAsync, bind, lift in Hrun. rewrite Hr, Hs, Hu in Hrun.
      cbn [negb] in Hrun. unfold ret in Hrun. inversion Hrun. left. auto. }
  destruct (find (Mongo.matchesRole (roleById r)) (Meteor_roles st)) as [rd |] eqn:Hrole.
  2:{ unfold _addUserToRoleAsync, bind, lift in Hrun. rewrite Hr, Hs, Hu in Hrun.
      cbn [negb] in Hrun. cbv beta iota in Hrun. unfold roles_findOneAsync in Hrun.
      rewrite Hrole in Hrun. destruct (ifExists o); [| discriminate].
      unfold ret in Hrun. inversion Hrun. left. auto. }
  destruct (find (Mongo.matches (byTriple u r (scopeOf (opt_scope o))))
              (Meteor_roleAssignment st)) as [ex |] eqn:Hex.
  - rewrite (addUserToRoleAsync_existing u r o st rd ex) in Hrun by assumption.
    inversion Hrun. left. split; auto. right. right. now exists ex.
  - rewrite (addUserToRoleAsync_fresh u r o st rd) in Hrun by assumption.
    inversion Hrun. right. repeat split; auto. discriminate.
Qed.

(** ** Granting twice *)

(** C7. On a store whose assignment ids are unique, once
    [_addUserToRoleAsync(P, R, options)] has returned, a second call with
    the same arguments returns too and leaves the store exactly as the
    first call left it, so every membership query answers the same after
    two calls as after one; and when the user id is truthy and the role
    exists, the second call finds an assignment of the user, role and scope
    and returns it, inserting nothing: there are as many records of the
    triple after the second call as after the first, at least one. *)
Theorem addUserToRole_twice (u : JS.Val) (r : string) (o : Options) (st st1 : Store)
    (res : AddResult) :
  wfStore st ->
  _addUserToRoleAsync u r o st = (Return res, st1) ->
  let s := scopeOf (opt_scope o) in
  wfStore st1
  /\ (exists res', _addUserToRoleAsync u r o st1 = (Return res', st1))
  /\ (forall usr rs opts,
        userIsInRoleAsync usr rs opts (snd (_addUserToRoleAsync u r o st1))
        = userIsInRoleAsync usr rs opts st1)
  /\ (JS.truthy u = true ->
      find (Mongo.matchesRole (roleById r)) (Meteor_roles st) <> None ->
      1 <= countFor st1 u r s
      /\ countFor (snd (_addUserToRoleAsync u r o st1)) u r s = countFor st1 u r s
      /\ exists ex,
           _addUserToRoleAsync u r o st1 = (Return (ResDoc (Some ex)), st1)
           /\ In ex (Meteor_roleAssignment st1)
           /\ user ex = u /\ role ex = r /\ scope ex = s).
Proof.
  intros Hwf Hrun s.
  destruct (addUserToRoleAsync_cases u r o st st1 res Hwf Hrun) as (Hr & Hs & Hcases).
  assert (Hwf1 : wfStore st1).
  { destruct Hcases as [[-> _] | [-> _]]; auto. now apply wfStore_insert. }
  assert (Hroles : Meteor_roles st1 = Meteor_roles st).
  { destruct Hcases as [[-> _] | [-> _]]; auto. }
  assert (Hsecond : (JS.truthy u = false
                     \/ find (Mongo.matchesRole (roleById r)) (Meteor_roles st) = None)
                    \/ exists ex,
                         find (Mongo.matches (byTriple u r s)) (Meteor_roleAssignment st1)
                         = Some ex).
  { destruct Hcases as [[-> [Hu | [Hn | Hex]]] | (-> & Hu & Hrole & Hnone)]; auto.
    right. eexists. unfold granted. cbn [Meteor_roleAssignment]. apply find_last.
    - intros d Hd. apply (find_none _ _ Hnone d Hd).
    - apply matches_own_triple. }
  assert (Hagain : exists res', _addUserToRoleAsync u r o st1 = (Return res', st1)).
  { destruct Hsecond as [[Hu | Hn] | [ex Hex]].
    - exists ResUndefined. unfold _addUserToRoleAsync, bind, lift.
      rewrite Hr, Hs, Hu. reflexivity.
    - destruct (JS.truthy u) eqn:Hu.
      + unfold _addUserToRoleAsync, bind, lift in *. rewrite Hr, Hs, Hu in *.
        cbn [negb] in *. cbv beta iota in *. unfold roles_findOneAsync in *.
        rewrite Hroles. rewrite Hn in *.
        destruct (ifExists o); [| discriminate]. now exists ResEmptyArray.
      + exists ResUndefined. unfold _addUserToRoleAsync, bind, lift.
        rewrite Hr, Hs, Hu. reflexivity.
    - destruct (JS.truthy u) eqn:Hu.
      + destruct (find (Mongo.matchesRole (roleById r)) (Meteor_roles st)) as [rd |] eqn:Hn.
        * exists (ResDoc (Some ex)). apply addUserToRoleAsync_existing with (rd := rd); auto.
          now rewrite Hroles.
        * unfold _addUserToRoleAsync, bind, lift in *. rewrite Hr, Hs, Hu in *.
          cbn [negb] in *. cbv beta iota in *. unfold roles_findOneAsync in *.
          rewrite Hroles. rewrite Hn in *.
          destruct (ifExists o); [| discriminate]. now exists ResEmptyArray.
      + exists ResUndefined. unfold _addUserToRoleAsync, bind, lift.
        rewrite Hr, Hs, Hu. reflexivity. }
  split; [exact Hwf1 |]. split; [exact Hagain |]. split.
  - intros usr rs opts. destruct Hagain as [res' ->]. reflexivity.
  - intros Hu Hrole.
    destruct Hsecond as [[Hu' | Hn] | [ex Hex]]; [congruence | congruence |].
    destruct (find (Mongo.matchesRole (roleById r)) (Meteor_roles st)) as [rd |] eqn:Hn;
      [| congruence].
    assert (Hex' : _addUserToRoleAsync u r o st1 = (Return (ResDoc (Some ex)), st1)).
    { apply addUserToRoleAsync_existing with (rd := rd); auto. now rewrite Hroles. }
    split; [| split].
    + unfold countFor. eapply find_some_filter. exact Hex.
    + rewrite Hex'. reflexivity.
    + exists ex. split; [exact Hex' |].
      apply find_some in Hex. destruct Hex as [Hin Hm].
      apply matches_byTriple in Hm. tauto.
Qed.

Lemma addUserToRole_twice_witness :
  exists res',
    _addUserToRoleAsync (JS.Str "u1") "admin" (_normalizeOptions OptionsUndefined) adminAssigned
    = (Return res', adminAssigned).
Proof.
  destruct (addUserToRole_twice (JS.Str "u1") "admin" (_normalizeOptions OptionsUndefined)
              adminOverEditor adminAssigned
              (ResDoc (Some (mkAssignment 1 (JS.Str "u1") "admin" None (Some ["admin"])))))
    as (_ & Hagain & _).
  - split; [constructor | intros a []].
  - reflexivity.
  - exact Hagain.
Defined.

(** ** Replacing the roles of a user *)

Lemma addUserToRole_existing (u : JS.Val) (r : string) (o : Options) (st : Store)
    (rd : RoleDoc) (ex : Assignment) :
  wfStore st -> JS.truthy u = true ->
  _checkRoleName (JS.Str r) = Return tt -> _checkScopeName (opt_scope o) = Return tt ->
  find (Mongo.matchesRole (roleById r)) (Meteor_roles st) = Some rd ->
  find (Mongo.matches (byTriple u r (scopeOf (opt_scope o)))) (Meteor_roleAssignment st)
  = Some ex ->
  _addUserToRole u r o st = (Return (ResDoc (Some ex)), st).
Proof.
  intros Hwf Hu Hr Hs Hrole Hex.
  pose proof (find_some _ _ Hex) as [Hin Hm]. apply matches_byTriple in Hm.
  destruct Hm as (Eu & Er & Es).
  destruct (overwrite_existing st ex u r _ Hwf Hin Eu Er Es) as [n Hup].
  unfold _addUserToRole, bind, lift. rewrite Hr, Hs.
  unfold roles_findOneAsync. rewrite Hrole.
  unfold roleAssignment_findOneAsync at 1. fold (byTriple u r (scopeOf (opt_scope o))).
  rewrite Hex. rewrite Hup. reflexivity.
Qed.

Lemma addUserToRole_fresh (u : JS.Val) (r : string) (o : Options) (st : Store)
    (rd : RoleDoc) :
  wfStore st -> JS.truthy u = true ->
  _checkRoleName (JS.Str r) = Return tt -> _checkScopeName (opt_scope o) = Return tt ->
  find (Mongo.matchesRole (roleById r)) (Meteor_roles st) = Some rd ->
  find (Mongo.matches (byTriple u r (scopeOf (opt_scope o)))) (Meteor_roleAssignment st)
  = None ->
  exists l,
    _addUserToRole u r o st
    = (Return (ResDoc (Some (mkAssignment (nextId st) u r (scopeOf (opt_scope o)) (Some l)))),
       granted st u r (scopeOf (opt_scope o)) l).
Proof.
  intros Hwf Hu Hr Hs Hrole Hex. eexists.
  unfold _addUserToRole, bind, lift. rewrite Hr, Hs.
  unfold roles_findOneAsync. rewrite Hrole.
  unfold roleAssignment_findOneAsync at 1. fold (byTriple u r (scopeOf (opt_scope o))).
  rewrite Hex. unfold roleAssignment_insertAsync, ret.
  rewrite set_inherited_on_inserted by assumption.
  match goal with
  | |- context [mkAssignment (nextId st) u r _ (Some ?l)] =>
      fold (granted st u r (scopeOf (opt_scope o)) l);
      pose proof (wfStore_insert st u r (scopeOf (opt_scope o)) (Some l) Hwf) as Hwf';
      fold (granted st u r (scopeOf (opt_scope o)) l) in Hwf';
      change (nextId st)
        with (a_id (mkAssignment (nextId st) u r (scopeOf (opt_scope o)) (Some l))) at 1;
      rewrite (findOne_byId _ _ Hwf');
      [reflexivity
      | unfold granted; cbn [Meteor_roleAssignment]; apply in_or_app; right; simpl; auto]
  end.
Qed.

Lemma matches_byUser (u : JS.Val) (a : Assignment) :
  Mongo.matches (byUser u) a = true <-> user a = u.
Proof.
  unfold Mongo.matches, byUser. simpl. rewrite !andb_true_r. apply strictEq_eq.
Qed.

Lemma matches_byUser_scope (u : JS.Val) (s : option string) (a : Assignment) :
  Mongo.matches (withScope (Mongo.ScopeIs s) (byUser u)) a = true
  <-> user a = u /\ scope a = s.
Proof.
  unfold Mongo.matches, withScope, byUser. simpl. rewrite !andb_true_r.
  rewrite andb_true_iff, strictEq_eq, scope_eqb_eq. tauto.
Qed.

Lemma NoDup_map_filter {D K : Type} (key : D -> K) (p : D -> bool) (docs : list D) :
  NoDup (map key docs) -> NoDup (map key (filter p docs)).
Proof.
  induction docs as [| d docs IH]; simpl; intros H; auto.
  inversion H as [| ? ? Hnot Hnd]; subst.
  destruct (p d); simpl; auto. constructor; auto.
  intros Hin. apply Hnot. apply in_map_iff in Hin. destruct Hin as (x & E & Hx).
  apply filter_In in Hx. rewrite <- E. apply in_map. tauto.
Qed.

Lemma wfStore_remove (st : Store) (q : Mongo.Selector) :
  wfStore st ->
  wfStore (mkStore (Meteor_roles st)
             (Mongo.remove (Mongo.matches q) (Meteor_roleAssignment st)) (nextId st)).
Proof.
  intros [Hnd Hlt]. split; simpl.
  - now apply NoDup_map_filter.
  - intros a Ha. apply filter_In in Ha. apply Hlt. tauto.
Qed.

(** One grant of the helper [setUserRolesAsync] calls, on a truthy user
    id and a role that exists: it returns, and the only record it can add
    is one of the user, role and scope, when there was none. *)
Lemma addUserToRole_step (u : JS.Val) (r : string) (o : Options) (st : Store) :
  wfStore st -> JS.truthy u = true ->
  _checkRoleName (JS.Str r) = Return tt -> _checkScopeName (opt_scope o) = Return tt ->
  find (Mongo.matchesRole (roleById r)) (Meteor_roles st) <> None ->
  let s := scopeOf (opt_scope o) in
  exists res st1,
    _addUserToRole u r o st = (Return res, st1)
    /\ wfStore st1
    /\ Meteor_roles st1 = Meteor_roles st
    /\ (forall r', countFor st1 u r' s
                   = if String.eqb r' r then Nat.max 1 (countFor st u r s)
                     else countFor st u r' s)
    /\ (forall a, In a (Meteor_roleAssignment st1) ->
                  In a (Meteor_roleAssignment st)
                  \/ (user a = u /\ role a = r /\ scope a = s))
    /\ (forall a, In a (Meteor_roleAssignment st) -> In a (Meteor_roleAssignment st1)).
Proof.
  intros Hwf Hu Hr Hs Hrole s.
  destruct (find (Mongo.matchesRole (roleById r)) (Meteor_roles st)) as [rd |] eqn:Hrd;
    [| congruence].
  destruct (find (Mongo.matches (byTriple u r s)) (Meteor_roleAssignment st))
    as [ex |] eqn:Hex.
  - exists (ResDoc (Some ex)), st. split.
    + now apply addUserToRole_existing with (rd := rd).
    + split; [exact Hwf |]. split; [reflexivity |]. split; [| split; auto].
      intros r'. destruct (String.eqb r' r) eqn:E; auto.
      apply String.eqb_eq in E. subst r'.
      pose proof (find_some_filter _ _ _ Hex) as Hge. unfold countFor. lia.
  - destruct (addUserToRole_fresh u r o st rd Hwf Hu Hr Hs Hrd Hex) as [l Hrun].
    fold s in Hrun. eexists. eexists. split; [exact Hrun |].
    split; [now apply wfStore_insert |]. split; [reflexivity |]. split; [| split].
    + intros r'. rewrite countFor_granted.
      destruct (String.eqb r' r) eqn:E.
      * apply String.eqb_eq in E. subst r'. rewrite matches_own_triple.
        unfold countFor. rewrite (find_none_filter _ _ Hex). reflexivity.
      * destruct (Mongo.matches _ _) eqn:M; [| lia].
        apply matches_byTriple in M. simpl in M. destruct M as (_ & M & _).
        apply String.eqb_neq in E. congruence.
    + intros a Ha. unfold granted in Ha. cbn [Meteor_roleAssignment] in Ha.
      apply in_app_or in Ha. destruct Ha as [Ha | [<- | []]]; auto.
    + intros a Ha. unfold granted. cbn [Meteor_roleAssignment]. apply in_or_app. auto.
Qed.

(** The loop of [setUserRolesAsync] over the requested roles. *)
Lemma setUserRoles_loop (u : JS.Val) (o : Options) (names : list string) :
  JS.truthy u = true -> _checkScopeName (opt_scope o) = Return tt ->
  let s := scopeOf (opt_scope o) in
  forall st,
    wfStore st ->
    (forall n, In n names ->
               _checkRoleName (JS.Str n) = Return tt
               /\ find (Mongo.matchesRole (roleById n)) (Meteor_roles st) <> None) ->
    exists st1,
      forOf names (fun role => _addUserToRole u role o ;; ret tt) st = (Return tt, st1)
      /\ (forall r, countFor st1 u r s
                    = if memStr r names then Nat.max 1 (countFor st u r s)
                      else countFor st u r s)
      /\ (forall a, In a (Meteor_roleAssignment st1) ->
                    In a (Meteor_roleAssignment st)
                    \/ (user a = u /\ In (role a) names /\ scope a = s))
      /\ (forall a, In a (Meteor_roleAssignment st) -> In a (Meteor_roleAssignment st1)).
Proof.
  intros Hu Hs s. induction names as [| n names IH]; intros st Hwf Hnames.
  - exists st. simpl. repeat split; auto.
  - destruct (Hnames n (or_introl eq_refl)) as [Hn Hrole].
    destruct (addUserToRole_step u n o st Hwf Hu Hn Hs Hrole)
      as (res & st1 & Hrun & Hwf1 & Hroles1 & Hcount1 & Hin1 & Hkeep1).
    destruct (IH st1 Hwf1) as (st2 & Hrun2 & Hcount2 & Hin2 & Hkeep2).
    { intros m Hm. rewrite Hroles1. apply Hnames. simpl; auto. }
    exists st2. split; [| split; [| split]].
    + simpl. unfold bind at 1 2. rewrite Hrun. unfold ret at 1. exact Hrun2.
    + intros r. rewrite Hcount2. fold s in Hcount1. rewrite !Hcount1.
      unfold memStr. cbn [existsb]. fold (memStr r names).
      destruct (String.eqb r n) eqn:E.
      * apply String.eqb_eq in E. subst r.
        cbn [orb]. destruct (memStr n names); lia.
      * cbn [orb]. reflexivity.
    + intros a Ha. destruct (Hin2 a Ha) as [Ha1 | (Eu & Er & Es)].
      * destruct (Hin1 a Ha1) as [Ha0 | (Eu & Er & Es)]; auto.
        right. repeat split; auto. simpl; auto.
      * right. repeat split; auto. simpl; auto.
    + intros a Ha. apply Hkeep2, Hkeep1, Ha.
Qed.

Lemma matches_assignmentsToReplace (u : JS.Val) (o : Options) (a : Assignment) :
  Mongo.matches (assignmentsToReplace u o) a = true
  <-> user a = u /\ (anyScope o = true \/ scope a = scopeOf (opt_scope o)).
Proof.
  unfold assignmentsToReplace. destruct (anyScope o); cbn [negb].
  - rewrite matches_byUser. tauto.
  - rewrite matches_byUser_scope. split; [tauto |].
    intros [Hu [Hf | Hs]]; [discriminate | tauto].
Qed.

(** A requested role that does not exist. [u1] holds [admin] globally;
    [setUserRoles('u1', ['ghost'], {ifExists: true})] returns and leaves
    [u1] without any assignment, and without [ifExists] the call throws,
    after the removal, which is not undone: in neither case does [u1] hold
    the requested role. *)
Lemma setUserRoles_missing_role_only_removes :
  In (mkAssignment 1 (JS.Str "u1") "admin" None (Some ["admin"]))
    (Meteor_roleAssignment adminAssigned)
  /\ setUserRolesAsync _addUserToRole (One (UserVal (JS.Str "u1"))) (Many ["ghost"])
       (OptionsObject (mkOptions JS.Null false true false)) adminAssigned
     = (Return tt, mkStore (Meteor_roles adminAssigned) [] (nextId adminAssigned))
  /\ setUserRolesAsync _addUserToRole (One (UserVal (JS.Str "u1"))) (Many ["ghost"])
       OptionsUndefined adminAssigned
     = (Throw (Error "Role 'ghost' does not exist."),
        mkStore (Meteor_roles adminAssigned) [] (nextId adminAssigned)).
Proof.
  split; [left; reflexivity |]. split; vm_compute; reflexivity.
Qed.

(** C6, amended. For a user with a truthy id, requested role names that
    are valid and exist, and a scope that passes the scope check, on a
    store whose assignment ids are unique: [setUserRoles] returns; its
    result is that of removing every assignment of the user in the
    requested scope, or every assignment of the user when [anyScope] is
    set, and then running the add-user-to-role operation on each requested
    role in order; the store then holds one assignment of the user and
    scope for each requested role and none for any other role, no
    assignment of the user in another scope when [anyScope] is set, and
    every assignment the removal did not match. *)
Theorem setUserRoles_replaces (usr : UserArg) (u : JS.Val) (names : list string)
    (options : OptionsArg) (st : Store) :
  userIdOf usr = Return u -> JS.truthy u = true -> wfStore st ->
  _checkScopeName (opt_scope (_normalizeOptions options)) = Return tt ->
  (forall n, In n names ->
             _checkRoleName (JS.Str n) = Return tt
             /\ find (Mongo.matchesRole (roleById n)) (Meteor_roles st) <> None) ->
  let o := _normalizeOptions options in
  let s := scopeOf (opt_scope o) in
  exists st',
    setUserRolesAsync _addUserToRole (One usr) (Many names) options st = (Return tt, st')
    /\ forOf names (fun role => _addUserToRole u role o ;; ret tt) (cleared st u o)
       = (Return tt, st')
    /\ (forall r, countFor st' u r s = if memStr r names then 1 else 0)
    /\ (forall a, In a (Meteor_roleAssignment st') -> user a = u ->
                  anyScope o = true \/ scope a = s ->
                  scope a = s /\ In (role a) names)
    /\ (forall a, In a (Meteor_roleAssignment st) ->
                  Mongo.matches (assignmentsToReplace u o) a = false ->
                  In a (Meteor_roleAssignment st')).
Proof.
  intros Hid Hu Hwf Hscope Hnames o s.
  assert (Hcleared : forall a, In a (Meteor_roleAssignment (cleared st u o)) ->
                       In a (Meteor_roleAssignment st)
                       /\ Mongo.matches (assignmentsToReplace u o) a = false).
  { intros a Ha. unfold cleared in Ha. cbn [Meteor_roleAssignment] in Ha.
    apply filter_In in Ha. destruct Ha as [Ha Hm]. split; auto.
    now apply negb_true_iff. }
  assert (Hzero : forall r, countFor (cleared st u o) u r s = 0).
  { intros r. unfold countFor.
    destruct (filter _ (Meteor_roleAssignment (cleared st u o))) as [| a l] eqn:E; auto.
    assert (Ha : In a (filter (Mongo.matches (byTriple u r s))
                         (Meteor_roleAssignment (cleared st u o))))
      by (rewrite E; simpl; auto).
    apply filter_In in Ha. destruct Ha as [Ha Hm]. apply matches_byTriple in Hm.
    destruct (Hcleared a Ha) as [_ Hno].
    assert (Hyes : Mongo.matches (assignmentsToReplace u o) a = true).
    { apply matches_assignmentsToReplace. split; [tauto |]. right. tauto. }
    congruence. }
  destruct (setUserRoles_loop u o names Hu Hscope (cleared st u o))
    as (st' & Hrun & Hcount & Hin & Hkeep).
  { apply wfStore_remove. exact Hwf. }
  { exact Hnames. }
  exists st'. split; [| split; [exact Hrun | split; [| split]]].
  - unfold setUserRolesAsync.
    assert (Hut : usersTruthy (One usr) = true).
    { destruct usr as [v | i]; simpl in *; auto.
      destruct v; inversion Hid; subst; auto. }
    rewrite Hut. cbn [negb namesTruthy ensureArray]. cbv iota.
    unfold bind at 1, lift at 1. rewrite Hscope. fold o.
    cbn [forOf]. unfold bind at 1 2, lift at 1. rewrite Hid.
    unfold bind at 1, roleAssignment_removeAsync.
    fold (assignmentsToReplace u o). fold (cleared st u o).
    unfold bind at 1.
    match goal with
    | |- (let (_, _) := ?run in _) = _ =>
        change run
          with (forOf names (fun role => _addUserToRole u role o ;; ret tt) (cleared st u o))
    end.
    rewrite Hrun. reflexivity.
  - intros r. rewrite Hcount. fold s in Hzero. rewrite Hzero.
    destruct (memStr r names); reflexivity.
  - intros a Ha Eu Hsc. destruct (Hin a Ha) as [Ha0 | (_ & Hr & Hs)]; [| tauto].
    destruct (Hcleared a Ha0) as [_ Hno].
    assert (Hyes : Mongo.matches (assignmentsToReplace u o) a = true)
      by (apply matches_assignmentsToReplace; tauto).
    congruence.
  - intros a Ha Hno. apply Hkeep. unfold cleared. cbn [Meteor_roleAssignment].
    apply filter_In. split; auto. now rewrite Hno.
Qed.

Lemma setUserRoles_replaces_witness :
  exists st',
    setUserRolesAsync _addUserToRole (One (UserVal (JS.Str "u1"))) (Many ["editor"])
      OptionsUndefined adminAssigned = (Return tt, st')
    /\ countFor st' (JS.Str "u1") "editor" None = 1
    /\ countFor st' (JS.Str "u1") "admin" None = 0.
Proof.
  destruct (setUserRoles_replaces (UserVal (JS.Str "u1")) (JS.Str "u1") ["editor"]
              OptionsUndefined adminAssigned)
    as (st' & Hrun & _ & Hcount & _).
  - reflexivity.
  - reflexivity.
  - split.
    + vm_compute. repeat constructor. simpl. tauto.
    + intros a Ha. vm_compute in Ha. destruct Ha as [<- | []]. simpl. lia.
  - reflexivity.
  - intros n [<- | []]. split; [reflexivity | vm_compute; discriminate].
  - exists st'. split; [exact Hrun |]. split; apply Hcount.
Defined.

(** ** Ancestor test *)

(** One turn of the loop on a stack whose top is [x]. *)
Lemma loop_top_found (st : Store) (fuel : nat) (child : string) (rest : list string) :
  isParentOf_loop (S fuel) child (rest ++ [child]) st = Some (Return true, st).
Proof.
  simpl. rewrite pop_snoc. now rewrite String.eqb_refl.
Qed.

Lemma loop_top_dangling (st : Store) (fuel : nat) (child x : string) (rest : list string) :
  x <> child ->
  find (Mongo.matchesRole (roleById x)) (Meteor_roles st) = None ->
  isParentOf_loop (S fuel) child (rest ++ [x]) st = isParentOf_loop fuel child rest st.
Proof.
  intros Hne Hf. simpl. rewrite pop_snoc.
  apply String.eqb_neq in Hne. rewrite Hne.
  unfold roles_findOneAsync. now rewrite Hf.
Qed.

Lemma loop_top_expand (st : Store) (fuel : nat) (child x : string) (rest : list string)
    (r : RoleDoc) :
  x <> child ->
  find (Mongo.matchesRole (roleById x)) (Meteor_roles st) = Some r ->
  isParentOf_loop (S fuel) child (rest ++ [x]) st
  = isParentOf_loop fuel child (rest ++ children r) st.
Proof.
  intros Hne Hf. simpl. rewrite pop_snoc.
  apply String.eqb_neq in Hne. rewrite Hne.
  unfold roles_findOneAsync. now rewrite Hf.
Qed.

Section Search.

Variable st : Store.
Variable child : string.

Lemma exploredAll_of_each (xs : list string) :
  (forall x, In x xs -> exists n, explored st child x n) ->
  exists n, exploredAll st child xs n.
Proof.
  induction xs as [| x xs IH] using rev_ind; intros Hall.
  - exists 0. right. split.
    + intros x [].
    + intros rest fuel. now rewrite app_nil_r.
  - destruct (Hall x) as [nx Hx]; [apply in_or_app; right; simpl; auto |].
    destruct IH as [n Hxs]; [intros y Hy; apply Hall, in_or_app; auto |].
    exists (nx + n). destruct Hx as [[Hreach Hrun] | [Hno Hrun]].
    + left. split.
      * exists x. split; auto. apply in_or_app. right. simpl; auto.
      * intros rest fuel. rewrite app_assoc, <- Nat.add_assoc. apply Hrun.
    + destruct Hxs as [[(y & Hy & Hreach) Hrun'] | [Hno' Hrun']].
      * left. split.
        -- exists y. split; auto. apply in_or_app. auto.
        -- intros rest fuel. rewrite app_assoc, <- Nat.add_assoc, Hrun. apply Hrun'.
      * right. split.
        -- intros y Hy. apply in_app_or in Hy. destruct Hy as [Hy | [<- | []]]; auto.
        -- intros rest fuel. rewrite app_assoc, <- Nat.add_assoc, Hrun. apply Hrun'.
Qed.

Variable rank : string -> nat.
Hypothesis rank_decreases :
  forall r c, In r (Meteor_roles st) -> In c (children r) -> rank c < rank (role_id r).

Lemma explored_by_rank (k : nat) :
  forall x, rank x < k -> exists n, explored st child x n.
Proof.
  induction k as [| k IH]; intros x Hk; [lia |].
  destruct (String.eqb x child) eqn:E.
  - apply String.eqb_eq in E. subst x. exists 1. left. split; [constructor |].
    intros rest fuel. apply loop_top_found.
  - apply String.eqb_neq in E.
    destruct (find (Mongo.matchesRole (roleById x)) (Meteor_roles st)) as [r |] eqn:Hf.
    + destruct (findOne_role_id st x r Hf) as [Hin Hid].
      destruct (exploredAll_of_each (children r)) as [n Hn].
      { intros c Hc. apply IH. pose proof (rank_decreases r c Hin Hc). rewrite Hid in *. lia. }
      exists (S n). destruct Hn as [[(c & Hc & Hreach) Hrun] | [Hno Hrun]].
      * left. split; [eapply reaches_step; eauto |].
        intros rest fuel. cbn [Nat.add]. rewrite (loop_top_expand st _ child x rest r E Hf).
        apply Hrun.
      * right. split.
        -- intros Hreach. apply reaches_inv in Hreach.
           destruct Hreach as [-> | (r' & c & Hf' & Hc & Hreach)]; [congruence |].
           rewrite Hf in Hf'. inversion Hf'; subst r'. exact (Hno c Hc Hreach).
        -- intros rest fuel. cbn [Nat.add].
           rewrite (loop_top_expand st _ child x rest r E Hf). apply Hrun.
    + exists 1. right. split.
      * intros Hreach. apply reaches_inv in Hreach.
        destruct Hreach as [-> | (r' & c & Hf' & _)]; congruence.
      * intros rest fuel. apply loop_top_dangling; auto.
Qed.

End Search.

(** On the hierarchy where [admin] and [editor] are each the child of the
    other, which [addRolesToParent] builds and returns from, the search for
    a name that is not there never answers [false]: it is still running
    after any number of turns.  And where [a] has the children [t] and [a],
    the search from [a] never finds [t], its first child: the last child is
    looked at first, and that is [a] again. *)
Lemma isParentOf_never_answers_on_cycle :
  addRolesToParentAsync (One "admin") "editor" adminOverEditor = (Return tt, adminEditorCycle)
  /\ (forall fuel,
        isParentOfAsync fuel (JS.Str "admin") (JS.Str "ghost") adminEditorCycle = None)
  /\ reaches aboveItself "a" "t"
  /\ (forall fuel, isParentOfAsync fuel (JS.Str "a") (JS.Str "t") aboveItself = None).
Proof.
  assert (E1 : adminEditorCycle
               = mkStore [mkRole "admin" ["editor"]; mkRole "editor" ["admin"]] [] 1)
    by (vm_compute; reflexivity).
  assert (E2 : aboveItself = mkStore [mkRole "a" ["t"; "a"]; mkRole "t" []] [] 1)
    by (vm_compute; reflexivity).
  split; [vm_compute; reflexivity |]. split; [| split].
  - rewrite E1. intros fuel.
    change (isParentOf_loop fuel "ghost" ([] ++ ["admin"])
              (mkStore [mkRole "admin" ["editor"]; mkRole "editor" ["admin"]] [] 1) = None).
    assert (H : forall n,
               isParentOf_loop n "ghost" ([] ++ ["admin"])
                 (mkStore [mkRole "admin" ["editor"]; mkRole "editor" ["admin"]] [] 1) = None
               /\ isParentOf_loop n "ghost" ([] ++ ["editor"])
                    (mkStore [mkRole "admin" ["editor"]; mkRole "editor" ["admin"]] [] 1)
                  = None).
    { induction n as [| n [IHa IHe]]; [split; reflexivity |]. split.
      - rewrite (loop_top_expand _ n "ghost" "admin" [] (mkRole "admin" ["editor"]));
          [exact IHe | discriminate | reflexivity].
      - rewrite (loop_top_expand _ n "ghost" "editor" [] (mkRole "editor" ["admin"]));
          [exact IHa | discriminate | reflexivity]. }
    apply H.
  - rewrite E2. apply (@reaches_step _ "a" "t" "t" (mkRole "a" ["t"; "a"]));
      [reflexivity | now left | constructor].
  - rewrite E2. intros fuel.
    change (isParentOf_loop fuel "t" ([] ++ ["a"])
              (mkStore [mkRole "a" ["t"; "a"]; mkRole "t" []] [] 1) = None).
    assert (H : forall n rest,
               isParentOf_loop n "t" (rest ++ ["a"])
                 (mkStore [mkRole "a" ["t"; "a"]; mkRole "t" []] [] 1) = None).
    { induction n as [| n IH]; intros rest; [reflexivity |].
      rewrite (loop_top_expand _ n "t" "a" rest (mkRole "a" ["t"; "a"]));
        [| discriminate | reflexivity].
      cbn [children]. change ["t"; "a"] with (["t"] ++ ["a"]). rewrite app_assoc. apply IH. }
    apply H.
Qed.

(** C8, amended. [isParentOf] answers [true] at once when the two names
    are equal, whatever they are and before any other check. For two
    different valid names on a role store whose children edges form no
    cycle, the depth-first search ends, raises nothing, leaves the store
    alone, and answers [true] exactly when the second name is reachable
    from the first along children edges, [false] otherwise. A name on the
    stack that has no role document and is not the target is dropped and
    the search goes on with the rest of the stack. *)
Theorem isParentOf_searches_children (st : Store) (a b : string) (v : JS.Val) :
  (forall fuel, isParentOfAsync fuel v v st = Some (Return true, st))
  /\ (a <> b ->
      _checkRoleName (JS.Str a) = Return tt -> _checkRoleName (JS.Str b) = Return tt ->
      acyclic st ->
      exists n, forall fuel, n <= fuel ->
        exists answer,
          isParentOfAsync fuel (JS.Str a) (JS.Str b) st = Some (Return answer, st)
          /\ (answer = true <-> reaches st a b))
  /\ (forall fuel rest x,
        x <> b ->
        find (Mongo.matchesRole (roleById x)) (Meteor_roles st) = None ->
        isParentOf_loop (S fuel) b (rest ++ [x]) st = isParentOf_loop fuel b rest st).
Proof.
  split; [| split].
  - intros fuel. unfold isParentOfAsync. now rewrite strictEq_refl.
  - intros Hne Ha Hb (rank & Hrank).
    destruct (explored_by_rank st b rank Hrank (S (rank a)) a) as [n Hn]; [lia |].
    assert (Hrun : forall fuel,
               isParentOfAsync fuel (JS.Str a) (JS.Str b) st = isParentOf_loop fuel b [a] st).
    { intros fuel. unfold isParentOfAsync. cbn [JS.strictEq JS.isNullish orb].
      apply String.eqb_neq in Hne. rewrite Hne.
      unfold bindF, run, lift. now rewrite Ha, Hb. }
    exists (n + 1). intros fuel Hfuel. rewrite Hrun.
    replace fuel with (n + (fuel - n)) by lia.
    change [a] with ([] ++ [a]).
    destruct Hn as [[Hreach Hloop] | [Hno Hloop]].
    + exists true. split; [apply (Hloop [] (fuel - n)) | tauto].
    + exists false. split.
      * rewrite (Hloop [] (fuel - n)).
        destruct (fuel - n) as [| f] eqn:E; [lia | reflexivity].
      * split; [discriminate | tauto].
  - intros fuel rest x Hne Hf. now apply loop_top_dangling.
Qed.

Lemma isParentOf_searches_children_witness :
  exists n, forall fuel, n <= fuel ->
    exists answer,
      isParentOfAsync fuel (JS.Str "editor") (JS.Str "admin") adminOverEditor
      = Some (Return answer, adminOverEditor)
      /\ (answer = true <-> reaches adminOverEditor "editor" "admin").
Proof.
  apply (isParentOf_searches_children adminOverEditor "editor" "admin" JS.Null).
  - discriminate.
  - reflexivity.
  - reflexivity.
  - exists (fun n => if String.eqb n "admin" then 1 else 0).
    intros r c Hr Hc. vm_compute in Hr.
    destruct Hr as [<- | [<- | []]]; simpl in Hc.
    + destruct Hc as [<- | []]. simpl. lia.
    + destruct Hc.
Defined.

(** Without the acyclicity the search need not end: on a role that is its
    own child it runs out of any fuel. *)
Lemma isParentOf_loops_on_cycle (fuel : nat) :
  isParentOfAsync fuel (JS.Str "a") (JS.Str "b") selfLoop = None.
Proof.
  change (isParentOf_loop fuel "b" ["a"] selfLoop = None).
  induction fuel as [| fuel IH]; [reflexivity | exact IH].
Qed.

(** ** The rewriting loops *)

Lemma update_multi {D : Type} (sel : D -> bool) (f : D -> D) (docs : list D) :
  Mongo.update sel f true docs
  = (map (fun d => if sel d then f d else d) docs, List.length (filter sel docs)).
Proof.
  induction docs as [| d docs IH]; simpl; auto.
  rewrite IH. destruct (sel d); reflexivity.
Qed.

Lemma total_not_increased {D : Type} (w : D -> nat) (sel : D -> bool) (f : D -> D)
    (docs : list D) :
  (forall d, In d docs -> sel d = true -> w (f d) < w d) ->
  total w (map (fun d => if sel d then f d else d) docs) <= total w docs.
Proof.
  unfold total. induction docs as [| d docs IH]; simpl; intros H; auto.
  assert (IH' := IH (fun x Hx => H x (or_intror Hx))).
  destruct (sel d) eqn:E.
  - pose proof (H d (or_introl eq_refl) E). lia.
  - lia.
Qed.

Lemma total_decreased {D : Type} (w : D -> nat) (sel : D -> bool) (f : D -> D)
    (docs : list D) :
  (forall d, In d docs -> sel d = true -> w (f d) < w d) ->
  0 < List.length (filter sel docs) ->
  total w (map (fun d => if sel d then f d else d) docs) < total w docs.
Proof.
  unfold total. induction docs as [| d docs IH]; simpl; intros H Hn; [lia |].
  pose proof (total_not_increased w sel f docs (fun x Hx => H x (or_intror Hx))) as Hle.
  unfold total in Hle.
  destruct (sel d) eqn:E.
  - pose proof (H d (or_introl eq_refl) E). lia.
  - assert (IH' := IH (fun x Hx => H x (or_intror Hx)) Hn). lia.
Qed.

Lemma no_match_unchanged {D : Type} (sel : D -> bool) (f : D -> D) (docs : list D) :
  List.length (filter sel docs) = 0 ->
  map (fun d => if sel d then f d else d) docs = docs
  /\ forall d, In d docs -> sel d = false.
Proof.
  induction docs as [| d docs IH]; simpl; intros H.
  - split; [reflexivity | intros d []].
  - destruct (sel d) eqn:E; simpl in H; [discriminate |].
    destruct (IH H) as [E1 E2]. split; [now rewrite E1 |].
    intros x [<- | Hx]; auto.
Qed.

(** A [do ... while (count > 0)] loop whose body lowers a measure whenever
    it reports matches ends, with the same result for every amount of fuel
    above the measure, and ends on a call that reported no match. *)
Lemma doWhile_ends (body : Async nat) (Inv Post : Store -> Prop) (mu : Store -> nat) :
  (forall st, Inv st ->
     exists n st', body st = (Return n, st')
                   /\ Inv st' /\ (0 < n -> mu st' < mu st) /\ (n = 0 -> Post st')) ->
  forall k st, Inv st -> mu st < k ->
    exists st', Inv st' /\ Post st'
                /\ forall fuel, mu st < fuel -> doWhile fuel body st = Some (Return tt, st').
Proof.
  intros Hbody. induction k as [| k IH]; intros st Hinv Hk; [lia |].
  destruct (Hbody st Hinv) as (n & st1 & Hrun & Hinv1 & Hdec & Hpost).
  destruct n as [| n].
  - exists st1. split; auto. split; auto.
    intros [| fuel] Hf; [lia |]. simpl. rewrite Hrun. reflexivity.
  - assert (Hlt : mu st1 < mu st) by (apply Hdec; lia).
    destruct (IH st1 Hinv1) as (st' & Hinv' & Hpost' & Hloop); [lia |].
    exists st'. split; auto. split; auto.
    intros [| fuel] Hf; [lia |]. simpl. rewrite Hrun. cbn [Nat.ltb Nat.leb].
    apply Hloop. lia.
Qed.

Lemma occurrences_In (n : string) (l : list string) :
  0 < occurrences n l <-> In n l.
Proof.
  unfold occurrences. induction l as [| x l IH]; simpl; [split; [lia | tauto] |].
  destruct (String.eqb n x) eqn:E; simpl.
  - apply String.eqb_eq in E. subst. split; auto. lia.
  - apply String.eqb_neq in E. rewrite IH. split; auto.
    intros [H | H]; auto. congruence.
Qed.

Lemma occurrences_replaceFirst (old new : string) (l : list string) :
  old <> new -> In old l ->
  occurrences old (Mongo.replaceFirst old new l) < occurrences old l.
Proof.
  intros Hne. unfold occurrences. induction l as [| x l IH]; simpl; [tauto |].
  intros Hin. destruct (String.eqb x old) eqn:E.
  - apply String.eqb_eq in E. subst x. simpl.
    rewrite String.eqb_refl. apply String.eqb_neq in Hne. rewrite Hne. simpl. lia.
  - apply String.eqb_neq in E. simpl.
    assert (E' : String.eqb old x = false) by (apply String.eqb_neq; congruence).
    rewrite E'. apply IH. destruct Hin; congruence.
Qed.

Lemma in_updated {D : Type} (sel : D -> bool) (f : D -> D) (docs : list D) (x : D) :
  In x (map (fun d => if sel d then f d else d) docs) ->
  exists d, In d docs /\ (x = d \/ (sel d = true /\ x = f d)).
Proof.
  intros H. apply in_map_iff in H. destruct H as (d & E & Hd).
  exists d. split; auto. destruct (sel d); auto.
Qed.

(** A rewriting loop over the assignments: it ends as soon as the modifier
    lowers the weight of every assignment it is applied to, and it ends
    with no assignment left for the selector. *)
Lemma assignment_loop_ends (q : Mongo.Selector) (m : Mongo.Modifier)
    (w : Assignment -> nat) (Keep : Assignment -> Prop) :
  (forall a, Mongo.matches q a = true -> w (Mongo.applyModifier q m a) < w a) ->
  (forall a, Keep a -> Keep (Mongo.applyModifier q m a)) ->
  forall st, (forall a, In a (Meteor_roleAssignment st) -> Keep a) ->
    exists st',
      Meteor_roles st' = Meteor_roles st
      /\ (forall a, In a (Meteor_roleAssignment st') -> Keep a)
      /\ (forall a, In a (Meteor_roleAssignment st') -> Mongo.matches q a = false)
      /\ forall fuel, total w (Meteor_roleAssignment st) < fuel ->
           doWhile fuel (roleAssignment_updateAsync q m true) st = Some (Return tt, st').
Proof.
  intros Hw Hkeep st Hst.
  destruct (doWhile_ends (roleAssignment_updateAsync q m true)
              (fun s => Meteor_roles s = Meteor_roles st
                        /\ forall a, In a (Meteor_roleAssignment s) -> Keep a)
              (fun s => forall a, In a (Meteor_roleAssignment s) -> Mongo.matches q a = false)
              (fun s => total w (Meteor_roleAssignment s)))
    with (k := S (total w (Meteor_roleAssignment st))) (st := st)
    as (st' & [Hroles Hk] & Hpost & Hloop); auto.
  - intros s [Hr Hk]. unfold roleAssignment_updateAsync. rewrite update_multi.
    eexists. eexists. split; [reflexivity |]. cbn [Meteor_roles Meteor_roleAssignment].
    split; [| split].
    + split; auto. intros a Ha. apply in_updated in Ha.
      destruct Ha as (d & Hd & [-> | [_ ->]]); auto.
    + intros Hn. apply total_decreased; auto.
    + intros Hn. destruct (no_match_unchanged (Mongo.matches q) (Mongo.applyModifier q m)
                             (Meteor_roleAssignment s) Hn) as [E Hno].
      rewrite E. exact Hno.
  - exists st'. auto.
Qed.

(** The same for a rewriting loop over the roles; it leaves the
    assignments alone. *)
Lemma role_loop_ends (q : Mongo.RoleSelector) (m : Mongo.RoleModifier) (w : RoleDoc -> nat) :
  (forall r, Mongo.matchesRole q r = true -> w (Mongo.applyRoleModifier q m r) < w r) ->
  forall st,
    exists st',
      Meteor_roleAssignment st' = Meteor_roleAssignment st
      /\ (forall r, In r (Meteor_roles st') -> Mongo.matchesRole q r = false)
      /\ forall fuel, total w (Meteor_roles st) < fuel ->
           doWhile fuel (roles_updateAsync q m true) st = Some (Return tt, st').
Proof.
  intros Hw st.
  destruct (doWhile_ends (roles_updateAsync q m true)
              (fun s => Meteor_roleAssignment s = Meteor_roleAssignment st)
              (fun s => forall r, In r (Meteor_roles s) -> Mongo.matchesRole q r = false)
              (fun s => total w (Meteor_roles s)))
    with (k := S (total w (Meteor_roles st))) (st := st)
    as (st' & Hassign & Hpost & Hloop); auto.
  - intros s Hs. unfold roles_updateAsync. rewrite update_multi.
    eexists. eexists. split; [reflexivity |]. cbn [Meteor_roles Meteor_roleAssignment].
    split; [exact Hs | split].
    + intros Hn. apply total_decreased; auto.
    + intros Hn. destruct (no_match_unchanged (Mongo.matchesRole q) (Mongo.applyRoleModifier q m)
                             (Meteor_roles s) Hn) as [E Hno].
      rewrite E. exact Hno.
  - exists st'. auto.
Qed.

Lemma matches_byScope (s : option string) (a : Assignment) :
  Mongo.matches (byScope s) a = true <-> scope a = s.
Proof.
  unfold Mongo.matches, byScope. simpl. rewrite andb_true_r. apply scope_eqb_eq.
Qed.

Lemma matches_byRole (r : string) (a : Assignment) :
  Mongo.matches (byRole r) a = true <-> role a = r.
Proof.
  unfold Mongo.matches, byRole. simpl. rewrite !andb_true_r. apply String.eqb_eq.
Qed.

Lemma matches_byInherited (r : string) (a : Assignment) :
  Mongo.matches (byInherited r) a = true
  <-> exists l, inheritedRoles a = Some l /\ In r l.
Proof.
  unfold Mongo.matches, byInherited. simpl.
  destruct (inheritedRoles a) as [l |].
  - rewrite memStr_In. split; [intros H; exists l; auto |].
    intros (l' & E & H). now inversion E; subst.
  - split; [discriminate | intros (l & E & _); discriminate].
Qed.

Lemma matchesRole_withChild (c : string) (r : RoleDoc) :
  Mongo.matchesRole (roleWithChild c) r = true <-> In c (children r).
Proof.
  unfold Mongo.matchesRole, roleWithChild. simpl. apply memStr_In.
Qed.

Lemma not_true_false (b : bool) : b <> true -> b = false.
Proof. destruct b; congruence. Qed.

Lemma scope_loop_lowers (old new : option string) (a : Assignment) :
  old <> new ->
  Mongo.matches (byScope old) a = true ->
  indicator (Mongo.matches (byScope old))
    (Mongo.applyModifier (byScope old) (Mongo.SetScope new) a)
  < indicator (Mongo.matches (byScope old)) a.
Proof.
  intros Hne Hm. unfold indicator. rewrite Hm.
  destruct (Mongo.matches (byScope old)
              (Mongo.applyModifier (byScope old) (Mongo.SetScope new) a)) eqn:E; [| lia].
  apply matches_byScope in E. simpl in E. congruence.
Qed.

Lemma role_loop_lowers (old new : string) (a : Assignment) :
  old <> new ->
  Mongo.matches (byRole old) a = true ->
  indicator (Mongo.matches (byRole old))
    (Mongo.applyModifier (byRole old) (Mongo.SetRoleId new) a)
  < indicator (Mongo.matches (byRole old)) a.
Proof.
  intros Hne Hm. unfold indicator. rewrite Hm.
  destruct (Mongo.matches (byRole old)
              (Mongo.applyModifier (byRole old) (Mongo.SetRoleId new) a)) eqn:E; [| lia].
  apply matches_byRole in E. simpl in E. congruence.
Qed.

Lemma inherited_loop_lowers (old new : string) (a : Assignment) :
  old <> new ->
  Mongo.matches (byInherited old) a = true ->
  inheritedWeight old
    (Mongo.applyModifier (byInherited old) (Mongo.SetInheritedRolePositional new) a)
  < inheritedWeight old a.
Proof.
  intros Hne Hm. apply matches_byInherited in Hm. destruct Hm as (l & E & Hin).
  unfold inheritedWeight. simpl. rewrite E. simpl.
  now apply occurrences_replaceFirst.
Qed.

Lemma children_loop_lowers (old new : string) (r : RoleDoc) :
  old <> new ->
  Mongo.matchesRole (roleWithChild old) r = true ->
  childrenWeight old
    (Mongo.applyRoleModifier (roleWithChild old) (Mongo.SetChildPositional new) r)
  < childrenWeight old r.
Proof.
  intros Hne Hm. apply matchesRole_withChild in Hm.
  unfold childrenWeight. simpl. now apply occurrences_replaceFirst.
Qed.

(** A call that throws before it reaches a loop needs no fuel. *)
Ltac ends_at_once :=
  exists 0; intros ? _; eexists; eexists; split; [reflexivity | discriminate].

Lemma checkScopeName_shape (v : JS.Val) :
  _checkScopeName v = Return tt -> v = JS.Null \/ exists s, v = JS.Str s.
Proof.
  destruct v as [| | b | n | s]; simpl; intros H; auto; try discriminate.
  - unfold _checkScopeName in H. simpl in H. destruct b; discriminate.
  - unfold _checkScopeName in H. simpl in H. destruct (negb (n =? 0)%Z); discriminate.
  - right. now exists s.
Qed.

Lemma scopeOf_differs (old new : JS.Val) :
  _checkScopeName old = Return tt -> _checkScopeName new = Return tt ->
  old <> new -> scopeOf old <> scopeOf new.
Proof.
  intros Ho Hn Hne.
  destruct (checkScopeName_shape old Ho) as [-> | [s ->]],
           (checkScopeName_shape new Hn) as [-> | [s' ->]]; simpl; congruence.
Qed.

Lemma strictEq_false (a b : JS.Val) : a <> b -> JS.strictEq a b = false.
Proof.
  intros H. apply not_true_false. intros E. apply strictEq_eq in E. contradiction.
Qed.

(** [renameScopeAsync] on two different names: with enough fuel it returns,
    and when it returns normally no assignment is left in the old scope. *)
Lemma renameScope_ends (old new : JS.Val) (st : Store) :
  old <> new ->
  exists n, forall fuel, n <= fuel ->
    exists o st',
      renameScopeAsync fuel old new st = Some (o, st')
      /\ (o = Return tt ->
          forall a, In a (Meteor_roleAssignment st') -> scope a <> scopeOf old).
Proof.
  intros Hne. unfold renameScopeAsync, bindF, run, lift.
  destruct (_checkScopeName old) as [[] | e] eqn:Ho.
  2:{ ends_at_once. }
  destruct (_checkScopeName new) as [[] | e] eqn:Hn.
  2:{ ends_at_once. }
  rewrite (strictEq_false old new Hne).
  pose proof (scopeOf_differs old new Ho Hn Hne) as Hs.
  destruct (assignment_loop_ends (byScope (scopeOf old)) (Mongo.SetScope (scopeOf new))
              (indicator (Mongo.matches (byScope (scopeOf old)))) (fun _ => True)
              (fun a => scope_loop_lowers (scopeOf old) (scopeOf new) a Hs)
              (fun _ _ => I) st (fun _ _ => I))
    as (st' & _ & _ & Hpost & Hloop).
  exists (S (total (indicator (Mongo.matches (byScope (scopeOf old))))
               (Meteor_roleAssignment st))).
  intros fuel Hfuel. exists (Return tt), st'. split.
  - apply Hloop. lia.
  - intros _ a Ha Hsc. apply matches_byScope in Hsc. rewrite (Hpost a Ha) in Hsc. discriminate.
Qed.

(** [renameRoleAsync] on two different names: with enough fuel it returns,
    and when it returns normally nothing in the store refers to the old
    name any more. *)
Lemma renameRole_ends (old new : string) (st : Store) :
  old <> new ->
  exists n, forall fuel, n <= fuel ->
    exists o st',
      renameRoleAsync fuel old new st = Some (o, st')
      /\ (o = Return tt ->
          (forall a, In a (Meteor_roleAssignment st') ->
                     role a <> old
                     /\ forall l, inheritedRoles a = Some l -> ~ In old l)
          /\ (forall r, In r (Meteor_roles st') ->
                        role_id r <> old /\ ~ In old (children r))).
Proof.
  intros Hne. unfold renameRoleAsync, bindF, run, lift.
  destruct (_checkRoleName (JS.Str old)) as [[] | e] eqn:Ho.
  2:{ ends_at_once. }
  destruct (_checkRoleName (JS.Str new)) as [[] | e] eqn:Hn.
  2:{ ends_at_once. }
  assert (E : String.eqb old new = false) by now apply String.eqb_neq.
  rewrite E. unfold roles_findOneAsync.
  destruct (find (Mongo.matchesRole (roleById old)) (Meteor_roles st)) as [rd |].
  2:{ ends_at_once. }
  unfold roles_insertAsync. cbn [role_id].
  destruct (existsb (fun r => String.eqb (role_id r) new) (Meteor_roles st)).
  { ends_at_once. }
  set (st0 := mkStore (Meteor_roles st ++ [mkRole new (children rd)])
                (Meteor_roleAssignment st) (nextId st)).
  destruct (assignment_loop_ends (byRole old) (Mongo.SetRoleId new)
              (indicator (Mongo.matches (byRole old))) (fun _ => True)
              (fun a => role_loop_lowers old new a Hne)
              (fun _ _ => I) st0 (fun _ _ => I))
    as (st1 & _ & _ & Hpost1 & Hloop1).
  destruct (assignment_loop_ends (byInherited old) (Mongo.SetInheritedRolePositional new)
              (inheritedWeight old) (fun a => role a <> old)
              (fun a => inherited_loop_lowers old new a Hne)) with (st := st1)
    as (st2 & _ & Hkeep2 & Hpost2 & Hloop2).
  { intros a Ha. simpl. destruct (inheritedRoles a); auto. }
  { intros a Ha Hr. apply matches_byRole in Hr. rewrite (Hpost1 a Ha) in Hr. discriminate. }
  destruct (role_loop_ends (roleWithChild old) (Mongo.SetChildPositional new)
              (childrenWeight old) (fun r => children_loop_lowers old new r Hne) st2)
    as (st3 & Hassign3 & Hpost3 & Hloop3).
  exists (S (total (indicator (Mongo.matches (byRole old))) (Meteor_roleAssignment st0)
             + total (inheritedWeight old) (Meteor_roleAssignment st1)
             + total (childrenWeight old) (Meteor_roles st2))).
  intros fuel Hfuel. eexists. eexists. split.
  - rewrite Hloop1 by lia. rewrite Hloop2 by lia. rewrite Hloop3 by lia. reflexivity.
  - intros _. cbn [Meteor_roleAssignment Meteor_roles]. split.
    + intros a Ha. rewrite Hassign3 in Ha. split; [now apply Hkeep2 |].
      intros l El Hin.
      assert (Hm : Mongo.matches (byInherited old) a = true)
        by (apply matches_byInherited; eauto).
      rewrite (Hpost2 a Ha) in Hm. discriminate.
    + intros r Hr. unfold Mongo.remove in Hr. apply filter_In in Hr.
      destruct Hr as [Hr Hid]. split.
      * intros Eid. unfold Mongo.matchesRole, roleById in Hid. simpl in Hid.
        rewrite Eid, String.eqb_refl in Hid. discriminate.
      * intros Hin. apply matchesRole_withChild in Hin.
        rewrite (Hpost3 r Hr) in Hin. discriminate.
Qed.

(** The loop of [renameScopeAsync] with the new name equal to the old one
    matches what it has just written: while an assignment is in that scope
    it never ends. *)
Lemma renameScope_loop_spins (s : option string) (st : Store) :
  (exists a, In a (Meteor_roleAssignment st) /\ scope a = s) ->
  forall fuel,
    doWhile fuel (roleAssignment_updateAsync (byScope s) (Mongo.SetScope s) true) st = None.
Proof.
  intros (a & Ha & Hs) fuel.
  assert (Hbody : exists n,
             roleAssignment_updateAsync (byScope s) (Mongo.SetScope s) true st
             = (Return (S n), st)).
  { unfold roleAssignment_updateAsync. rewrite update_multi.
    assert (Hsame : map (fun d => if Mongo.matches (byScope s) d
                                  then Mongo.applyModifier (byScope s) (Mongo.SetScope s) d
                                  else d) (Meteor_roleAssignment st)
                    = Meteor_roleAssignment st).
    { rewrite <- (map_id (Meteor_roleAssignment st)) at 2. apply map_ext.
      intros d. destruct (Mongo.matches (byScope s) d) eqn:E; auto.
      apply matches_byScope in E. destruct d; simpl in *. now subst. }
    rewrite Hsame.
    destruct (filter (Mongo.matches (byScope s)) (Meteor_roleAssignment st)) as [| x l] eqn:E.
    - assert (Hin : In a (filter (Mongo.matches (byScope s)) (Meteor_roleAssignment st))).
      { apply filter_In. split; auto. now apply matches_byScope. }
      rewrite E in Hin. destruct Hin.
    - exists (List.length l). destruct st; reflexivity. }
  destruct Hbody as [n Hbody].
  induction fuel as [| fuel IH]; [reflexivity |].
  simpl. rewrite Hbody. exact IH.
Qed.

(** C9. Called with the new name equal to the old one, [renameScope] and
    [renameRole] end at once, for every amount of fuel and with the store
    as it was: they return as soon as the name has passed the name check,
    whose error is the only other outcome. Called with two different names,
    each of them ends once the fuel exceeds a bound that depends on the
    store alone: every loop stops on an update that reports no match, which
    happens when no document refers to the old name any more. And the loop
    of [renameScope] run with the new name equal to the old one never ends
    while an assignment is in that scope. *)
Theorem rename_loops_end (oldScope newScope : JS.Val) (oldRole newRole : string)
    (st : Store) :
  (forall fuel, renameScopeAsync fuel oldScope oldScope st
                = Some (_checkScopeName oldScope, st))
  /\ (forall fuel, renameRoleAsync fuel oldRole oldRole st
                   = Some (_checkRoleName (JS.Str oldRole), st))
  /\ (oldScope <> newScope ->
      exists n, forall fuel, n <= fuel ->
        exists o st',
          renameScopeAsync fuel oldScope newScope st = Some (o, st')
          /\ (o = Return tt ->
              forall a, In a (Meteor_roleAssignment st') -> scope a <> scopeOf oldScope))
  /\ (oldRole <> newRole ->
      exists n, forall fuel, n <= fuel ->
        exists o st',
          renameRoleAsync fuel oldRole newRole st = Some (o, st')
          /\ (o = Return tt ->
              (forall a, In a (Meteor_roleAssignment st') ->
                         role a <> oldRole
                         /\ forall l, inheritedRoles a = Some l -> ~ In oldRole l)
              /\ (forall r, In r (Meteor_roles st') ->
                            role_id r <> oldRole /\ ~ In oldRole (children r))))
  /\ ((exists a, In a (Meteor_roleAssignment st) /\ scope a = scopeOf oldScope) ->
      forall fuel,
        doWhile fuel
          (roleAssignment_updateAsync (byScope (scopeOf oldScope))
             (Mongo.SetScope (scopeOf oldScope)) true) st = None).
Proof.
  split; [| split; [| split; [| split]]].
  - intros fuel. unfold renameScopeAsync, bindF, run, lift.
    destruct (_checkScopeName oldScope) as [[] | e]; [| reflexivity].
    now rewrite strictEq_refl.
  - intros fuel. unfold renameRoleAsync, bindF, run, lift.
    destruct (_checkRoleName (JS.Str oldRole)) as [[] | e]; [| reflexivity].
    now rewrite String.eqb_refl.
  - apply renameScope_ends.
  - apply renameRole_ends.
  - apply renameScope_loop_spins.
Qed.

Lemma rename_loops_end_witness :
  (exists n, forall fuel, n <= fuel ->
     exists o st',
       renameScopeAsync fuel JS.Null (JS.Str "s1") adminAssigned = Some (o, st')
       /\ (o = Return tt ->
           forall a, In a (Meteor_roleAssignment st') -> scope a <> None))
  /\ (exists n, forall fuel, n <= fuel ->
        exists o st',
          renameRoleAsync fuel "editor" "writer" adminAssigned = Some (o, st')
          /\ (o = Return tt ->
              (forall a, In a (Meteor_roleAssignment st') ->
                         role a <> "editor"
                         /\ forall l, inheritedRoles a = Some l -> ~ In "editor" l)
              /\ (forall r, In r (Meteor_roles st') ->
                            role_id r <> "editor" /\ ~ In "editor" (children r))))
  /\ (forall fuel,
        doWhile fuel
          (roleAssignment_updateAsync (byScope None) (Mongo.SetScope None) true)
          adminAssigned = None).
Proof.
  destruct (rename_loops_end JS.Null (JS.Str "s1") "editor" "writer" adminAssigned)
    as (_ & _ & Hscope & Hrole & Hspin).
  split; [| split].
  - apply Hscope. discriminate.
  - apply Hrole. discriminate.
  - apply Hspin.
    exists (mkAssignment 1 (JS.Str "u1") "admin" None (Some ["admin"])).
    split; [left; reflexivity | reflexivity].
Defined.

(** ** Creating roles, in general *)

(** On a valid name that has a role document, [createRoleAsync] returns
    [null] and changes nothing, whatever [unlessExists] is. *)
Lemma createRole_existing (roleName : string) (options : option Options) (st : Store)
    (rd : RoleDoc) :
  _checkRoleName (JS.Str roleName) = Return tt ->
  find (Mongo.matchesRole (roleById roleName)) (Meteor_roles st) = Some rd ->
  createRoleAsync roleName options st = (Return None, st).
Proof.
  intros Hname Hfind. unfold createRoleAsync, bind, lift. rewrite Hname.
  unfold roles_findOneAsync. rewrite Hfind. unfold roles_updateAsync.
  destruct (Mongo.update _ _ false (Meteor_roles st)) as [docs n] eqn:U.
  assert (E : docs = Meteor_roles st).
  { change docs with (fst (docs, n)). rewrite <- U. apply update_unchanged.
    intros d _ _. reflexivity. }
  rewrite E. unfold ret. destruct st; reflexivity.
Qed.

(** On a valid name that has no role document, it appends the role with
    no children and returns the name, which is the role's id. *)
Lemma createRole_fresh (roleName : string) (options : option Options) (st : Store) :
  _checkRoleName (JS.Str roleName) = Return tt ->
  find (Mongo.matchesRole (roleById roleName)) (Meteor_roles st) = None ->
  createRoleAsync roleName options st
  = (Return (Some roleName),
     mkStore (Meteor_roles st ++ [mkRole roleName []]) (Meteor_roleAssignment st) (nextId st)).
Proof.
  intros Hname Hfind. unfold createRoleAsync, bind, lift. rewrite Hname.
  unfold roles_findOneAsync. rewrite Hfind. unfold roles_insertAsync. cbn [role_id].
  assert (Hno : existsb (fun r => String.eqb (role_id r) roleName) (Meteor_roles st) = false).
  { apply not_true_false. intros Hex. apply existsb_exists in Hex.
    destruct Hex as (r & Hr & E). pose proof (find_none _ _ Hfind r Hr) as Hm.
    unfold Mongo.matchesRole, roleById in Hm. simpl in Hm. rewrite andb_true_r in Hm.
    congruence. }
  rewrite Hno.
  pose proof (checkRoleName_not_empty roleName Hname) as Hne.
  apply String.eqb_neq in Hne. cbn [JS.truthy]. rewrite Hne. reflexivity.
Qed.

(** * Further properties of the interface *)

(** ** Names and options *)

Section Stripping.

Variable w1 : ascii -> bool.
Variable w2 : ascii -> ascii -> bool.
Variable w3 : ascii -> ascii -> ascii -> bool.

Lemma leading_shorter (s r : string) :
  JS.leading w1 w2 w3 s = Some r -> String.length r < String.length s.
Proof.
  destruct s as [| c1 [| c2 [| c3 r3]]]; simpl; try discriminate.
  - destruct (w1 c1); [| discriminate]. intros H. inversion H. simpl. lia.
  - destruct (w1 c1); [intros H; inversion H; simpl; lia |].
    destruct (w2 c1 c2); [| discriminate]. intros H. inversion H. simpl. lia.
  - destruct (w1 c1); [intros H; inversion H; simpl; lia |].
    destruct (w2 c1 c2); [intros H; inversion H; simpl; lia |].
    destruct (w3 c1 c2 c3); [| discriminate]. intros H. inversion H. simpl. lia.
Qed.

Lemma strip_unfold (s : string) :
  JS.strip w1 w2 w3 s
  = match JS.leading w1 w2 w3 s with
    | Some r => JS.strip w1 w2 w3 r
    | None => s
    end.
Proof.
  destruct s as [| c1 r1]; [reflexivity |]. simpl.
  destruct (w1 c1); [reflexivity |].
  destruct r1 as [| c2 r2]; [reflexivity |].
  destruct (w2 c1 c2); [reflexivity |].
  destruct r2 as [| c3 r3]; [reflexivity |].
  destruct (w3 c1 c2 c3); reflexivity.
Qed.

Lemma strip_shorter (s : string) :
  String.length (JS.strip w1 w2 w3 s) <= String.length s.
Proof.
  assert (H : forall n s, String.length s <= n ->
                String.length (JS.strip w1 w2 w3 s) <= String.length s).
  { induction n as [| n IH]; intros t Ht.
    - destruct t; [simpl; lia | simpl in Ht; lia].
    - rewrite strip_unfold. destruct (JS.leading w1 w2 w3 t) as [r |] eqn:E; [| lia].
      pose proof (leading_shorter t r E) as Hr.
      specialize (IH r). lia. }
  now apply (H (String.length s)).
Qed.

(** Stripping changes nothing exactly when there is nothing to strip, and
    otherwise leaves a shorter string. *)
Lemma strip_fixed (s : string) :
  (JS.leading w1 w2 w3 s = None -> JS.strip w1 w2 w3 s = s)
  /\ (JS.leading w1 w2 w3 s <> None ->
      String.length (JS.strip w1 w2 w3 s) < String.length s).
Proof.
  rewrite strip_unfold. destruct (JS.leading w1 w2 w3 s) as [r |] eqn:E.
  - split; [discriminate |]. intros _.
    pose proof (leading_shorter s r E). pose proof (strip_shorter r). lia.
  - split; [reflexivity | congruence].
Qed.

End Stripping.

Lemma length_of_list_ascii (l : list ascii) :
  String.length (string_of_list_ascii l) = List.length l.
Proof. induction l as [| c l IH]; simpl; auto. Qed.

Lemma length_to_list_ascii (s : string) :
  List.length (list_ascii_of_string s) = String.length s.
Proof. induction s as [| c s IH]; simpl; auto. Qed.

Lemma reverse_length (s : string) : String.length (JS.reverse s) = String.length s.
Proof.
  unfold JS.reverse. now rewrite length_of_list_ascii, length_rev, length_to_list_ascii.
Qed.

Lemma reverse_involutive (s : string) : JS.reverse (JS.reverse s) = s.
Proof.
  unfold JS.reverse. rewrite list_ascii_of_string_of_list_ascii, rev_involutive.
  apply string_of_list_ascii_of_string.
Qed.

Lemma trimStart_fixed (s : string) :
  (JS.startsWithWhiteSpace s = false -> JS.trimStart s = s)
  /\ (JS.startsWithWhiteSpace s = true ->
      String.length (JS.trimStart s) < String.length s).
Proof.
  unfold JS.startsWithWhiteSpace, JS.trimStart.
  destruct (strip_fixed JS.isWhiteSpace JS.isWhiteSpace2 JS.isWhiteSpace3 s) as [H1 H2].
  destruct (JS.leading JS.isWhiteSpace JS.isWhiteSpace2 JS.isWhiteSpace3 s).
  - split; [discriminate |]. intros _. apply H2. discriminate.
  - split; [auto | discriminate].
Qed.

Lemma trimEnd_fixed (s : string) :
  (JS.endsWithWhiteSpace s = false -> JS.trimEnd s = s)
  /\ (JS.endsWithWhiteSpace s = true ->
      String.length (JS.trimEnd s) < String.length s)
  /\ String.length (JS.trimEnd s) <= String.length s.
Proof.
  unfold JS.endsWithWhiteSpace, JS.trimEnd.
  destruct (strip_fixed JS.isWhiteSpace (fun c2 c1 => JS.isWhiteSpace2 c1 c2)
              (fun c3 c2 c1 => JS.isWhiteSpace3 c1 c2 c3) (JS.reverse s)) as [H1 H2].
  pose proof (strip_shorter JS.isWhiteSpace (fun c2 c1 => JS.isWhiteSpace2 c1 c2)
                (fun c3 c2 c1 => JS.isWhiteSpace3 c1 c2 c3) (JS.reverse s)) as H3.
  rewrite reverse_length in *.
  destruct (JS.leading JS.isWhiteSpace (fun c2 c1 => JS.isWhiteSpace2 c1 c2)
              (fun c3 c2 c1 => JS.isWhiteSpace3 c1 c2 c3) (JS.reverse s)).
  - split; [discriminate |]. split; [| exact H3]. intros _. apply H2. discriminate.
  - split; [| split; [discriminate | exact H3]].
    intros _. rewrite H1 by reflexivity. apply reverse_involutive.
Qed.

(** [s.trim() === s] says that [s] neither starts nor ends with white
    space. *)
Lemma trim_fixed (s : string) :
  JS.trim s = s
  <-> JS.startsWithWhiteSpace s = false /\ JS.endsWithWhiteSpace s = false.
Proof.
  unfold JS.trim. split.
  - intros H.
    destruct (trimStart_fixed s) as [Hs0 Hs1].
    destruct (trimEnd_fixed (JS.trimStart s)) as (_ & _ & Hle).
    destruct (JS.startsWithWhiteSpace s).
    + specialize (Hs1 eq_refl). rewrite H in Hle. lia.
    + split; [reflexivity |]. rewrite (Hs0 eq_refl) in H.
      destruct (trimEnd_fixed s) as (_ & He1 & _).
      destruct (JS.endsWithWhiteSpace s); [| reflexivity].
      specialize (He1 eq_refl). rewrite H in He1. lia.
  - intros [H1 H2].
    destruct (trimStart_fixed s) as [Hs0 _]. rewrite (Hs0 H1).
    destruct (trimEnd_fixed s) as (He0 & _). now apply He0.
Qed.

(** X1. [_checkRoleName] accepts exactly the strings that are not empty
    and neither start nor end with a white space character or a line
    terminator, those outside ASCII included; every other value, string or
    not, makes it throw the error that quotes the value as string
    concatenation prints it. *)
Theorem checkRoleName_accepts (v : JS.Val) :
  (_checkRoleName v = Return tt <-> wellFormedName v)
  /\ (_checkRoleName v = Return tt
      \/ _checkRoleName v = Throw (Error ("Invalid role name '" ++ JS.toString v ++ "'."))).
Proof.
  split.
  - unfold _checkRoleName, wellFormedName. split.
    + destruct v as [| | b | n | s]; simpl;
        try (destruct b); try (destruct (negb (n =? 0)%Z)); try discriminate.
      destruct (String.eqb s EmptyString) eqn:E; simpl; [discriminate |].
      destruct (String.eqb (JS.trim s) s) eqn:T; simpl; [| discriminate].
      intros _. exists s. apply String.eqb_neq in E. apply String.eqb_eq in T.
      apply trim_fixed in T. tauto.
    + intros (s & -> & Hne & Hf & Hl). simpl.
      apply String.eqb_neq in Hne. rewrite Hne. simpl.
      assert (T : JS.trim s = s) by (apply trim_fixed; auto).
      apply String.eqb_eq in T. now rewrite T.
  - unfold _checkRoleName. destruct (_ || _); auto.
Qed.

Lemma checkScopeName_wellFormed (v : JS.Val) :
  _checkScopeName v = Return tt <-> v = JS.Null \/ wellFormedName v.
Proof.
  unfold _checkScopeName, wellFormedName. split.
  - destruct v as [| | b | n | s]; simpl; auto;
      try (destruct b); try (destruct (negb (n =? 0)%Z)); try discriminate.
    destruct (String.eqb s EmptyString) eqn:E; simpl; [discriminate |].
    destruct (String.eqb (JS.trim s) s) eqn:T; simpl; [| discriminate].
    intros _. right. exists s. apply String.eqb_neq in E. apply String.eqb_eq in T.
    apply trim_fixed in T. tauto.
  - intros [-> | (s & -> & Hne & Hf & Hl)]; [reflexivity |]. simpl.
    apply String.eqb_neq in Hne. rewrite Hne. simpl.
    assert (T : JS.trim s = s) by (apply trim_fixed; auto).
    apply String.eqb_eq in T. now rewrite T.
Qed.

(** X2. Normalising options maps an absent, [undefined] or [null] scope
    to [null] and leaves every other scope alone; doing it twice is doing
    it once. The scope of normalised options passes [_checkScopeName]
    exactly when the scope given was absent, [null], [undefined] or a
    well-formed name, although [_checkScopeName(undefined)] itself throws. *)
Theorem normalizeOptions_scope (options : OptionsArg) :
  _normalizeOptions (OptionsObject (_normalizeOptions options)) = _normalizeOptions options
  /\ opt_scope (_normalizeOptions options) <> JS.Undefined
  /\ (forall v,
        _checkScopeName (_normalizeScopeName v) = Return tt
        <-> JS.isNullish v = true \/ wellFormedName v)
  /\ _checkScopeName JS.Undefined = Throw (Error "Invalid scope name 'undefined'.").
Proof.
  split; [| split; [| split]].
  - destruct options as [| | s | [sc a i u]]; try reflexivity.
    unfold _normalizeOptions. simpl. destruct sc; reflexivity.
  - destruct options as [| | s | [sc a i u]]; simpl; try discriminate.
    destruct sc; simpl; discriminate.
  - intros v. destruct v as [| | b | n | s]; simpl.
    + split; [auto | reflexivity].
    + split; [auto | reflexivity].
    + rewrite checkScopeName_wellFormed.
      split; intros [H | H]; try discriminate; auto.
    + rewrite checkScopeName_wellFormed.
      split; intros [H | H]; try discriminate; auto.
    + rewrite checkScopeName_wellFormed.
      split; intros [H | H]; try discriminate; auto.
  - reflexivity.
Qed.

(** ** Creating and renaming roles *)

Lemma matchesRole_byId (id : string) (r : RoleDoc) :
  Mongo.matchesRole (roleById id) r = true <-> role_id r = id.
Proof.
  unfold Mongo.matchesRole, roleById. simpl. rewrite andb_true_r. apply String.eqb_eq.
Qed.

Lemma find_role_none (st : Store) (id : string) :
  find (Mongo.matchesRole (roleById id)) (Meteor_roles st) = None <->
  ~ In id (map role_id (Meteor_roles st)).
Proof.
  split.
  - intros H Hin. apply in_map_iff in Hin. destruct Hin as (r & E & Hr).
    pose proof (find_none _ _ H r Hr) as Hm.
    apply matchesRole_byId in E. congruence.
  - intros H. destruct (find _ _) as [r |] eqn:E; auto.
    apply findOne_role_id in E. destruct E as [Hin <-]. exfalso. apply H. now apply in_map.
Qed.

(** X3. Whatever its arguments, [createRoleAsync] leaves the assignments
    alone and removes or alters no role document: the role store is as it
    was or has one more document, the role created, without children. When
    it returns an id, the id is the name and looking the name up finds
    that document; and role ids that were unique stay unique. *)
Theorem createRole_only_appends (roleName : string) (options : option Options) (st : Store) :
  let out := fst (createRoleAsync roleName options st) in
  let st' := snd (createRoleAsync roleName options st) in
  Meteor_roleAssignment st' = Meteor_roleAssignment st
  /\ nextId st' = nextId st
  /\ (Meteor_roles st' = Meteor_roles st
      \/ (Meteor_roles st' = Meteor_roles st ++ [mkRole roleName []]
          /\ out = Return (Some roleName)))
  /\ (forall id, out = Return (Some id) ->
        id = roleName
        /\ roles_findOneAsync (roleById roleName) st' = (Return (Some (mkRole roleName [])), st'))
  /\ (uniqueRoleIds st -> uniqueRoleIds st').
Proof.
  cbv zeta.
  destruct (_checkRoleName (JS.Str roleName)) as [[] | e] eqn:Hname.
  2:{ unfold createRoleAsync, bind, lift. rewrite Hname. simpl.
      split; [reflexivity |]. split; [reflexivity |]. split; [left; reflexivity |].
      split; [intros id H; discriminate | auto]. }
  destruct (find (Mongo.matchesRole (roleById roleName)) (Meteor_roles st)) as [rd |] eqn:Hfind.
  - rewrite (createRole_existing roleName options st rd Hname Hfind). simpl.
    split; [reflexivity |]. split; [reflexivity |]. split; [left; reflexivity |].
    split; [intros id H; discriminate | auto].
  - rewrite (createRole_fresh roleName options st Hname Hfind). simpl.
    split; [reflexivity |]. split; [reflexivity |]. split; [right; auto |]. split.
    + intros id H. inversion H; subst id. split; [reflexivity |].
      unfold roles_findOneAsync. simpl. rewrite find_last; auto.
      * intros d Hd. apply (find_none _ _ Hfind d Hd).
      * now apply matchesRole_byId.
    + unfold uniqueRoleIds. simpl. intros Hnd. rewrite map_app. simpl.
      apply NoDup_app; auto.
      * repeat constructor. simpl. tauto.
      * intros x Hx [<- | []]. now apply find_role_none in Hfind.
Qed.

Lemma createRole_only_appends_witness :
  uniqueRoleIds (snd (createRoleAsync "viewer" None adminOverEditor)).
Proof.
  apply (createRole_only_appends "viewer" None adminOverEditor).
  unfold uniqueRoleIds. vm_compute. repeat constructor; simpl; intuition discriminate.
Defined.

(** X4. [renameRoleAsync] with two different well-formed names refuses,
    whatever the fuel and without touching the store, when no role has the
    old name, with the error that the role does not exist, and when a role
    already has the new name, with the duplicate-key error of the insert. *)
Theorem renameRole_refuses (fuel : nat) (oldName newName : string) (st : Store) :
  _checkRoleName (JS.Str oldName) = Return tt ->
  _checkRoleName (JS.Str newName) = Return tt ->
  oldName <> newName ->
  (~ In oldName (map role_id (Meteor_roles st)) ->
   renameRoleAsync fuel oldName newName st
   = Some (Throw (Error ("Role '" ++ oldName ++ "' does not exist.")), st))
  /\ (In oldName (map role_id (Meteor_roles st)) ->
      In newName (map role_id (Meteor_roles st)) ->
      renameRoleAsync fuel oldName newName st = Some (Throw (DuplicateKey newName), st)).
Proof.
  intros Ho Hn Hne. apply String.eqb_neq in Hne.
  unfold renameRoleAsync, bindF, run, lift. rewrite Ho, Hn, Hne.
  unfold roles_findOneAsync. split.
  - intros Hmiss. apply find_role_none in Hmiss. now rewrite Hmiss.
  - intros Hold Hnew.
    destruct (find (Mongo.matchesRole (roleById oldName)) (Meteor_roles st)) as [rd |] eqn:E.
    + unfold roles_insertAsync. cbn [role_id].
      assert (Hex : existsb (fun r => String.eqb (role_id r) newName) (Meteor_roles st) = true).
      { apply existsb_exists. apply in_map_iff in Hnew. destruct Hnew as (r & Er & Hr).
        exists r. split; auto. now apply String.eqb_eq. }
      now rewrite Hex.
    + apply find_role_none in E. contradiction.
Qed.

Lemma renameRole_refuses_witness :
  renameRoleAsync 0 "viewer" "admin" adminOverEditor
  = Some (Throw (Error "Role 'viewer' does not exist."), adminOverEditor)
  /\ renameRoleAsync 0 "editor" "admin" adminOverEditor
     = Some (Throw (DuplicateKey "admin"), adminOverEditor).
Proof.
  split.
  - apply (renameRole_refuses 0 "viewer" "admin" adminOverEditor);
      try reflexivity; try discriminate.
    vm_compute. intuition discriminate.
  - apply (renameRole_refuses 0 "editor" "admin" adminOverEditor);
      try reflexivity; try discriminate; vm_compute; auto.
Defined.

(** ** Membership queries, in general *)

(** [userIsInRoleAsync] on any arguments: its guards, then one [existsb]
    per requested role over the assignments. *)
Lemma userIsInRole_unfolded (usr : UserArg) (rolesArg : OneOrMany JS.Val)
    (options : OptionsArg) (st : Store) :
  userIsInRoleAsync usr rolesArg options st
  = let o := _normalizeOptions options in
    let rs := filter (fun r => negb (JS.isNullish r)) (ensureArray rolesArg) in
    let id := guardedUserIdOf usr in
    if Nat.eqb (List.length rs) 0 then (Return false, st)
    else
      match _checkScopeName (opt_scope o) with
      | Throw e => (Throw e, st)
      | Return _ =>
          if negb (JS.truthy id) then (Return false, st)
          else if negb (JS.isString id) then (Return false, st)
          else
            (Return (existsb (fun r => existsb
                       (Mongo.matches (withInherited r (membershipSelector id o)))
                       (Meteor_roleAssignment st)) rs), st)
      end.
Proof.
  cbv zeta. unfold userIsInRoleAsync.
  destruct (Nat.eqb _ 0); [reflexivity |].
  unfold bind at 1, lift at 1.
  destruct (_checkScopeName (opt_scope (_normalizeOptions options))) as [[] | e];
    [| reflexivity].
  destruct (negb (JS.truthy (guardedUserIdOf usr))); [reflexivity |].
  destruct (negb (JS.isString (guardedUserIdOf usr))); [reflexivity |].
  apply asyncSome_hasRole.
Qed.

(** X5. [userIsInRoleAsync] never writes, and it reads the assignments
    only: whatever its arguments, it leaves the store as it was, and its
    outcome is the one it has on any store with the same assignments,
    whatever the roles of that store are. *)
Theorem userIsInRole_only_reads_assignments (usr : UserArg) (rolesArg : OneOrMany JS.Val)
    (options : OptionsArg) (st : Store) (otherRoles : list RoleDoc) (otherNextId : nat) :
  userIsInRoleAsync usr rolesArg options st
  = (fst (userIsInRoleAsync usr rolesArg options
            (mkStore otherRoles (Meteor_roleAssignment st) otherNextId)), st).
Proof.
  rewrite !userIsInRole_unfolded. cbv zeta.
  destruct (Nat.eqb _ 0); [reflexivity |].
  destruct (_checkScopeName _) as [[] | e]; [| reflexivity].
  destruct (negb (JS.truthy _)); [reflexivity |].
  destruct (negb (JS.isString _)); reflexivity.
Qed.

Lemma matches_membership (id : JS.Val) (o : Options) (r : string) (a : Assignment) :
  Mongo.matches (withInherited (JS.Str r) (membershipSelector id o)) a = true
  <-> user a = id
      /\ (anyScope o = true \/ scope a = scopeOf (opt_scope o) \/ scope a = None)
      /\ exists l, inheritedRoles a = Some l /\ In r l.
Proof.
  unfold membershipSelector, Mongo.matches. destruct (anyScope o); simpl.
  - rewrite !andb_true_r. rewrite andb_true_iff, strictEq_eq. split.
    + intros [Hu Hi]. split; auto. split; auto.
      destruct (inheritedRoles a) as [l |]; try discriminate.
      exists l. split; auto. now apply memStr_In.
    + intros (Hu & _ & l & Hl & Hin). split; auto. rewrite Hl. now apply memStr_In.
  - rewrite !andb_true_r, !orb_false_r. rewrite !andb_true_iff, strictEq_eq, orb_true_iff.
    rewrite !scope_eqb_eq. split.
    + intros [[Hu Hs] Hi]. split; auto. split; auto.
      destruct (inheritedRoles a) as [l |]; try discriminate.
      exists l. split; auto. now apply memStr_In.
    + intros (Hu & [Hf | Hs] & l & Hl & Hin); try discriminate.
      split; auto. rewrite Hl. now apply memStr_In.
Qed.

Lemma matches_membership_other (id : JS.Val) (o : Options) (v : JS.Val) (a : Assignment) :
  JS.isString v = false ->
  Mongo.matches (withInherited v (membershipSelector id o)) a = false.
Proof.
  intros Hv. unfold membershipSelector, Mongo.matches.
  destruct (anyScope o); simpl; destruct v; try discriminate;
    rewrite ?andb_false_r; reflexivity.
Qed.

(** The answer of [userIsInRoleAsync], when it gives one, in terms of the
    assignments. *)
Lemma userIsInRole_true_iff (usr : UserArg) (rolesArg : OneOrMany JS.Val)
    (options : OptionsArg) (st : Store) :
  userIsInRoleAsync usr rolesArg options st = (Return true, st)
  <-> _checkScopeName (opt_scope (_normalizeOptions options)) = Return tt
      /\ JS.truthy (guardedUserIdOf usr) = true
      /\ JS.isString (guardedUserIdOf usr) = true
      /\ exists r a,
           In (JS.Str r) (ensureArray rolesArg)
           /\ In a (Meteor_roleAssignment st)
           /\ user a = guardedUserIdOf usr
           /\ (anyScope (_normalizeOptions options) = true
               \/ scope a = scopeOf (opt_scope (_normalizeOptions options))
               \/ scope a = None)
           /\ exists l, inheritedRoles a = Some l /\ In r l.
Proof.
  rewrite userIsInRole_unfolded. cbv zeta.
  set (rs := filter (fun r => negb (JS.isNullish r)) (ensureArray rolesArg)).
  assert (Hex : existsb (fun r => existsb
                  (Mongo.matches (withInherited r
                     (membershipSelector (guardedUserIdOf usr) (_normalizeOptions options))))
                  (Meteor_roleAssignment st)) rs = true
                <-> exists r a,
                      In (JS.Str r) (ensureArray rolesArg)
                      /\ In a (Meteor_roleAssignment st)
                      /\ user a = guardedUserIdOf usr
                      /\ (anyScope (_normalizeOptions options) = true
                          \/ scope a = scopeOf (opt_scope (_normalizeOptions options))
                          \/ scope a = None)
                      /\ exists l, inheritedRoles a = Some l /\ In r l).
  { rewrite existsb_exists. split.
    - intros (v & Hv & Hm). apply existsb_exists in Hm. destruct Hm as (a & Ha & Hm).
      apply filter_In in Hv. destruct Hv as [Hv _].
      destruct (JS.isString v) eqn:Es.
      + destruct v; try discriminate. apply matches_membership in Hm.
        exists s, a. tauto.
      + rewrite matches_membership_other in Hm by assumption. discriminate.
    - intros (r & a & Hr & Ha & Hm). exists (JS.Str r). split.
      + apply filter_In. split; auto.
      + apply existsb_exists. exists a. split; auto. apply matches_membership. tauto. }
  destruct (Nat.eqb (List.length rs) 0) eqn:El.
  - split; [discriminate |]. intros (_ & _ & _ & r & a & Hr & _).
    assert (Hin : In (JS.Str r) rs) by (apply filter_In; split; auto).
    destruct rs; [destruct Hin | discriminate].
  - destruct (_checkScopeName _) as [[] | e].
    + destruct (JS.truthy (guardedUserIdOf usr)); simpl.
      * destruct (JS.isString (guardedUserIdOf usr)); simpl.
        -- split.
           ++ intros H. inversion H as [H']. rewrite H'. apply Hex in H'. tauto.
           ++ intros (_ & _ & _ & H). apply Hex in H. now rewrite H.
        -- split; [discriminate | intros (_ & _ & H & _); discriminate].
      * split; [discriminate | intros (_ & H & _); discriminate].
    + split; [discriminate | intros (H & _); discriminate].
Qed.

(** X6. What holds in the global scope holds in every scope, and what
    holds in a scope holds with [anyScope]: when [userIsInRoleAsync]
    answers [true] for the global scope it answers [true] for each
    well-formed scope name, and when it answers [true] for some options it
    answers [true] for the same options with [anyScope] set. *)
Theorem userIsInRole_scope_monotone (usr : UserArg) (rolesArg : OneOrMany JS.Val)
    (o : Options) (st : Store) :
  (userIsInRoleAsync usr rolesArg OptionsNull st = (Return true, st) ->
   forall s, _checkScopeName (JS.Str s) = Return tt ->
     userIsInRoleAsync usr rolesArg (OptionsString s) st = (Return true, st))
  /\ (userIsInRoleAsync usr rolesArg (OptionsObject o) st = (Return true, st) ->
      userIsInRoleAsync usr rolesArg
        (OptionsObject (mkOptions (opt_scope o) true (ifExists o) (unlessExists o))) st
      = (Return true, st)).
Proof.
  split.
  - intros H s Hs. apply userIsInRole_true_iff in H. apply userIsInRole_true_iff.
    destruct H as (_ & Ht & Hstr & r & a & Hr & Ha & Hu & Hsc & Hl).
    split; [exact Hs |]. split; [exact Ht |]. split; [exact Hstr |].
    exists r, a. repeat split; auto.
    simpl in Hsc. destruct Hsc as [Hf | [Hn | Hn]]; [discriminate | |]; auto.
  - intros H. apply userIsInRole_true_iff in H. apply userIsInRole_true_iff.
    destruct H as (Hs & Ht & Hstr & r & a & Hr & Ha & Hu & Hsc & Hl).
    split; [exact Hs |]. split; [exact Ht |]. split; [exact Hstr |].
    exists r, a. repeat split; auto.
Qed.

Lemma userIsInRole_scope_monotone_witness :
  userIsInRoleAsync (UserVal (JS.Str "u1")) (One (JS.Str "admin")) (OptionsString "s1")
    adminAssigned
  = (Return true, adminAssigned).
Proof.
  apply (userIsInRole_scope_monotone (UserVal (JS.Str "u1")) (One (JS.Str "admin"))
           (mkOptions JS.Null false false false) adminAssigned);
    reflexivity.
Defined.

(** ** What the mutations keep *)

Lemma keeps_ret {A : Type} (P : Store -> Prop) (a : A) : keeps P (ret a).
Proof. intros st H. exact H. Qed.

Lemma keeps_throw {A : Type} (P : Store -> Prop) (e : Exception) : keeps P (@throw A e).
Proof. intros st H. exact H. Qed.

Lemma keeps_lift {A : Type} (P : Store -> Prop) (o : Outcome A) : keeps P (lift o).
Proof. intros st H. exact H. Qed.

Lemma keeps_bind {A B : Type} (P : Store -> Prop) (m : Async A) (k : A -> Async B) :
  keeps P m -> (forall a, keeps P (k a)) -> keeps P (bind m k).
Proof.
  intros Hm Hk st H. unfold bind. specialize (Hm st H).
  destruct (m st) as [[a | e] st']; simpl in *; [now apply Hk | exact Hm].
Qed.

Lemma keeps_forOf {A : Type} (P : Store -> Prop) (xs : list A) (body : A -> Async unit) :
  (forall x, keeps P (body x)) -> keeps P (forOf xs body).
Proof.
  intros Hbody. induction xs as [| x xs IH]; simpl.
  - apply keeps_ret.
  - apply keeps_bind; auto.
Qed.

Lemma keeps_forOfFlow {A : Type} (P : Store -> Prop) (xs : list A) (body : A -> Async Flow) :
  (forall x, keeps P (body x)) -> keeps P (forOfFlow xs body).
Proof.
  intros Hbody. induction xs as [| x xs IH]; simpl.
  - apply keeps_ret.
  - apply keeps_bind; auto. intros [|]; [exact IH | apply keeps_ret].
Qed.

Lemma keeps_reads {A : Type} (P : Store -> Prop) (m : Async A) :
  (forall st, snd (m st) = st) -> keeps P m.
Proof. intros Hm st H. now rewrite Hm. Qed.

Create HintDb keeps.
#[local] Hint Resolve keeps_ret keeps_throw keeps_lift : keeps.

Lemma update_members {D : Type} (sel : D -> bool) (f : D -> D) (multi : bool)
    (docs : list D) (x : D) :
  In x (fst (Mongo.update sel f multi docs)) ->
  In x docs \/ exists d, In d docs /\ sel d = true /\ x = f d.
Proof.
  induction docs as [| d docs IH]; simpl; [tauto |].
  destruct (sel d) eqn:E.
  - destruct multi.
    + destruct (Mongo.update sel f true docs) as [rest n]. simpl in *.
      intros [<- | H].
      * right. exists d. auto.
      * destruct (IH H) as [H' | (d' & Hd' & Hs & ->)]; auto.
        right. exists d'. auto.
    + simpl. intros [<- | H]; auto. right. exists d. auto.
  - destruct (Mongo.update sel f multi docs) as [rest n]. simpl in *.
    intros [<- | H]; auto.
    destruct (IH H) as [H' | (d' & Hd' & Hs & ->)]; auto.
    right. exists d'. auto.
Qed.

(** An update of the assignments keeps the store consistent as long as
    the documents it rewrites still list their own role. *)
Lemma keeps_assignment_update (q : Mongo.Selector) (m : Mongo.Modifier) (multi : bool) :
  (forall a, Mongo.matches q a = true ->
     (exists l, inheritedRoles a = Some l /\ In (role a) l) ->
     exists l, inheritedRoles (Mongo.applyModifier q m a) = Some l
               /\ In (role (Mongo.applyModifier q m a)) l) ->
  keeps consistent (roleAssignment_updateAsync q m multi).
Proof.
  intros Hm st ([Hnd Hlt] & Hu & Hs). unfold roleAssignment_updateAsync.
  destruct (Mongo.update _ _ multi (Meteor_roleAssignment st)) as [docs n] eqn:U.
  assert (Hdocs : docs = fst (Mongo.update (Mongo.matches q) (Mongo.applyModifier q m)
                                multi (Meteor_roleAssignment st))) by now rewrite U.
  simpl. split; [split |]; simpl.
  - rewrite Hdocs, update_keeps_key; auto. intros d. apply applyModifier_keeps_id.
  - intros a Ha. rewrite Hdocs in Ha. apply update_members in Ha.
    destruct Ha as [Ha | (d & Hd & _ & ->)]; auto.
    rewrite applyModifier_keeps_id. auto.
  - split; [exact Hu |]. intros a Ha. simpl in Ha. rewrite Hdocs in Ha.
    apply update_members in Ha. destruct Ha as [Ha | (d & Hd & Hsel & ->)]; auto.
Qed.

Lemma keeps_assignment_remove (q : Mongo.Selector) :
  keeps consistent (roleAssignment_removeAsync q).
Proof.
  intros st (Hwf & Hu & Hs). unfold roleAssignment_removeAsync. simpl.
  split; [now apply wfStore_remove |]. split; [exact Hu |].
  intros a Ha. simpl in Ha. apply filter_In in Ha. apply Hs. tauto.
Qed.

(** An update of the roles that keeps the ids keeps the store consistent. *)
Lemma keeps_role_update (sel : RoleDoc -> bool) (f : RoleDoc -> RoleDoc) (multi : bool) :
  (forall d, role_id (f d) = role_id d) ->
  forall st, consistent st ->
    consistent (mkStore (fst (Mongo.update sel f multi (Meteor_roles st)))
                  (Meteor_roleAssignment st) (nextId st)).
Proof.
  intros Hf st (Hwf & Hu & Hs). split; [exact Hwf |]. split; [| exact Hs].
  unfold uniqueRoleIds. simpl. now rewrite update_keeps_key.
Qed.

Lemma keeps_roles_updateAsync (q : Mongo.RoleSelector) (m : Mongo.RoleModifier) (multi : bool) :
  keeps consistent (roles_updateAsync q m multi).
Proof.
  intros st H. unfold roles_updateAsync.
  pose proof (keeps_role_update (Mongo.matchesRole q) (Mongo.applyRoleModifier q m) multi) as K.
  destruct (Mongo.update _ _ multi (Meteor_roles st)) as [docs n] eqn:U. simpl.
  replace docs with (fst (Mongo.update (Mongo.matchesRole q) (Mongo.applyRoleModifier q m)
                            multi (Meteor_roles st))) by now rewrite U.
  apply K; auto. intros d. destruct m; simpl; auto.
  destruct (Mongo.rs_children_id q) as [[|] |]; reflexivity.
Qed.

Lemma keeps_roles_pullChildAsync (q : Mongo.RoleSelector) (id : string) :
  keeps consistent (roles_pullChildAsync q id).
Proof.
  intros st H. unfold roles_pullChildAsync.
  pose proof (keeps_role_update (Mongo.matchesRole q) (pullChild id) false) as K.
  destruct (Mongo.update _ _ false (Meteor_roles st)) as [docs n] eqn:U. simpl.
  replace docs with (fst (Mongo.update (Mongo.matchesRole q) (pullChild id)
                            false (Meteor_roles st))) by now rewrite U.
  apply K; auto.
Qed.

Lemma keeps_roles_findOneAsync (P : Store -> Prop) (q : Mongo.RoleSelector) :
  keeps P (roles_findOneAsync q).
Proof. apply keeps_reads. reflexivity. Qed.

Lemma keeps_roles_fetchAsync (P : Store -> Prop) (sel : RoleDoc -> bool) :
  keeps P (roles_fetchAsync sel).
Proof. apply keeps_reads. reflexivity. Qed.

Lemma keeps_roleAssignment_findOneAsync (P : Store -> Prop) (q : Mongo.Selector) :
  keeps P (roleAssignment_findOneAsync q).
Proof. apply keeps_reads. reflexivity. Qed.

Lemma keeps_getInheritedRoleNames (P : Store -> Prop) (r : RoleDoc) :
  keeps P (_getInheritedRoleNamesAsync r).
Proof. apply keeps_reads. reflexivity. Qed.

#[local] Hint Resolve keeps_assignment_remove keeps_roles_updateAsync
  keeps_roles_pullChildAsync keeps_roles_findOneAsync keeps_roles_fetchAsync
  keeps_roleAssignment_findOneAsync keeps_getInheritedRoleNames : keeps.

(** Splits a call into its awaited steps, down to the store's own calls. *)
Ltac keeps_steps :=
  repeat first
    [ apply keeps_ret | apply keeps_throw | apply keeps_lift
    | solve [auto with keeps]
    | apply keeps_bind; [| intros ?]
    | apply keeps_forOf; intros ?
    | apply keeps_forOfFlow; intros ?
    | match goal with
      | |- keeps _ (if ?b then _ else _) => destruct b
      | |- keeps _ (match ?x with _ => _ end) => destruct x
      end ].

Lemma keeps_roles_insertAsync (d : RoleDoc) : keeps consistent (roles_insertAsync d).
Proof.
  intros st (Hwf & Hu & Hs). unfold roles_insertAsync.
  destruct (existsb _ (Meteor_roles st)) eqn:E; simpl; [repeat split; auto; apply Hwf |].
  split; [exact Hwf |]. split; [| exact Hs].
  unfold uniqueRoleIds. simpl. rewrite map_app. simpl. apply NoDup_app; auto.
  - repeat constructor. simpl. tauto.
  - intros x Hx [<- | []]. apply in_map_iff in Hx. destruct Hx as (r & Er & Hr).
    assert (Hex : existsb (fun r => String.eqb (role_id r) (role_id d)) (Meteor_roles st) = true).
    { apply existsb_exists. exists r. split; auto. now apply String.eqb_eq. }
    congruence.
Qed.

Lemma keeps_createRole (roleName : string) (options : option Options) :
  keeps consistent (createRoleAsync roleName options).
Proof.
  unfold createRoleAsync. pose proof keeps_roles_insertAsync. keeps_steps.
Qed.

Lemma keeps_push_inherited (parentName : string) (l : list string) :
  keeps consistent
    (roleAssignment_updateAsync (byInherited parentName) (Mongo.PushInheritedRoles l) true).
Proof.
  apply keeps_assignment_update. intros a _ (old & E & Hin). simpl. rewrite E.
  eexists. split; [reflexivity |]. apply in_or_app. auto.
Qed.

Lemma keeps_addRoleToParent (roleName parentName : string) :
  keeps consistent (_addRoleToParentAsync roleName parentName).
Proof.
  unfold _addRoleToParentAsync. pose proof keeps_push_inherited. keeps_steps.
Qed.

(** The store a call of [_addUserToRoleAsync] leaves: the one it ran on,
    or that one with the new assignment. *)
Lemma addUserToRoleAsync_store (u : JS.Val) (r : string) (o : Options) (st : Store) :
  wfStore st ->
  (snd (_addUserToRoleAsync u r o st) = st
   /\ forall res, fst (_addUserToRoleAsync u r o st) = Return res ->
        JS.truthy u = true ->
        In r (map role_id (Meteor_roles st)) ->
        exists ex, find (Mongo.matches (byTriple u r (scopeOf (opt_scope o))))
                     (Meteor_roleAssignment st) = Some ex)
  \/ (snd (_addUserToRoleAsync u r o st) = granted st u r (scopeOf (opt_scope o)) [r]
      /\ (exists res, fst (_addUserToRoleAsync u r o st) = Return res)
      /\ JS.truthy u = true
      /\ In r (map role_id (Meteor_roles st))
      /\ find (Mongo.matches (byTriple u r (scopeOf (opt_scope o))))
           (Meteor_roleAssignment st) = None).
Proof.
  intros Hwf.
  destruct (_checkRoleName (JS.Str r)) as [[] | e] eqn:Hr.
  2:{ left. unfold _addUserToRoleAsync, bind, lift. rewrite Hr. simpl.
      split; [reflexivity | discriminate]. }
  destruct (_checkScopeName (opt_scope o)) as [[] | e] eqn:Hs.
  2:{ left. unfold _addUserToRoleAsync, bind, lift. rewrite Hr, Hs. simpl.
      split; [reflexivity | discriminate]. }
  destruct (JS.truthy u) eqn:Hu.
  2:{ left. unfold _addUserToRoleAsync, bind, lift. rewrite Hr, Hs, Hu. simpl.
      split; [reflexivity | discriminate]. }
  destruct (find (Mongo.matchesRole (roleById r)) (Meteor_roles st)) as [rd |] eqn:Hrole.
  2:{ left. unfold _addUserToRoleAsync, bind, lift. rewrite Hr, Hs, Hu.
      cbn [negb]. cbv beta iota. unfold roles_findOneAsync. rewrite Hrole.
      apply find_role_none in Hrole.
      destruct (ifExists o); simpl; (split; [reflexivity | intros; contradiction]). }
  assert (Hin : In r (map role_id (Meteor_roles st))).
  { apply findOne_role_id in Hrole. destruct Hrole as [Hin <-]. now apply in_map. }
  destruct (find (Mongo.matches (byTriple u r (scopeOf (opt_scope o))))
              (Meteor_roleAssignment st)) as [ex |] eqn:Hex.
  - left. rewrite (addUserToRoleAsync_existing u r o st rd ex) by assumption. simpl.
    split; [reflexivity |]. intros. now exists ex.
  - right. rewrite (addUserToRoleAsync_fresh u r o st rd) by assumption. simpl.
    split; [reflexivity |]. split; [eexists; reflexivity |]. auto.
Qed.

Lemma consistent_granted (st : Store) (u : JS.Val) (r : string) (s : option string)
    (l : list string) :
  In r l -> consistent st -> consistent (granted st u r s l).
Proof.
  intros Hin (Hwf & Hu & Hs). split; [now apply wfStore_insert |]. split; [exact Hu |].
  intros a Ha. unfold granted in Ha. simpl in Ha. apply in_app_or in Ha.
  destruct Ha as [Ha | [<- | []]]; auto. simpl. eauto.
Qed.

Lemma keeps_addUserToRole (u : JS.Val) (r : string) (o : Options) :
  keeps consistent (_addUserToRoleAsync u r o).
Proof.
  intros st H. destruct (addUserToRoleAsync_store u r o st) as [[E _] | [E _]];
    [apply H | | ]; rewrite E; auto.
  apply consistent_granted; simpl; auto.
Qed.

Lemma keeps_removeUserFromRole (u : JS.Val) (r : string) (o : Options) :
  keeps consistent (_removeUserFromRoleAsync u r o).
Proof. unfold _removeUserFromRoleAsync. keeps_steps. Qed.

Lemma parentRoles_loop_reads (turns : nat) (parentRoles : list string) (i : nat) (st : Store) :
  snd (parentRoles_loop turns parentRoles i st) = st.
Proof.
  revert parentRoles i. induction turns as [| turns IH]; intros parentRoles i; simpl; auto.
  destruct (nth_error parentRoles i); simpl; auto.
  unfold bind, roles_fetchAsync. apply IH.
Qed.

Lemma getParentRoleNames_reads (role : option RoleDoc) (st : Store) :
  snd (_getParentRoleNamesAsync role st) = st.
Proof.
  destruct role as [role |]; [| reflexivity]. unfold _getParentRoleNamesAsync, bind.
  pose proof (parentRoles_loop_reads (S (List.length (Meteor_roles st))) [role_id role] 0 st) as H.
  destruct (parentRoles_loop (S (List.length (Meteor_roles st))) [role_id role] 0 st)
    as [[l | e] st']; unfold ret; cbn [snd] in *; auto.
Qed.

Lemma matches_role_inherited (r x : string) (a : Assignment) :
  Mongo.matches (Mongo.mkSelector None None (Some r) None (Some (JS.Str x))) a = true
  <-> role a = r /\ exists l, inheritedRoles a = Some l /\ In x l.
Proof.
  unfold Mongo.matches. simpl. rewrite andb_true_r, andb_true_iff, String.eqb_eq.
  destruct (inheritedRoles a) as [l |].
  - rewrite memStr_In. split.
    + intros [Hr Hin]. split; auto. now exists l.
    + intros [Hr (l' & E & Hin)]. inversion E; subst. auto.
  - split; [intros [_ H]; discriminate | intros [_ (l & E & _)]; discriminate].
Qed.

Lemma keeps_recompute (r : string) (removed : string) (l : list string) :
  keeps consistent
    (roleAssignment_updateAsync
       (Mongo.mkSelector None None (Some r) None (Some (JS.Str removed)))
       (Mongo.SetInheritedRoles (r :: l)) true).
Proof.
  apply keeps_assignment_update. intros a Hm _. simpl.
  eexists. split; [reflexivity |].
  apply matches_role_inherited in Hm. destruct Hm as [Hr _]. left. auto.
Qed.

Lemma keeps_removeRoleFromParent (roleName parentName : string) :
  keeps consistent (_removeRoleFromParentAsync roleName parentName).
Proof.
  unfold _removeRoleFromParentAsync.
  pose proof keeps_recompute.
  pose proof (fun role => keeps_reads consistent (_getParentRoleNamesAsync role)
                            (getParentRoleNames_reads role)).
  keeps_steps.
Qed.

Lemma doWhile_keeps (P : Store -> Prop) (body : Async nat) :
  keeps P body ->
  forall fuel st r, P st -> doWhile fuel body st = Some r -> P (snd r).
Proof.
  intros Hbody. induction fuel as [| fuel IH]; intros st r H; simpl; [discriminate |].
  specialize (Hbody st H). destruct (body st) as [[n | e] st']; simpl in *.
  - destruct (Nat.ltb 0 n).
    + now apply IH.
    + intros E. inversion E. auto.
  - intros E. inversion E. auto.
Qed.

Lemma consistent_emptyStore : consistent emptyStore.
Proof.
  split; [split |]; simpl; [constructor | intros a [] |].
  split; [constructor | intros a []].
Qed.

Lemma consistent_adminAssigned : consistent adminAssigned.
Proof.
  split; [split |].
  - vm_compute. repeat constructor. simpl. tauto.
  - intros a Ha. vm_compute in Ha. destruct Ha as [<- | []]. simpl. lia.
  - split.
    + unfold uniqueRoleIds. vm_compute. repeat constructor; simpl; intuition discriminate.
    + intros a Ha. vm_compute in Ha. destruct Ha as [<- | []].
      exists ["admin"]. simpl. auto.
Qed.

(** X7. The operations on the role hierarchy keep a store consistent:
    after [createRole], [addRolesToParent] and [removeRolesFromParent],
    whether they return or throw part of the way, assignment ids are still
    unique and below the next id, role ids are still unique, and every
    assignment still lists its own role in [inheritedRoles]. *)
Theorem hierarchy_operations_keep_consistency (st : Store) :
  consistent st ->
  (forall roleName options, consistent (snd (createRoleAsync roleName options st)))
  /\ (forall rolesNames parentName,
        consistent (snd (addRolesToParentAsync rolesNames parentName st)))
  /\ (forall rolesNames parentName,
        consistent (snd (removeRolesFromParentAsync rolesNames parentName st))).
Proof.
  intros H. split; [| split].
  - intros roleName options. now apply keeps_createRole.
  - intros rolesNames parentName. unfold addRolesToParentAsync.
    apply keeps_forOf; auto. intros r. apply keeps_addRoleToParent.
  - intros rolesNames parentName. unfold removeRolesFromParentAsync.
    apply keeps_forOf; auto. intros r. apply keeps_removeRoleFromParent.
Qed.

Lemma hierarchy_operations_keep_consistency_witness :
  consistent (snd (addRolesToParentAsync (Many ["editor"; "viewer"]) "admin"
                     (snd (createRoleAsync "admin" None emptyStore)))).
Proof.
  apply (hierarchy_operations_keep_consistency (snd (createRoleAsync "admin" None emptyStore))).
  apply (hierarchy_operations_keep_consistency emptyStore).
  apply consistent_emptyStore.
Defined.

(** X8. The operations on assignments keep a store consistent:
    [addUsersToRoles], [removeUsersFromRoles] and [removeScope], whether
    they return or throw part of the way, and [renameScope] whenever it
    ends. *)
Theorem assignment_operations_keep_consistency (st : Store) :
  consistent st ->
  (forall users roles options,
     consistent (snd (addUsersToRolesAsync users roles options st)))
  /\ (forall users roles options,
        consistent (snd (removeUsersFromRolesAsync users roles options st)))
  /\ (forall name, consistent (snd (removeScopeAsync name st)))
  /\ (forall fuel oldName newName result,
        renameScopeAsync fuel oldName newName st = Some result ->
        consistent (snd result)).
Proof.
  intros H. split; [| split; [| split]].
  - intros users roles options. revert st H. change (keeps consistent
      (addUsersToRolesAsync users roles options)).
    unfold addUsersToRolesAsync. pose proof keeps_addUserToRole. keeps_steps.
  - intros users roles options. revert st H. change (keeps consistent
      (removeUsersFromRolesAsync users roles options)).
    unfold removeUsersFromRolesAsync. pose proof keeps_removeUserFromRole. keeps_steps.
  - intros name. revert st H. change (keeps consistent (removeScopeAsync name)).
    unfold removeScopeAsync. keeps_steps.
  - intros fuel oldName newName result. unfold renameScopeAsync, bindF, run, lift.
    destruct (_checkScopeName oldName) as [[] | e]; [| intros E; inversion E; auto].
    destruct (_checkScopeName newName) as [[] | e]; [| intros E; inversion E; auto].
    destruct (JS.strictEq oldName newName); [intros E; inversion E; auto |].
    apply doWhile_keeps; auto.
    apply keeps_assignment_update. intros a _ Hl. exact Hl.
Qed.

Lemma assignment_operations_keep_consistency_witness :
  consistent (snd (addUsersToRolesAsync (One (UserVal (JS.Str "u1")))
                     (Many ["admin"; "editor"]) (OptionsString "s1")
                     (snd (createRoleAsync "admin" None emptyStore)))).
Proof.
  apply (assignment_operations_keep_consistency (snd (createRoleAsync "admin" None emptyStore))).
  apply keeps_createRole. apply consistent_emptyStore.
Defined.

(** ** Granting, checking and revoking *)

(** [addUsersToRoles(user, role, options)] for one user and one role is
    one call of [_addUserToRoleAsync]. *)
Lemma addUsersToRoles_one (usr : UserArg) (u : JS.Val) (r : string) (options : OptionsArg)
    (st : Store) :
  userIdOf usr = Return u -> JS.truthy u = true -> r <> EmptyString ->
  _checkScopeName (opt_scope (_normalizeOptions options)) = Return tt ->
  addUsersToRolesAsync (One usr) (One r) options st
  = (match fst (_addUserToRoleAsync u r (_normalizeOptions options) st) with
     | Return _ => Return tt
     | Throw e => Throw e
     end,
     snd (_addUserToRoleAsync u r (_normalizeOptions options) st)).
Proof.
  intros Hid Hu Hr Hs. unfold addUsersToRolesAsync.
  assert (Hut : usersTruthy (One usr) = true).
  { destruct usr as [v | i]; simpl in *; auto. destruct v; inversion Hid; subst; auto. }
  assert (Hnt : namesTruthy (One r) = true).
  { simpl. apply String.eqb_neq in Hr. now rewrite Hr. }
  rewrite Hut, Hnt. cbn [negb ensureArray forOf]. unfold bind, lift. rewrite Hs, Hid.
  destruct (_addUserToRoleAsync u r (_normalizeOptions options) st) as [[res | e] st'];
    reflexivity.
Qed.

(** [removeUsersFromRoles(user, role, options)] for one user and one role
    is one call of [_removeUserFromRoleAsync]. *)
Lemma removeUsersFromRoles_one (usr : UserArg) (u : JS.Val) (r : string)
    (options : OptionsArg) (st : Store) :
  userIdOf usr = Return u -> JS.truthy u = true -> r <> EmptyString ->
  _checkScopeName (opt_scope (_normalizeOptions options)) = Return tt ->
  removeUsersFromRolesAsync (One usr) (One r) options st
  = _removeUserFromRoleAsync u r (_normalizeOptions options) st.
Proof.
  intros Hid Hu Hr Hs. unfold removeUsersFromRolesAsync.
  assert (Hut : usersTruthy (One usr) = true).
  { destruct usr as [v | i]; simpl in *; auto. destruct v; inversion Hid; subst; auto. }
  assert (Hut' : userTruthy usr = true).
  { destruct usr as [v | i]; simpl in *; auto. }
  assert (Hnt : namesTruthy (One r) = true).
  { simpl. apply String.eqb_neq in Hr. now rewrite Hr. }
  rewrite Hut, Hnt. cbn [negb ensureArray forOf forOfFlow]. unfold bind, lift.
  rewrite Hs, Hut', Hid. cbn [negb].
  destruct (_removeUserFromRoleAsync u r (_normalizeOptions options) st) as [[[] | e] st'];
    reflexivity.
Qed.

Lemma stringId_userIdOf (usr : UserArg) (id : string) :
  guardedUserIdOf usr = JS.Str id -> userIdOf usr = Return (JS.Str id).
Proof. destruct usr as [v | i]; simpl; intros ->; reflexivity. Qed.

Lemma nonempty_truthy (id : string) : id <> EmptyString -> JS.truthy (JS.Str id) = true.
Proof. intros H. simpl. apply String.eqb_neq in H. now rewrite H. Qed.

Lemma checkScopeName_normalized (v : JS.Val) :
  _checkScopeName v = Return tt -> _checkScopeName (_normalizeScopeName v) = Return tt.
Proof. destruct v; simpl; auto. Qed.

(** X9. Granting makes the check succeed. On a consistent store, once
    [addUsersToRoles(user, role, options)] has returned for a user given
    by a non-empty string id and a role that exists, [userIsInRole(user,
    role, options)] with the same options answers [true], and so it does
    with [anyScope] set; and when the grant was for the global scope, the
    check answers [true] for every well-formed scope name. *)
Theorem grant_then_check (usr : UserArg) (id r : string) (options : OptionsArg)
    (st st1 : Store) :
  consistent st ->
  guardedUserIdOf usr = JS.Str id -> id <> EmptyString ->
  In r (map role_id (Meteor_roles st)) ->
  addUsersToRolesAsync (One usr) (One r) options st = (Return tt, st1) ->
  let o := _normalizeOptions options in
  userIsInRoleAsync usr (One (JS.Str r)) options st1 = (Return true, st1)
  /\ userIsInRoleAsync usr (One (JS.Str r))
       (OptionsObject (mkOptions (opt_scope o) true false false)) st1 = (Return true, st1)
  /\ (opt_scope o = JS.Null ->
      forall s, _checkScopeName (JS.Str s) = Return tt ->
        userIsInRoleAsync usr (One (JS.Str r)) (OptionsString s) st1 = (Return true, st1)).
Proof.
  intros (Hwf & _ & Hself) Hid Hne Hrole Hrun o.
  pose proof (stringId_userIdOf usr id Hid) as HidOf.
  pose proof (nonempty_truthy id Hne) as Ht.
  assert (Hscope : _checkScopeName (opt_scope o) = Return tt).
  { unfold addUsersToRolesAsync in Hrun.
    destruct (negb (usersTruthy (One usr))); [discriminate |].
    destruct (negb (namesTruthy (One r))); [discriminate |].
    unfold bind at 1, lift at 1 in Hrun. fold o in Hrun.
    destruct (_checkScopeName (opt_scope o)) as [[] | e]; [reflexivity | discriminate]. }
  assert (Hr : r <> EmptyString).
  { intros ->. unfold addUsersToRolesAsync in Hrun.
    destruct (negb (usersTruthy (One usr))); discriminate. }
  rewrite (addUsersToRoles_one usr (JS.Str id) r options st HidOf Ht Hr Hscope) in Hrun.
  fold o in Hrun.
  assert (Hgranted : exists a, In a (Meteor_roleAssignment st1)
                       /\ user a = JS.Str id /\ scope a = scopeOf (opt_scope o)
                       /\ exists l, inheritedRoles a = Some l /\ In r l).
  { pose proof (f_equal fst Hrun) as Hfst. pose proof (f_equal snd Hrun) as Est.
    cbn [fst snd] in Hfst, Est.
    destruct (addUserToRoleAsync_store (JS.Str id) r o st Hwf) as [[E Hex] | (E & _)].
    - destruct (fst (_addUserToRoleAsync (JS.Str id) r o st)) as [res | e] eqn:Ef;
        [| discriminate].
      destruct (Hex res eq_refl Ht Hrole) as [ex Hfind].
      apply find_some in Hfind. destruct Hfind as [Hin Hm].
      apply matches_byTriple in Hm. destruct Hm as (Eu & Er & Es).
      exists ex. rewrite <- Est, E.
      split; auto. split; auto. split; auto.
      destruct (Hself ex Hin) as (l & El & Hl). exists l. rewrite <- Er. auto.
    - exists (mkAssignment (nextId st) (JS.Str id) r (scopeOf (opt_scope o)) (Some [r])).
      rewrite <- Est, E. unfold granted. simpl.
      split; [apply in_or_app; right; simpl; auto |].
      split; auto. split; auto. exists [r]. simpl. auto. }
  destruct Hgranted as (a & Ha & Eu & Es & Hl).
  assert (Hstr : JS.isString (guardedUserIdOf usr) = true) by now rewrite Hid.
  assert (Htr : JS.truthy (guardedUserIdOf usr) = true) by now rewrite Hid.
  split; [| split].
  - apply userIsInRole_true_iff. fold o. split; [exact Hscope |].
    split; [exact Htr |]. split; [exact Hstr |].
    exists r, a. simpl. rewrite Hid. repeat split; auto.
  - apply userIsInRole_true_iff. split.
    + cbn [_normalizeOptions opt_scope]. now apply checkScopeName_normalized.
    + split; [exact Htr |]. split; [exact Hstr |].
      exists r, a. simpl. rewrite Hid. repeat split; auto.
  - intros Hnull s Hs. apply userIsInRole_true_iff. split; [exact Hs |].
    split; [exact Htr |]. split; [exact Hstr |].
    exists r, a. simpl. rewrite Hid. repeat split; auto.
    right. right. rewrite Es, Hnull. reflexivity.
Qed.

Lemma grant_then_check_witness :
  userIsInRoleAsync (UserObj (JS.Str "u2")) (One (JS.Str "editor")) (OptionsString "s1")
    (snd (addUsersToRolesAsync (One (UserObj (JS.Str "u2"))) (One "editor")
            (OptionsString "s1") adminAssigned))
  = (Return true,
     snd (addUsersToRolesAsync (One (UserObj (JS.Str "u2"))) (One "editor")
            (OptionsString "s1") adminAssigned)).
Proof.
  destruct (grant_then_check (UserObj (JS.Str "u2")) "u2" "editor" (OptionsString "s1")
              adminAssigned
              (snd (addUsersToRolesAsync (One (UserObj (JS.Str "u2"))) (One "editor")
                      (OptionsString "s1") adminAssigned)))
    as (Hcheck & _).
  - apply consistent_adminAssigned.
  - reflexivity.
  - discriminate.
  - vm_compute. auto.
  - vm_compute. reflexivity.
  - exact Hcheck.
Defined.

Lemma membership_scope (id v : JS.Val) (o : Options) (a : Assignment) :
  Mongo.matches (withInherited v (membershipSelector id o)) a = true ->
  anyScope o = false ->
  scope a = scopeOf (opt_scope o) \/ scope a = None.
Proof.
  intros Hm Hany. destruct (JS.isString v) eqn:E.
  - destruct v; try discriminate. apply matches_membership in Hm.
    destruct Hm as (_ & [H | H] & _); [congruence | exact H].
  - rewrite matches_membership_other in Hm by assumption. discriminate.
Qed.

Lemma existsb_same {A : Type} (f : A -> bool) (l1 l2 : list A) :
  (forall a, f a = true -> (In a l1 <-> In a l2)) -> existsb f l1 = existsb f l2.
Proof.
  intros H. destruct (existsb f l1) eqn:E1, (existsb f l2) eqn:E2; auto.
  - apply existsb_exists in E1. destruct E1 as (a & Ha & Hf).
    assert (Hex : existsb f l2 = true).
    { apply existsb_exists. exists a. split; auto. now apply (H a Hf). }
    congruence.
  - apply existsb_exists in E2. destruct E2 as (a & Ha & Hf).
    assert (Hex : existsb f l1 = true).
    { apply existsb_exists. exists a. split; auto. now apply (H a Hf). }
    congruence.
Qed.

Lemma existsb_pointwise {A : Type} (f g : A -> bool) (l : list A) :
  (forall a, f a = g a) -> existsb f l = existsb g l.
Proof. intros H. induction l as [| a l IH]; simpl; congruence. Qed.

(** X10. A grant in a scope is not seen from elsewhere. When the options
    of [addUsersToRoles] name a scope, then for any users and roles, and
    whether the call returns or throws part of the way, every
    [userIsInRole] question about another scope or about the global scope,
    asked without [anyScope], has the outcome it had before the call. *)
Theorem scoped_grant_is_local (users : OneOrMany UserArg) (roles : OneOrMany string)
    (options : OptionsArg) (s1 : string) (st : Store)
    (usr : UserArg) (asked : OneOrMany JS.Val) (options' : OptionsArg) :
  wfStore st ->
  scopeOf (opt_scope (_normalizeOptions options)) = Some s1 ->
  anyScope (_normalizeOptions options') = false ->
  scopeOf (opt_scope (_normalizeOptions options')) <> Some s1 ->
  fst (userIsInRoleAsync usr asked options'
         (snd (addUsersToRolesAsync users roles options st)))
  = fst (userIsInRoleAsync usr asked options' st).
Proof.
  intros Hwf Hs1 Hany Hother.
  set (P := fun s : Store =>
              wfStore s
              /\ (forall a, In a (Meteor_roleAssignment st) -> In a (Meteor_roleAssignment s))
              /\ (forall a, In a (Meteor_roleAssignment s) ->
                            In a (Meteor_roleAssignment st) \/ scope a = Some s1)).
  assert (Hkeeps : keeps P (addUsersToRolesAsync users roles options)).
  { unfold addUsersToRolesAsync.
    assert (Hstep : forall u r, keeps P (_addUserToRoleAsync u r (_normalizeOptions options))).
    { intros u r s (Hw & Hin & Hout).
      destruct (addUserToRoleAsync_store u r (_normalizeOptions options) s Hw)
        as [[E _] | [E _]]; rewrite E.
      - split; auto.
      - split; [now apply wfStore_insert |]. unfold granted. simpl. split.
        + intros a Ha. apply in_or_app. auto.
        + intros a Ha. apply in_app_or in Ha. destruct Ha as [Ha | [<- | []]]; auto. }
    keeps_steps. }
  assert (HP : P st) by (split; [exact Hwf | split; auto]).
  destruct (Hkeeps st HP) as (_ & Hin & Hout).
  rewrite !userIsInRole_unfolded. cbv zeta.
  destruct (Nat.eqb _ 0); [reflexivity |].
  destruct (_checkScopeName _) as [[] | e]; [| reflexivity].
  destruct (negb (JS.truthy _)); [reflexivity |].
  destruct (negb (JS.isString _)); [reflexivity |].
  cbn [fst]. f_equal. apply existsb_pointwise. intros v. apply existsb_same.
  intros a Hm. split; [| apply Hin].
  intros Ha. destruct (Hout a Ha) as [H | H]; auto.
  destruct (membership_scope _ _ _ _ Hm Hany) as [Hsc | Hsc]; congruence.
Qed.

Lemma scoped_grant_is_local_witness :
  fst (userIsInRoleAsync (UserVal (JS.Str "u2")) (One (JS.Str "editor")) (OptionsString "s2")
         (snd (addUsersToRolesAsync (One (UserVal (JS.Str "u2"))) (One "editor")
                 (OptionsString "s1") adminAssigned)))
  = Return false.
Proof.
  rewrite (scoped_grant_is_local (One (UserVal (JS.Str "u2"))) (One "editor")
             (OptionsString "s1") "s1" adminAssigned).
  - reflexivity.
  - apply consistent_adminAssigned.
  - reflexivity.
  - reflexivity.
  - discriminate.
Defined.

Lemma filter_filter {A : Type} (p q : A -> bool) (l : list A) :
  filter p (filter q l) = filter (fun a => q a && p a) l.
Proof.
  induction l as [| a l IH]; simpl; auto.
  destruct (q a); simpl; [destruct (p a); simpl; congruence | exact IH].
Qed.

Lemma revokes_iff (u : JS.Val) (o : Options) (names : list string) (a : Assignment) :
  revokes u o names a = true
  <-> user a = u /\ In (role a) names
      /\ (anyScope o = true \/ scope a = scopeOf (opt_scope o)).
Proof.
  unfold revokes, revocationSelector. rewrite existsb_exists. split.
  - intros (r & Hr & Hm). destruct (anyScope o); cbn [negb] in Hm.
    + apply matches_byUserRole in Hm. destruct Hm as [Hu <-]. auto.
    + apply matches_byTriple in Hm. destruct Hm as (Hu & <- & Hs). auto.
  - intros (Hu & Hr & Hs). exists (role a). split; auto.
    destruct (anyScope o); cbn [negb].
    + now apply matches_byUserRole.
    + apply matches_byTriple. destruct Hs as [Hs | Hs]; [discriminate | auto].
Qed.

Lemma forOf_ext {A : Type} (xs : list A) (f g : A -> Async unit) (st : Store) :
  (forall x s, f x s = g x s) -> forOf xs f st = forOf xs g st.
Proof.
  intros H. revert st. induction xs as [| x xs IH]; intros st; simpl; auto.
  unfold bind. rewrite H. destruct (g x st) as [[[] | e] st']; auto.
Qed.

(** The loop of [removeUsersFromRoles] over the roles, for one user. *)
Lemma revoke_loop (u : JS.Val) (o : Options) (names : list string) :
  JS.truthy u = true -> _checkScopeName (opt_scope o) = Return tt ->
  (forall n, In n names -> _checkRoleName (JS.Str n) = Return tt) ->
  forall st,
    forOf names (fun role => _removeUserFromRoleAsync u role o) st
    = (Return tt,
       mkStore (Meteor_roles st)
         (filter (fun a => negb (revokes u o names a)) (Meteor_roleAssignment st))
         (nextId st)).
Proof.
  intros Hu Hs. induction names as [| n names IH]; intros Hnames st.
  - simpl. unfold ret. f_equal. destruct st as [rs docs nid]. simpl. f_equal.
    clear. induction docs as [| d docs IHd]; simpl; congruence.
  - simpl forOf. unfold bind at 1.
    assert (Hstep : _removeUserFromRoleAsync u n o st
                    = (Return tt,
                       mkStore (Meteor_roles st)
                         (Mongo.remove (Mongo.matches (revocationSelector u o n))
                            (Meteor_roleAssignment st)) (nextId st))).
    { unfold _removeUserFromRoleAsync, bind, lift.
      rewrite (Hnames n) by (simpl; auto). rewrite Hs, Hu. reflexivity. }
    rewrite Hstep. rewrite IH by (intros; apply Hnames; simpl; auto).
    cbn [Meteor_roles Meteor_roleAssignment nextId]. f_equal. f_equal.
    unfold Mongo.remove. rewrite filter_filter. apply filter_ext. intros a.
    unfold revokes. cbn [existsb]. rewrite negb_orb. reflexivity.
Qed.

(** X11. [removeUsersFromRoles] removes exactly what it is asked to. For
    a user with a truthy id, well-formed role names and a scope that passes
    the scope check, it returns and leaves the roles alone; the assignments
    it leaves are, in their order, those that are not an assignment of the
    user to one of the roles in the scope of the options, or in any scope
    when [anyScope] is set. The roles need not exist. *)
Theorem removeUsersFromRoles_removes_exactly (usr : UserArg) (u : JS.Val)
    (names : list string) (options : OptionsArg) (st : Store) :
  userIdOf usr = Return u -> JS.truthy u = true ->
  (forall n, In n names -> _checkRoleName (JS.Str n) = Return tt) ->
  _checkScopeName (opt_scope (_normalizeOptions options)) = Return tt ->
  let o := _normalizeOptions options in
  removeUsersFromRolesAsync (One usr) (Many names) options st
  = (Return tt,
     mkStore (Meteor_roles st)
       (filter (fun a => negb (revokes u o names a)) (Meteor_roleAssignment st))
       (nextId st))
  /\ forall a,
       revokes u o names a = true
       <-> user a = u /\ In (role a) names
           /\ (anyScope o = true \/ scope a = scopeOf (opt_scope o)).
Proof.
  intros Hid Hu Hnames Hs o. split; [| intros a; apply revokes_iff].
  unfold removeUsersFromRolesAsync.
  assert (Hut : usersTruthy (One usr) = true).
  { destruct usr as [v | i]; simpl in *; auto. destruct v; inversion Hid; subst; auto. }
  assert (Hut' : userTruthy usr = true).
  { destruct usr as [v | i]; simpl in *; auto. }
  rewrite Hut. cbn [negb namesTruthy ensureArray forOfFlow].
  unfold bind at 1 2 3, lift at 1. rewrite Hs, Hut'. cbn [negb].
  unfold bind at 1.
  rewrite (forOf_ext names _ (fun role => _removeUserFromRoleAsync u role o)).
  - rewrite revoke_loop; auto.
  - intros x s. unfold bind, lift. rewrite Hid. reflexivity.
Qed.

Lemma removeUsersFromRoles_removes_exactly_witness :
  Meteor_roleAssignment
    (snd (removeUsersFromRolesAsync (One (UserVal (JS.Str "u1"))) (Many ["admin"; "ghost"])
            (OptionsObject (mkOptions JS.Undefined true false false)) adminGlobalAndScoped))
  = [].
Proof.
  destruct (removeUsersFromRoles_removes_exactly (UserVal (JS.Str "u1")) (JS.Str "u1")
              ["admin"; "ghost"] (OptionsObject (mkOptions JS.Undefined true false false))
              adminGlobalAndScoped) as [Hrun _].
  - reflexivity.
  - reflexivity.
  - intros n [<- | [<- | []]]; reflexivity.
  - reflexivity.
  - rewrite Hrun. reflexivity.
Defined.

(** X12. Revoking undoes a grant. On a store with unique assignment ids
    where the user does not hold the role in the scope yet, for a user with
    a truthy id, a well-formed name of a role that exists and options
    without [anyScope]: [addUsersToRoles] followed by
    [removeUsersFromRoles] with the same arguments returns and leaves the
    roles and the assignments exactly as they were; only the id counter
    has moved on by one. *)
Theorem grant_then_revoke (usr : UserArg) (u : JS.Val) (r : string) (options : OptionsArg)
    (st : Store) :
  wfStore st ->
  userIdOf usr = Return u -> JS.truthy u = true ->
  _checkRoleName (JS.Str r) = Return tt ->
  In r (map role_id (Meteor_roles st)) ->
  _checkScopeName (opt_scope (_normalizeOptions options)) = Return tt ->
  anyScope (_normalizeOptions options) = false ->
  countFor st u r (scopeOf (opt_scope (_normalizeOptions options))) = 0 ->
  (addUsersToRolesAsync (One usr) (One r) options ;;
   removeUsersFromRolesAsync (One usr) (One r) options) st
  = (Return tt, mkStore (Meteor_roles st) (Meteor_roleAssignment st) (S (nextId st))).
Proof.
  intros Hwf Hid Hu Hr Hrole Hs Hany Hcount.
  pose proof (checkRoleName_not_empty r Hr) as Hne.
  set (o := _normalizeOptions options) in *.
  assert (Hnone : find (Mongo.matches (byTriple u r (scopeOf (opt_scope o))))
                    (Meteor_roleAssignment st) = None).
  { destruct (find (Mongo.matches (byTriple u r (scopeOf (opt_scope o))))
                (Meteor_roleAssignment st)) as [ex |] eqn:E; auto.
    apply find_some_filter in E. unfold countFor in Hcount. lia. }
  assert (Hrd : exists rd, find (Mongo.matchesRole (roleById r)) (Meteor_roles st) = Some rd).
  { destruct (find (Mongo.matchesRole (roleById r)) (Meteor_roles st)) as [rd |] eqn:E;
      [eauto |]. apply find_role_none in E. contradiction. }
  destruct Hrd as [rd Hrd].
  unfold bind at 1.
  rewrite (addUsersToRoles_one usr u r options st Hid Hu Hne Hs). fold o.
  rewrite (addUserToRoleAsync_fresh u r o st rd Hwf Hu Hr Hs Hrd Hnone). cbn [fst snd].
  rewrite (removeUsersFromRoles_one usr u r options _ Hid Hu Hne Hs). fold o.
  unfold _removeUserFromRoleAsync, bind, lift. rewrite Hr, Hs, Hu, Hany. cbn [negb].
  unfold roleAssignment_removeAsync, granted. cbn [Meteor_roles Meteor_roleAssignment nextId].
  f_equal. f_equal. fold (byTriple u r (scopeOf (opt_scope o))).
  unfold Mongo.remove. rewrite filter_app. cbn [filter].
  rewrite matches_own_triple. cbn [negb]. rewrite app_nil_r.
  clear - Hnone. induction (Meteor_roleAssignment st) as [| d docs IH]; simpl in *; auto.
  destruct (Mongo.matches _ d); [discriminate |]. simpl. f_equal. auto.
Qed.

Lemma grant_then_revoke_witness :
  (addUsersToRolesAsync (One (UserVal (JS.Str "u1"))) (One "editor") (OptionsString "s1") ;;
   removeUsersFromRolesAsync (One (UserVal (JS.Str "u1"))) (One "editor") (OptionsString "s1"))
    adminAssigned
  = (Return tt,
     mkStore (Meteor_roles adminAssigned) (Meteor_roleAssignment adminAssigned) 3).
Proof.
  apply (grant_then_revoke (UserVal (JS.Str "u1")) (JS.Str "u1") "editor" (OptionsString "s1")
           adminAssigned);
    try reflexivity.
  - apply consistent_adminAssigned.
  - vm_compute. auto.
Defined.

Lemma forOfFlow_stops {A : Type} (body : A -> Async Flow) (before : list A) (x : A)
    (after : list A) (st : Store) :
  (forall s, body x s = (Return Exit, s)) ->
  forOfFlow (before ++ x :: after) body st = forOfFlow (before ++ [x]) body st.
Proof.
  intros Hx. revert st. induction before as [| b before IH]; intros st; simpl.
  - unfold bind. rewrite Hx. reflexivity.
  - unfold bind. destruct (body b st) as [[[|] | e] st']; auto.
Qed.

(** X13. A falsy user ends [removeUsersFromRoles]: the users listed after
    a [null], [undefined] or empty id are never looked at, so the call does
    what it does on the list cut after that entry; with the falsy entry in
    front it returns without touching the store. *)
Theorem removeUsersFromRoles_stops_at_falsy_user (before after : list UserArg) (v : JS.Val)
    (roles : OneOrMany string) (options : OptionsArg) (st : Store) :
  JS.truthy v = false ->
  removeUsersFromRolesAsync (Many (before ++ UserVal v :: after)) roles options st
  = removeUsersFromRolesAsync (Many (before ++ [UserVal v])) roles options st
  /\ (namesTruthy roles = true ->
      _checkScopeName (opt_scope (_normalizeOptions options)) = Return tt ->
      removeUsersFromRolesAsync (Many (UserVal v :: after)) roles options st = (Return tt, st)).
Proof.
  intros Hv. split.
  - unfold removeUsersFromRolesAsync. cbn [usersTruthy negb ensureArray].
    destruct (negb (namesTruthy roles)); [reflexivity |].
    unfold bind, lift.
    destruct (_checkScopeName (opt_scope (_normalizeOptions options))) as [[] | e];
      [| reflexivity].
    rewrite forOfFlow_stops; [reflexivity |].
    intros s. cbn [userTruthy]. rewrite Hv. reflexivity.
  - intros Hn Hs. unfold removeUsersFromRolesAsync. cbn [usersTruthy negb ensureArray].
    rewrite Hn. cbn [negb forOfFlow]. unfold bind, lift. rewrite Hs.
    cbn [userTruthy]. rewrite Hv. reflexivity.
Qed.

Lemma removeUsersFromRoles_stops_at_falsy_user_witness :
  removeUsersFromRolesAsync (Many [UserVal JS.Null; UserVal (JS.Str "u1")]) (One "admin")
    OptionsUndefined adminAssigned
  = (Return tt, adminAssigned).
Proof.
  apply (removeUsersFromRoles_stops_at_falsy_user [] [UserVal (JS.Str "u1")] JS.Null
           (One "admin") OptionsUndefined adminAssigned);
    reflexivity.
Defined.

(** ** Edges of the hierarchy *)

Lemma update_none {D : Type} (sel : D -> bool) (f : D -> D) (multi : bool) (docs : list D) :
  (forall d, In d docs -> sel d = false) -> Mongo.update sel f multi docs = (docs, 0).
Proof.
  induction docs as [| d docs IH]; simpl; intros H; auto.
  rewrite (H d) by auto. rewrite IH; auto.
Qed.

(** With a key, the update of the first match is the update of the only
    match. *)
Lemma update_first_keyed {D K : Type} (key : D -> K) (k : K) (sel : D -> bool) (f : D -> D)
    (docs : list D) :
  NoDup (map key docs) -> (forall d, sel d = true -> key d = k) ->
  Mongo.update sel f false docs
  = (map (fun d => if sel d then f d else d) docs, if existsb sel docs then 1 else 0).
Proof.
  intros Hnd Hk. induction docs as [| d docs IH]; simpl; auto.
  inversion Hnd as [| ? ? Hnot Hnd']; subst.
  destruct (sel d) eqn:E; simpl.
  - f_equal. f_equal.
    rewrite <- (map_id docs) at 1. apply map_ext_in. intros x Hx.
    destruct (sel x) eqn:Ex; auto. exfalso. apply Hnot.
    rewrite (Hk d E), <- (Hk x Ex). now apply in_map.
  - rewrite IH by assumption. reflexivity.
Qed.

Lemma find_map_keyed {D : Type} (sel : D -> bool) (g : D -> D) (docs : list D) :
  (forall d, sel (g d) = sel d) ->
  find sel (map g docs) = option_map g (find sel docs).
Proof.
  intros H. induction docs as [| d docs IH]; simpl; auto.
  rewrite H. destruct (sel d); auto.
Qed.

Lemma matches_parentLacking (roleName parentName : string) (d : RoleDoc) :
  Mongo.matchesRole (parentLacking roleName parentName) d = true
  <-> role_id d = parentName /\ ~ In roleName (children d).
Proof.
  unfold Mongo.matchesRole, parentLacking. simpl.
  rewrite andb_true_iff, String.eqb_eq, negb_true_iff. split.
  - intros [Hid Hm]. split; auto. intros Hin. apply memStr_In in Hin. congruence.
  - intros [Hid Hm]. split; auto. apply not_true_false. intros H. apply memStr_In in H. auto.
Qed.

(** What a returning [_addRoleToParentAsync] has done, on a store with
    unique role ids. *)
Lemma addRoleToParent_returns (roleName parentName : string) (st st1 : Store) :
  uniqueRoleIds st ->
  _addRoleToParentAsync roleName parentName st = (Return tt, st1) ->
  (_checkRoleName (JS.Str roleName) = Return tt
   /\ _checkRoleName (JS.Str parentName) = Return tt
   /\ In roleName (map role_id (Meteor_roles st)))
  /\ Meteor_roles st1 = map (withChild roleName parentName) (Meteor_roles st)
  /\ nextId st1 = nextId st
  /\ Meteor_roleAssignment st1
     = if existsb (Mongo.matchesRole (parentLacking roleName parentName)) (Meteor_roles st)
       then map (withInheritedChild roleName parentName) (Meteor_roleAssignment st)
       else Meteor_roleAssignment st.
Proof.
  intros Hu. unfold _addRoleToParentAsync, bind, lift.
  destruct (_checkRoleName (JS.Str roleName)) as [[] | e]; [| discriminate].
  destruct (_checkRoleName (JS.Str parentName)) as [[] | e]; [| discriminate].
  unfold roles_findOneAsync.
  destruct (find (Mongo.matchesRole (roleById roleName)) (Meteor_roles st)) as [rd |] eqn:Hrd;
    [| discriminate].
  destruct (findOne_role_id st roleName rd Hrd) as [Hin Hid].
  rewrite getInheritedRoleNames_empty. cbn [memStr existsb].
  unfold roles_updateAsync. rewrite Hid. fold (parentLacking roleName parentName).
  rewrite (update_first_keyed role_id parentName) by
    (auto; intros d Hd; apply matches_parentLacking in Hd; tauto).
  assert (Hmap : map (fun d => if Mongo.matchesRole (parentLacking roleName parentName) d
                               then Mongo.applyRoleModifier (parentLacking roleName parentName)
                                      (Mongo.PushChild roleName) d
                               else d) (Meteor_roles st)
                 = map (withChild roleName parentName) (Meteor_roles st)) by reflexivity.
  rewrite Hmap.
  destruct (existsb (Mongo.matchesRole (parentLacking roleName parentName)) (Meteor_roles st)).
  - cbn [Nat.eqb]. rewrite getInheritedRoleNames_empty.
    unfold roleAssignment_updateAsync. rewrite update_multi.
    cbn [Meteor_roles Meteor_roleAssignment nextId]. unfold ret.
    intros H. inversion H. simpl. split; [| auto].
    split; [reflexivity | split; [reflexivity |]].
    rewrite <- Hid. now apply in_map.
  - cbn [Nat.eqb]. unfold ret. intros H. inversion H. simpl. split; [| auto].
    split; [reflexivity | split; [reflexivity |]].
    rewrite <- Hid. now apply in_map.
Qed.

Lemma withChild_keeps_id (roleName parentName : string) (d : RoleDoc) :
  role_id (withChild roleName parentName d) = role_id d.
Proof. unfold withChild. destruct (Mongo.matchesRole _ d); reflexivity. Qed.

Lemma childrenOf_withChild (roleName parentName x : string) (st st1 : Store) :
  Meteor_roles st1 = map (withChild roleName parentName) (Meteor_roles st) ->
  childrenOf st1 x
  = if String.eqb x parentName && negb (memStr roleName (childrenOf st x))
       && existsb (fun d => String.eqb (role_id d) x) (Meteor_roles st)
    then childrenOf st x ++ [roleName]
    else childrenOf st x.
Proof.
  intros E. unfold childrenOf. rewrite E.
  rewrite find_map_keyed.
  2:{ intros d. unfold Mongo.matchesRole, roleById. simpl.
      now rewrite withChild_keeps_id. }
  destruct (find (Mongo.matchesRole (roleById x)) (Meteor_roles st)) as [d |] eqn:Hd; simpl.
  - destruct (findOne_role_id st x d Hd) as [Hin Hid].
    assert (Hex : existsb (fun d => String.eqb (role_id d) x) (Meteor_roles st) = true).
    { apply existsb_exists. exists d. split; auto. now apply String.eqb_eq. }
    rewrite Hex, andb_true_r. unfold withChild, Mongo.matchesRole, parentLacking. simpl.
    rewrite Hid. destruct (String.eqb x parentName && negb (memStr roleName (children d)));
      reflexivity.
  - assert (Hex : existsb (fun d => String.eqb (role_id d) x) (Meteor_roles st) = false).
    { apply not_true_false. intros H. apply existsb_exists in H.
      destruct H as (d & Hin & Hid). apply String.eqb_eq in Hid.
      apply find_role_none in Hd. apply Hd. rewrite <- Hid. now apply in_map. }
    rewrite Hex, andb_false_r. reflexivity.
Qed.

Lemma addRoleToParent_eval (roleName parentName : string) (st : Store) :
  uniqueRoleIds st ->
  _checkRoleName (JS.Str roleName) = Return tt ->
  _checkRoleName (JS.Str parentName) = Return tt ->
  In roleName (map role_id (Meteor_roles st)) ->
  _addRoleToParentAsync roleName parentName st
  = (Return tt,
     mkStore (map (withChild roleName parentName) (Meteor_roles st))
       (if existsb (Mongo.matchesRole (parentLacking roleName parentName)) (Meteor_roles st)
        then map (withInheritedChild roleName parentName) (Meteor_roleAssignment st)
        else Meteor_roleAssignment st)
       (nextId st)).
Proof.
  intros Hu Hr Hp Hin. unfold _addRoleToParentAsync, bind, lift. rewrite Hr, Hp.
  unfold roles_findOneAsync.
  destruct (find (Mongo.matchesRole (roleById roleName)) (Meteor_roles st)) as [rd |] eqn:Hrd.
  2:{ apply find_role_none in Hrd. contradiction. }
  destruct (findOne_role_id st roleName rd Hrd) as [_ Hid].
  rewrite getInheritedRoleNames_empty. cbn [memStr existsb].
  unfold roles_updateAsync. rewrite Hid. fold (parentLacking roleName parentName).
  rewrite (update_first_keyed role_id parentName) by
    (auto; intros d Hd; apply matches_parentLacking in Hd; tauto).
  assert (Hmap : map (fun d => if Mongo.matchesRole (parentLacking roleName parentName) d
                               then Mongo.applyRoleModifier (parentLacking roleName parentName)
                                      (Mongo.PushChild roleName) d
                               else d) (Meteor_roles st)
                 = map (withChild roleName parentName) (Meteor_roles st)) by reflexivity.
  rewrite Hmap.
  destruct (existsb (Mongo.matchesRole (parentLacking roleName parentName)) (Meteor_roles st)).
  - cbn [Nat.eqb]. rewrite getInheritedRoleNames_empty.
    unfold roleAssignment_updateAsync. rewrite update_multi. reflexivity.
  - reflexivity.
Qed.

Lemma withChild_settled (roleName parentName : string) (d : RoleDoc) :
  Mongo.matchesRole (parentLacking roleName parentName) (withChild roleName parentName d)
  = false.
Proof.
  apply not_true_false. intros H. apply matches_parentLacking in H. destruct H as [Hid Hno].
  rewrite withChild_keeps_id in Hid. unfold withChild in Hno.
  destruct (Mongo.matchesRole (parentLacking roleName parentName) d) eqn:E.
  - apply Hno. simpl. apply in_or_app. right. now left.
  - assert (Mongo.matchesRole (parentLacking roleName parentName) d = true)
      by (apply matches_parentLacking; auto).
    congruence.
Qed.

Lemma store_eta (st : Store) :
  mkStore (Meteor_roles st) (Meteor_roleAssignment st) (nextId st) = st.
Proof. destruct st; reflexivity. Qed.

(** X14. Making a role the child of a parent changes one thing in the role
    collection: the parent's list of children gets the role's name at its
    end, unless it is already there.  Every other role keeps its children,
    no role appears or disappears, a parent that does not exist leaves the
    whole store as it was (and nothing is thrown), and doing it a second
    time changes nothing. *)
Theorem addRoleToParent_adds_one_edge (roleName parentName : string) (st st1 : Store) :
  uniqueRoleIds st ->
  _addRoleToParentAsync roleName parentName st = (Return tt, st1) ->
  map role_id (Meteor_roles st1) = map role_id (Meteor_roles st)
  /\ (forall x, x <> parentName -> childrenOf st1 x = childrenOf st x)
  /\ (In parentName (map role_id (Meteor_roles st)) ->
      childrenOf st1 parentName
      = if memStr roleName (childrenOf st parentName)
        then childrenOf st parentName
        else childrenOf st parentName ++ [roleName])
  /\ (~ In parentName (map role_id (Meteor_roles st)) -> st1 = st)
  /\ _addRoleToParentAsync roleName parentName st1 = (Return tt, st1).
Proof.
  intros Hu Hrun.
  destruct (addRoleToParent_returns roleName parentName st st1 Hu Hrun)
    as ((Hr & Hp & Hin) & Hroles & Hnext & Hass).
  assert (Hids : map role_id (Meteor_roles st1) = map role_id (Meteor_roles st)).
  { rewrite Hroles, map_map. apply map_ext. intros d. apply withChild_keeps_id. }
  split; [exact Hids |]. split; [| split; [| split]].
  - intros x Hx. rewrite (childrenOf_withChild roleName parentName x st st1 Hroles).
    apply String.eqb_neq in Hx. rewrite Hx. reflexivity.
  - intros Hpin. rewrite (childrenOf_withChild roleName parentName parentName st st1 Hroles).
    rewrite String.eqb_refl.
    assert (Hex : existsb (fun d => String.eqb (role_id d) parentName) (Meteor_roles st) = true).
    { apply in_map_iff in Hpin. destruct Hpin as (d & Hid & Hd).
      apply existsb_exists. exists d. split; auto. now apply String.eqb_eq. }
    rewrite Hex, andb_true_r. cbn [andb].
    destruct (memStr roleName (childrenOf st parentName)); reflexivity.
  - intros Hno.
    assert (Hnone : forall d, In d (Meteor_roles st) ->
              Mongo.matchesRole (parentLacking roleName parentName) d = false).
    { intros d Hd. apply not_true_false. intros Hm. apply matches_parentLacking in Hm.
      apply Hno. destruct Hm as [Hid _]. rewrite <- Hid. now apply in_map. }
    assert (Hex : existsb (Mongo.matchesRole (parentLacking roleName parentName))
                    (Meteor_roles st) = false).
    { apply not_true_false. intros H. apply existsb_exists in H.
      destruct H as (d & Hd & Hm). rewrite (Hnone d Hd) in Hm. discriminate. }
    rewrite Hex in Hass.
    assert (Hsame : Meteor_roles st1 = Meteor_roles st).
    { rewrite Hroles. rewrite <- (map_id (Meteor_roles st)) at 2.
      apply map_ext_in. intros d Hd. unfold withChild. now rewrite (Hnone d Hd). }
    rewrite <- (store_eta st1), <- (store_eta st). now rewrite Hsame, Hass, Hnext.
  - assert (Hu1 : uniqueRoleIds st1) by (unfold uniqueRoleIds in *; now rewrite Hids).
    rewrite (addRoleToParent_eval roleName parentName st1 Hu1 Hr Hp)
      by (rewrite Hids; exact Hin).
    assert (Hex : existsb (Mongo.matchesRole (parentLacking roleName parentName))
                    (Meteor_roles st1) = false).
    { apply not_true_false. intros H. apply existsb_exists in H.
      destruct H as (d & Hd & Hm). rewrite Hroles in Hd. apply in_map_iff in Hd.
      destruct Hd as (d0 & E & _). subst d.
      rewrite withChild_settled in Hm. discriminate. }
    rewrite Hex. f_equal.
    rewrite <- (store_eta st1) at 4. f_equal.
    rewrite <- (map_id (Meteor_roles st1)) at 2.
    apply map_ext_in. intros d Hd. unfold withChild.
    destruct (Mongo.matchesRole (parentLacking roleName parentName) d) eqn:E; auto.
    exfalso. assert (H : existsb (Mongo.matchesRole (parentLacking roleName parentName))
                           (Meteor_roles st1) = true)
      by (apply existsb_exists; exists d; auto).
    congruence.
Qed.

Lemma addRoleToParent_adds_one_edge_witness :
  _addRoleToParentAsync "editor" "admin" adminOverEditor = (Return tt, adminOverEditor).
Proof.
  destruct (addRoleToParent_adds_one_edge "editor" "admin"
              (mkStore [mkRole "admin" []; mkRole "editor" []] [] 1) adminOverEditor)
    as (_ & _ & _ & _ & H).
  - unfold uniqueRoleIds. simpl. repeat constructor; simpl; intuition discriminate.
  - vm_compute. reflexivity.
  - exact H.
Defined.

(** ** Propagation of a new edge to the holders of the parent *)

Lemma withInheritedChild_keeps (roleName parentName : string) (a : Assignment) :
  user (withInheritedChild roleName parentName a) = user a
  /\ scope (withInheritedChild roleName parentName a) = scope a
  /\ role (withInheritedChild roleName parentName a) = role a
  /\ forall l, inheritedRoles a = Some l ->
       exists l', inheritedRoles (withInheritedChild roleName parentName a) = Some l'
                  /\ (forall x, In x l -> In x l')
                  /\ (In parentName l -> In roleName l').
Proof.
  unfold withInheritedChild.
  destruct (Mongo.matches (byInherited parentName) a) eqn:E.
  - unfold Mongo.applyModifier. simpl. repeat split.
    intros l El. rewrite El. simpl. eexists. split; [reflexivity |]. split.
    + intros x Hx. apply in_or_app. now left.
    + intros _. apply in_or_app. right. now left.
  - repeat split. intros l El. exists l. split; auto. split; auto.
    intros Hin. exfalso.
    assert (Mongo.matches (byInherited parentName) a = true)
      by (apply matches_byInherited; eauto).
    congruence.
Qed.

(** X15. A new edge never takes a role away from anybody, and when the
    edge is really new (the parent exists and did not list the child) every
    user who passed [userIsInRole] for the parent passes it for the child
    afterwards, in the same scope. *)
Theorem addRoleToParent_propagates (roleName parentName : string) (st st1 : Store) :
  uniqueRoleIds st ->
  _addRoleToParentAsync roleName parentName st = (Return tt, st1) ->
  (forall usr rolesArg options,
      userIsInRoleAsync usr rolesArg options st = (Return true, st) ->
      userIsInRoleAsync usr rolesArg options st1 = (Return true, st1))
  /\ (In parentName (map role_id (Meteor_roles st)) ->
      ~ In roleName (childrenOf st parentName) ->
      forall usr options,
        userIsInRoleAsync usr (One (JS.Str parentName)) options st = (Return true, st) ->
        userIsInRoleAsync usr (One (JS.Str roleName)) options st1 = (Return true, st1)).
Proof.
  intros Hu Hrun.
  destruct (addRoleToParent_returns roleName parentName st st1 Hu Hrun)
    as (_ & Hroles & _ & Hass).
  split.
  - intros usr rolesArg options H.
    apply userIsInRole_true_iff in H.
    destruct H as (Hc & Ht & Hs & r & a & Hr & Ha & Hua & Hsc & l & El & Hl).
    apply userIsInRole_true_iff. split; [exact Hc |]. split; [exact Ht |].
    split; [exact Hs |].
    destruct (existsb (Mongo.matchesRole (parentLacking roleName parentName))
                (Meteor_roles st)).
    + destruct (withInheritedChild_keeps roleName parentName a) as (Ku & Ks & _ & Ki).
      destruct (Ki l El) as (l' & El' & Hsub & _).
      exists r, (withInheritedChild roleName parentName a).
      split; [exact Hr |]. split; [rewrite Hass; now apply in_map |].
      split; [now rewrite Ku |]. split; [now rewrite Ks |].
      exists l'. split; auto.
    + exists r, a. rewrite Hass. repeat (split; [assumption |]). exists l. auto.
  - intros Hpin Hnew usr options H.
    assert (Hex : existsb (Mongo.matchesRole (parentLacking roleName parentName))
                    (Meteor_roles st) = true).
    { unfold childrenOf in Hnew.
      destruct (find (Mongo.matchesRole (roleById parentName)) (Meteor_roles st))
        as [p |] eqn:Hp.
      - destruct (findOne_role_id st parentName p Hp) as [Hin Hid].
        apply existsb_exists. exists p. split; auto.
        apply matches_parentLacking. auto.
      - apply find_role_none in Hp. contradiction. }
    rewrite Hex in Hass.
    apply userIsInRole_true_iff in H.
    destruct H as (Hc & Ht & Hs & r & a & Hr & Ha & Hua & Hsc & l & El & Hl).
    destruct Hr as [Hr | []]. inversion Hr; subst r.
    apply userIsInRole_true_iff. split; [exact Hc |]. split; [exact Ht |].
    split; [exact Hs |].
    destruct (withInheritedChild_keeps roleName parentName a) as (Ku & Ks & _ & Ki).
    destruct (Ki l El) as (l' & El' & _ & Hnewin).
    exists roleName, (withInheritedChild roleName parentName a).
    split; [now left |]. split; [rewrite Hass; now apply in_map |].
    split; [now rewrite Ku |]. split; [now rewrite Ks |].
    exists l'. split; auto.
Qed.

Lemma addRoleToParent_propagates_witness :
  userIsInRoleAsync (UserVal (JS.Str "u1")) (One (JS.Str "editor")) OptionsUndefined
    (snd (_addRoleToParentAsync "editor" "admin" adminHeldAlone))
  = (Return true, snd (_addRoleToParentAsync "editor" "admin" adminHeldAlone)).
Proof.
  destruct (addRoleToParent_propagates "editor" "admin" adminHeldAlone
              (snd (_addRoleToParentAsync "editor" "admin" adminHeldAlone)))
    as (_ & H).
  - unfold uniqueRoleIds. vm_compute. repeat constructor; simpl; intuition discriminate.
  - vm_compute. reflexivity.
  - apply H.
    + vm_compute. auto.
    + vm_compute. tauto.
    + vm_compute. reflexivity.
Defined.

(** ** Removal of an edge *)

Lemma writesAssignmentsOnly_ret {A : Type} (a : A) : writesAssignmentsOnly (ret a).
Proof. intros st. exists a, st. auto. Qed.

Lemma writesAssignmentsOnly_bind {A B : Type} (m : Async A) (k : A -> Async B) :
  writesAssignmentsOnly m -> (forall a, writesAssignmentsOnly (k a)) ->
  writesAssignmentsOnly (bind m k).
Proof.
  intros Hm Hk st. destruct (Hm st) as (a & st1 & E & Hr & Hn).
  destruct (Hk a st1) as (b & st2 & E2 & Hr2 & Hn2).
  exists b, st2. unfold bind. rewrite E, E2. split; auto. split; congruence.
Qed.

Lemma writesAssignmentsOnly_forOf {A : Type} (xs : list A) (body : A -> Async unit) :
  (forall x, writesAssignmentsOnly (body x)) -> writesAssignmentsOnly (forOf xs body).
Proof.
  intros Hb. induction xs as [| x xs IH]; simpl.
  - apply writesAssignmentsOnly_ret.
  - apply writesAssignmentsOnly_bind; auto.
Qed.

Lemma writesAssignmentsOnly_update (q : Mongo.Selector) (m : Mongo.Modifier) (multi : bool) :
  writesAssignmentsOnly (roleAssignment_updateAsync q m multi).
Proof.
  intros st. unfold roleAssignment_updateAsync.
  destruct (Mongo.update _ _ multi (Meteor_roleAssignment st)) as [docs n].
  eexists _, _. split; [reflexivity |]. auto.
Qed.

Lemma parentRoles_loop_returns (turns : nat) (parentRoles : list string) (i : nat) (st : Store) :
  exists l, parentRoles_loop turns parentRoles i st = (Return l, st).
Proof.
  revert parentRoles i. induction turns as [| turns IH]; intros parentRoles i; simpl.
  - eexists. reflexivity.
  - destruct (nth_error parentRoles i); [| eexists; reflexivity].
    unfold bind, roles_fetchAsync. apply IH.
Qed.

Lemma getParentRoleNames_returns (role : option RoleDoc) (st : Store) :
  exists l, _getParentRoleNamesAsync role st = (Return l, st).
Proof.
  destruct role as [role |]; [| eexists; reflexivity].
  unfold _getParentRoleNamesAsync, bind.
  destruct (parentRoles_loop_returns (S (List.length (Meteor_roles st))) [role_id role] 0 st)
    as (l & E).
  rewrite E. eexists. reflexivity.
Qed.

Lemma writesAssignmentsOnly_reads {A : Type} (m : Async A) :
  (forall st, exists a, m st = (Return a, st)) -> writesAssignmentsOnly m.
Proof. intros H st. destruct (H st) as (a & E). exists a, st. auto. Qed.

Lemma matches_roleById (id : string) (d : RoleDoc) :
  Mongo.matchesRole (roleById id) d = String.eqb (role_id d) id.
Proof. unfold Mongo.matchesRole, roleById. simpl. now rewrite andb_true_r. Qed.

Lemma bind_step {A B : Type} (m : Async A) (k : A -> Async B) (st st' : Store) (a : A) :
  m st = (Return a, st') -> bind m k st = k a st'.
Proof. intros E. unfold bind. now rewrite E. Qed.

(** What [_removeRoleFromParentAsync] does once its checks have passed, on
    a store with unique role ids. *)
Lemma removeRoleFromParent_eval (roleName parentName : string) (st : Store) :
  uniqueRoleIds st ->
  _checkRoleName (JS.Str roleName) = Return tt ->
  _checkRoleName (JS.Str parentName) = Return tt ->
  In roleName (map role_id (Meteor_roles st)) ->
  exists st1,
    _removeRoleFromParentAsync roleName parentName st = (Return tt, st1)
    /\ Meteor_roles st1 = map (withoutChild roleName parentName) (Meteor_roles st)
    /\ nextId st1 = nextId st
    /\ (~ In parentName (map role_id (Meteor_roles st)) ->
        Meteor_roleAssignment st1 = Meteor_roleAssignment st).
Proof.
  intros Hu Hr Hp Hin. unfold _removeRoleFromParentAsync.
  rewrite (bind_step _ _ st st tt) by (unfold lift; now rewrite Hr).
  rewrite (bind_step _ _ st st tt) by (unfold lift; now rewrite Hp).
  destruct (find (Mongo.matchesRole (roleById roleName)) (Meteor_roles st)) as [rd |] eqn:Hrd.
  2:{ apply find_role_none in Hrd. contradiction. }
  destruct (findOne_role_id st roleName rd Hrd) as [_ Hid].
  rewrite (bind_step _ _ st st (Some rd)) by (unfold roles_findOneAsync; now rewrite Hrd).
  rewrite Hid.
  rewrite (bind_step _ _ st
             (mkStore (map (withoutChild roleName parentName) (Meteor_roles st))
                (Meteor_roleAssignment st) (nextId st))
             (if existsb (Mongo.matchesRole (roleById parentName)) (Meteor_roles st)
              then 1 else 0)).
  2:{ unfold roles_pullChildAsync.
      rewrite (update_first_keyed role_id parentName) by
        (auto; intros d Hd; rewrite matches_roleById in Hd; now apply String.eqb_eq).
      reflexivity. }
  destruct (existsb (Mongo.matchesRole (roleById parentName)) (Meteor_roles st)) eqn:Hex.
  - cbn [Nat.eqb].
    match goal with
    | |- exists st1, ?m ?s = _ /\ _ => assert (W : writesAssignmentsOnly m)
    end.
    { apply writesAssignmentsOnly_bind; [apply writesAssignmentsOnly_reads; intros ?; eexists; reflexivity |].
      intros parent.
      apply writesAssignmentsOnly_bind;
        [apply writesAssignmentsOnly_reads; apply getParentRoleNames_returns |].
      intros ancestors.
      apply writesAssignmentsOnly_bind; [apply writesAssignmentsOnly_reads; intros ?; eexists; reflexivity |].
      intros found. apply writesAssignmentsOnly_forOf. intros r.
      apply writesAssignmentsOnly_bind; [apply writesAssignmentsOnly_reads; intros ?; eexists; reflexivity |].
      intros doc.
      apply writesAssignmentsOnly_bind.
      { destruct doc; apply writesAssignmentsOnly_reads; intros ?; eexists; reflexivity. }
      intros inheritedRoles.
      apply writesAssignmentsOnly_bind; [apply writesAssignmentsOnly_update |].
      intros n. apply writesAssignmentsOnly_ret. }
    match goal with
    | |- exists st1, ?m ?s = _ /\ _ => destruct (W s) as ([] & st1 & E & Hroles & Hnext)
    end.
    exists st1. split; [exact E |]. split; [exact Hroles |]. split; [exact Hnext |].
    intros Hno. exfalso. apply existsb_exists in Hex. destruct Hex as (d & Hd & Hm).
    rewrite matches_roleById in Hm. apply String.eqb_eq in Hm.
    apply Hno. rewrite <- Hm. now apply in_map.
  - cbn [Nat.eqb]. eexists. split; [reflexivity |]. simpl. auto.
Qed.

Lemma removeRoleFromParent_returns (roleName parentName : string) (st st1 : Store) :
  _removeRoleFromParentAsync roleName parentName st = (Return tt, st1) ->
  _checkRoleName (JS.Str roleName) = Return tt
  /\ _checkRoleName (JS.Str parentName) = Return tt
  /\ In roleName (map role_id (Meteor_roles st)).
Proof.
  unfold _removeRoleFromParentAsync.
  destruct (_checkRoleName (JS.Str roleName)) as [[] | e] eqn:Hr;
    [| unfold bind, lift; discriminate].
  rewrite (bind_step _ _ st st tt) by reflexivity.
  destruct (_checkRoleName (JS.Str parentName)) as [[] | e] eqn:Hp;
    [| unfold bind, lift; discriminate].
  rewrite (bind_step _ _ st st tt) by reflexivity.
  destruct (find (Mongo.matchesRole (roleById roleName)) (Meteor_roles st)) as [rd |] eqn:Hrd.
  - destruct (findOne_role_id st roleName rd Hrd) as [Hin Hid].
    intros _. split; auto. split; auto. rewrite <- Hid. now apply in_map.
  - rewrite (bind_step _ _ st st None) by (unfold roles_findOneAsync; now rewrite Hrd).
    discriminate.
Qed.

Lemma same_role_id_same_doc (docs : list RoleDoc) (d e : RoleDoc) :
  NoDup (map role_id docs) -> In d docs -> In e docs -> role_id d = role_id e -> d = e.
Proof.
  induction docs as [| x docs IH]; simpl; intros Hnd Hd He Hid; [contradiction |].
  inversion Hnd as [| ? ? Hnot Hnd']; subst.
  destruct Hd as [-> | Hd], He as [-> | He]; auto.
  - exfalso. apply Hnot. rewrite Hid. now apply in_map.
  - exfalso. apply Hnot. rewrite <- Hid. now apply in_map.
Qed.

Lemma childrenOf_doc (st : Store) (d : RoleDoc) :
  uniqueRoleIds st -> In d (Meteor_roles st) -> childrenOf st (role_id d) = children d.
Proof.
  intros Hu Hd. unfold childrenOf.
  rewrite (find_unique (Mongo.matchesRole (roleById (role_id d))) (Meteor_roles st) d); auto.
  - rewrite matches_roleById. apply String.eqb_refl.
  - intros e He Hm. rewrite matches_roleById in Hm. apply String.eqb_eq in Hm.
    now apply (same_role_id_same_doc (Meteor_roles st)).
Qed.

Lemma withoutChild_keeps_id (roleName parentName : string) (d : RoleDoc) :
  role_id (withoutChild roleName parentName d) = role_id d.
Proof. unfold withoutChild. destruct (Mongo.matchesRole _ d); reflexivity. Qed.

Lemma childrenOf_withoutChild (roleName parentName x : string) (st st1 : Store) :
  Meteor_roles st1 = map (withoutChild roleName parentName) (Meteor_roles st) ->
  childrenOf st1 x
  = if String.eqb x parentName
    then filter (fun c => negb (String.eqb c roleName)) (childrenOf st x)
    else childrenOf st x.
Proof.
  intros E. unfold childrenOf. rewrite E.
  rewrite find_map_keyed.
  2:{ intros d. rewrite !matches_roleById. now rewrite withoutChild_keeps_id. }
  destruct (find (Mongo.matchesRole (roleById x)) (Meteor_roles st)) as [d |] eqn:Hd; simpl.
  - destruct (findOne_role_id st x d Hd) as [_ Hid].
    unfold withoutChild. rewrite matches_roleById, Hid.
    destruct (String.eqb x parentName); reflexivity.
  - destruct (String.eqb x parentName); reflexivity.
Qed.

(** X16. Taking a role out of a parent changes one thing in the role
    collection: the parent's list of children loses every occurrence of the
    role's name.  The other roles keep their children, no role appears or
    disappears, and a parent that does not exist leaves the whole store as
    it was, without an error. *)
Theorem removeRoleFromParent_removes_one_edge (roleName parentName : string)
    (st st1 : Store) :
  uniqueRoleIds st ->
  _removeRoleFromParentAsync roleName parentName st = (Return tt, st1) ->
  map role_id (Meteor_roles st1) = map role_id (Meteor_roles st)
  /\ (forall x, x <> parentName -> childrenOf st1 x = childrenOf st x)
  /\ childrenOf st1 parentName
     = filter (fun c => negb (String.eqb c roleName)) (childrenOf st parentName)
  /\ ~ In roleName (childrenOf st1 parentName)
  /\ (~ In parentName (map role_id (Meteor_roles st)) -> st1 = st).
Proof.
  intros Hu Hrun.
  destruct (removeRoleFromParent_returns roleName parentName st st1 Hrun) as (Hr & Hp & Hin).
  destruct (removeRoleFromParent_eval roleName parentName st Hu Hr Hp Hin)
    as (st1' & E & Hroles & Hnext & Hass).
  rewrite E in Hrun. inversion Hrun; subst st1'. clear Hrun.
  assert (Hp1 : childrenOf st1 parentName
                = filter (fun c => negb (String.eqb c roleName)) (childrenOf st parentName)).
  { rewrite (childrenOf_withoutChild roleName parentName parentName st st1 Hroles).
    now rewrite String.eqb_refl. }
  split; [| split; [| split; [exact Hp1 | split]]].
  - rewrite Hroles, map_map. apply map_ext. intros d. apply withoutChild_keeps_id.
  - intros x Hx. rewrite (childrenOf_withoutChild roleName parentName x st st1 Hroles).
    apply String.eqb_neq in Hx. now rewrite Hx.
  - rewrite Hp1. intros H. apply filter_In in H. destruct H as [_ H].
    rewrite String.eqb_refl in H. discriminate.
  - intros Hno. rewrite <- (store_eta st1), <- (store_eta st).
    rewrite (Hass Hno), Hnext. f_equal. rewrite Hroles.
    rewrite <- (map_id (Meteor_roles st)) at 2. apply map_ext_in. intros d Hd.
    unfold withoutChild. rewrite matches_roleById.
    destruct (String.eqb (role_id d) parentName) eqn:Ed; auto.
    exfalso. apply String.eqb_eq in Ed. apply Hno. rewrite <- Ed. now apply in_map.
Qed.

Lemma removeRoleFromParent_removes_one_edge_witness :
  childrenOf (snd (_removeRoleFromParentAsync "editor" "admin" adminOverEditor)) "admin"
  = filter (fun c => negb (String.eqb c "editor")) (childrenOf adminOverEditor "admin").
Proof.
  destruct (removeRoleFromParent_removes_one_edge "editor" "admin" adminOverEditor
              (snd (_removeRoleFromParentAsync "editor" "admin" adminOverEditor)))
    as (_ & _ & H & _).
  - unfold uniqueRoleIds. vm_compute. repeat constructor; simpl; intuition discriminate.
  - vm_compute. reflexivity.
  - exact H.
Defined.

Lemma filter_out_last (r : string) (l : list string) :
  ~ In r l -> filter (fun c => negb (String.eqb c r)) (l ++ [r]) = l.
Proof.
  intros Hno. rewrite filter_app. simpl. rewrite String.eqb_refl. simpl.
  rewrite app_nil_r. induction l as [| x l IH]; simpl; auto.
  destruct (String.eqb x r) eqn:E.
  - apply String.eqb_eq in E. exfalso. apply Hno. now left.
  - simpl. f_equal. apply IH. intros H. apply Hno. now right.
Qed.

(** X17. An edge that was really added can be taken back: when the parent
    did not list the role, [_addRoleToParentAsync] followed by
    [_removeRoleFromParentAsync] returns and leaves the role collection
    exactly as it was before the two calls. *)
Theorem add_then_remove_edge (roleName parentName : string) (st st1 : Store) :
  uniqueRoleIds st ->
  ~ In roleName (childrenOf st parentName) ->
  _addRoleToParentAsync roleName parentName st = (Return tt, st1) ->
  exists st2,
    _removeRoleFromParentAsync roleName parentName st1 = (Return tt, st2)
    /\ Meteor_roles st2 = Meteor_roles st.
Proof.
  intros Hu Hnew Hrun.
  destruct (addRoleToParent_returns roleName parentName st st1 Hu Hrun)
    as ((Hr & Hp & Hin) & Hroles & _ & _).
  assert (Hids : map role_id (Meteor_roles st1) = map role_id (Meteor_roles st)).
  { rewrite Hroles, map_map. apply map_ext. intros d. apply withChild_keeps_id. }
  assert (Hu1 : uniqueRoleIds st1) by (unfold uniqueRoleIds in *; now rewrite Hids).
  assert (Hin1 : In roleName (map role_id (Meteor_roles st1))) by now rewrite Hids.
  destruct (removeRoleFromParent_eval roleName parentName st1 Hu1 Hr Hp Hin1)
    as (st2 & E & Hroles2 & _).
  exists st2. split; [exact E |].
  rewrite Hroles2, Hroles, map_map.
  rewrite <- (map_id (Meteor_roles st)) at 2. apply map_ext_in. intros d Hd.
  unfold withChild.
  destruct (Mongo.matchesRole (parentLacking roleName parentName) d) eqn:Em.
  - apply matches_parentLacking in Em. destruct Em as [Hid Hno].
    unfold withoutChild. rewrite matches_roleById. cbn [role_id].
    rewrite Hid, String.eqb_refl. unfold pullChild. cbn [role_id children].
    rewrite (filter_out_last roleName (children d) Hno). rewrite <- Hid.
    destruct d; reflexivity.
  - unfold withoutChild. rewrite matches_roleById.
    destruct (String.eqb (role_id d) parentName) eqn:Ed; auto.
    exfalso. apply String.eqb_eq in Ed.
    assert (Hm : Mongo.matchesRole (parentLacking roleName parentName) d = true).
    { apply matches_parentLacking. split; auto.
      rewrite <- Ed in Hnew. now rewrite (childrenOf_doc st d Hu Hd) in Hnew. }
    congruence.
Qed.

Lemma add_then_remove_edge_witness :
  exists st2,
    _removeRoleFromParentAsync "editor" "admin"
      (snd (_addRoleToParentAsync "editor" "admin" adminHeldAlone))
    = (Return tt, st2)
    /\ Meteor_roles st2 = Meteor_roles adminHeldAlone.
Proof.
  apply (add_then_remove_edge "editor" "admin" adminHeldAlone).
  - unfold uniqueRoleIds. vm_compute. repeat constructor; simpl; intuition discriminate.
  - vm_compute. tauto.
  - vm_compute. reflexivity.
Defined.

(** ** The names of the parents of a role *)

Lemma fold_Set_add (xs s : list string) :
  exists extra,
    fold_left Set_add xs s = s ++ extra
    /\ (forall x, In x (s ++ extra) <-> In x s \/ In x xs)
    /\ (NoDup s -> NoDup (s ++ extra)).
Proof.
  revert s. induction xs as [| y xs IH]; intros s; simpl.
  - exists []. rewrite app_nil_r. split; auto. split; [tauto | auto].
  - destruct (IH (Set_add s y)) as (extra & E & Hin & Hnd). unfold Set_add in *.
    destruct (memStr y s) eqn:Ey.
    + exists extra. split; [exact E |]. split; [| exact Hnd].
      intros x. rewrite Hin. apply memStr_In in Ey. intuition (subst; auto).
    + exists (y :: extra). rewrite <- app_assoc in *. simpl in *.
      split; [exact E |]. split.
      * intros x. rewrite Hin, in_app_iff. simpl. tauto.
      * intros Hs. apply Hnd. apply NoDup_app; auto.
        -- repeat constructor. simpl. tauto.
        -- intros x Hx [<- | []]. apply memStr_In in Hx. congruence.
Qed.

(** The walk of [_getParentRoleNamesAsync] over its growing set: what it
    has visited has its parents in the set, the set holds the start and
    ancestors of the start only, and the turns it is given are enough to
    visit everything. *)
Lemma parentRoles_loop_closes (st : Store) (start : string) :
  forall (turns : nat) (parentRoles : list string) (i : nat),
    NoDup parentRoles ->
    incl parentRoles (start :: map role_id (Meteor_roles st)) ->
    In start parentRoles ->
    (forall x, In x parentRoles -> x = start \/ ancestorOf st x start) ->
    (forall j z, j < i -> nth_error parentRoles j = Some z ->
       forall d, In d (Meteor_roles st) -> In z (children d) -> In (role_id d) parentRoles) ->
    S (List.length (Meteor_roles st)) <= turns + i ->
    exists final,
      parentRoles_loop turns parentRoles i st = (Return final, st)
      /\ NoDup final
      /\ In start final
      /\ (forall x, In x final -> x = start \/ ancestorOf st x start)
      /\ (forall z d, In z final -> In d (Meteor_roles st) -> In z (children d) ->
            In (role_id d) final).
Proof.
  assert (Hdone : forall parentRoles i,
            NoDup parentRoles ->
            incl parentRoles (start :: map role_id (Meteor_roles st)) ->
            List.length parentRoles <= i ->
            (forall j z, j < i -> nth_error parentRoles j = Some z ->
               forall d, In d (Meteor_roles st) -> In z (children d) ->
                         In (role_id d) parentRoles) ->
            forall z d, In z parentRoles -> In d (Meteor_roles st) -> In z (children d) ->
                        In (role_id d) parentRoles).
  { intros parentRoles i _ _ Hlen Hvis z d Hz Hd Hc.
    destruct (In_nth_error parentRoles z Hz) as (j & Hj).
    assert (j < List.length parentRoles) by (apply nth_error_Some; congruence).
    apply (Hvis j z); auto. lia. }
  induction turns as [| turns IH]; intros parentRoles i Hnd Hincl Hstart Hup Hvis Hturns.
  - exists parentRoles. simpl. split; [reflexivity |]. split; [exact Hnd |].
    split; [exact Hstart |]. split; [exact Hup |].
    apply (Hdone parentRoles i); auto.
    pose proof (NoDup_incl_length Hnd Hincl) as Hl. simpl in Hl.
    rewrite length_map in Hl. lia.
  - simpl. destruct (nth_error parentRoles i) as [roleName |] eqn:Hnth.
    2:{ exists parentRoles. split; [reflexivity |]. split; [exact Hnd |].
        split; [exact Hstart |]. split; [exact Hup |].
        apply (Hdone parentRoles i); auto. now apply nth_error_None. }
    unfold bind, roles_fetchAsync.
    destruct (fold_Set_add
                (map role_id (filter (Mongo.matchesRole (roleWithChild roleName))
                                (Meteor_roles st))) parentRoles)
      as (extra & E & Hin & Hnd').
    rewrite E.
    assert (Hname : In roleName parentRoles) by (eapply nth_error_In; eauto).
    apply IH.
    + auto.
    + intros x Hx. apply Hin in Hx. destruct Hx as [Hx | Hx]; [now apply Hincl |].
      right. apply in_map_iff in Hx. destruct Hx as (d & <- & Hd).
      apply filter_In in Hd. apply in_map. tauto.
    + apply in_or_app. now left.
    + intros x Hx. apply Hin in Hx. destruct Hx as [Hx | Hx]; [now apply Hup |].
      right. apply in_map_iff in Hx. destruct Hx as (d & <- & Hd).
      apply filter_In in Hd. destruct Hd as [Hd Hm].
      apply matchesRole_withChild in Hm.
      destruct (Hup roleName Hname) as [-> | Hanc].
      * apply ancestor_parent; auto.
      * eapply ancestor_step; eauto.
    + intros j z Hj Hz d Hd Hc.
      assert (Hlen : i < List.length parentRoles) by (apply nth_error_Some; congruence).
      rewrite nth_error_app1 in Hz by lia.
      assert (Hcases : j < i \/ j = i) by lia.
      destruct Hcases as [Hlt | ->].
      * apply in_or_app. left. now apply (Hvis j z).
      * rewrite Hnth in Hz. inversion Hz; subst z.
        apply Hin. right. apply in_map. apply filter_In. split; auto.
        now apply matchesRole_withChild.
    + lia.
Qed.

(** X18. [_getParentRoleNamesAsync] returns exactly the ancestors of the
    role: a name is in the result if and only if it is not the role's own
    name and a chain of role documents, each listing the next among its
    children, leads from it down to the role.  No name comes twice, the
    store is not written, [undefined] gives the empty array, and this holds
    for every role collection, cyclic ones included. *)
Theorem getParentRoleNames_ancestors (role : RoleDoc) (st : Store) :
  _getParentRoleNamesAsync None st = (Return [], st)
  /\ exists names,
       _getParentRoleNamesAsync (Some role) st = (Return names, st)
       /\ NoDup names
       /\ forall x, In x names <-> x <> role_id role /\ ancestorOf st x (role_id role).
Proof.
  split; [reflexivity |].
  destruct (parentRoles_loop_closes st (role_id role)
              (S (List.length (Meteor_roles st))) [role_id role] 0)
    as (final & E & Hnd & Hstart & Hup & Hclosed).
  - repeat constructor. simpl. tauto.
  - intros x [<- | []]. now left.
  - now left.
  - intros x [<- | []]. now left.
  - intros j z Hj. lia.
  - lia.
  - exists (filter (fun n => negb (String.eqb n (role_id role))) final).
    split; [| split].
    + unfold _getParentRoleNamesAsync, bind. rewrite E. reflexivity.
    + now apply NoDup_filter.
    + intros x. rewrite filter_In, negb_true_iff, String.eqb_neq. split.
      * intros [Hx Hne]. split; auto. destruct (Hup x Hx); [contradiction | auto].
      * intros [Hne Hanc]. split; auto. clear Hne.
        remember (role_id role) as start eqn:Es.
        induction Hanc as [d y Hd Hc | d z y Hd Hc Hanc IH].
        -- apply (Hclosed y d); auto.
        -- apply (Hclosed z d); auto.
Qed.

(** ** Scopes renamed and removed *)

Lemma rescope_same (s : option string) (a : Assignment) : rescope s s a = a.
Proof.
  unfold rescope. destruct (Mongo.matches (byScope s) a) eqn:E; auto.
  apply matches_byScope in E. destruct a. simpl in *. now subst.
Qed.

Lemma rescope_leaves_none (old new : option string) (a : Assignment) :
  old <> new -> Mongo.matches (byScope old) (rescope old new a) = false.
Proof.
  intros Hne. apply not_true_false. intros H. apply matches_byScope in H.
  unfold rescope in H. destruct (Mongo.matches (byScope old) a) eqn:E.
  - simpl in H. congruence.
  - assert (Mongo.matches (byScope old) a = true) by now apply matches_byScope.
    congruence.
Qed.

Lemma rescope_back (old new : option string) (a : Assignment) :
  scope a <> new -> rescope new old (rescope old new a) = a.
Proof.
  intros Hno. unfold rescope at 2.
  destruct (Mongo.matches (byScope old) a) eqn:E.
  - apply matches_byScope in E. unfold rescope.
    assert (Hm : Mongo.matches (byScope new)
                   (mkAssignment (a_id a) (user a) (role a) new (inheritedRoles a)) = true)
      by now apply matches_byScope.
    rewrite Hm. destruct a. simpl in *. now subst.
  - unfold rescope.
    destruct (Mongo.matches (byScope new) a) eqn:E2; auto.
    apply matches_byScope in E2. contradiction.
Qed.

Lemma renameScope_eval (old new : JS.Val) (st : Store) (fuel : nat) :
  _checkScopeName old = Return tt -> _checkScopeName new = Return tt -> 2 <= fuel ->
  renameScopeAsync fuel old new st
  = Some (Return tt,
          mkStore (Meteor_roles st)
            (map (rescope (scopeOf old) (scopeOf new)) (Meteor_roleAssignment st))
            (nextId st)).
Proof.
  intros Ho Hn Hfuel. unfold renameScopeAsync, bindF, run, lift. rewrite Ho, Hn.
  destruct (JS.strictEq old new) eqn:Eq.
  - apply strictEq_eq in Eq. subst new. unfold ret. f_equal. f_equal.
    rewrite <- (store_eta st) at 1. f_equal.
    rewrite <- (map_id (Meteor_roleAssignment st)) at 1.
    apply map_ext. intros a. now rewrite rescope_same.
  - assert (Hne : scopeOf old <> scopeOf new).
    { apply scopeOf_differs; auto. intros ->.
      assert (JS.strictEq new new = true) by now apply strictEq_eq.
      congruence. }
    destruct fuel as [| [| fuel]]; [lia | lia |].
    cbn [doWhile]. unfold roleAssignment_updateAsync at 1. rewrite update_multi.
    cbn [Meteor_roles Meteor_roleAssignment nextId].
    assert (Hmap : map (fun d => if Mongo.matches (byScope (scopeOf old)) d
                                 then Mongo.applyModifier (byScope (scopeOf old))
                                        (Mongo.SetScope (scopeOf new)) d
                                 else d) (Meteor_roleAssignment st)
                   = map (rescope (scopeOf old) (scopeOf new)) (Meteor_roleAssignment st))
      by reflexivity.
    rewrite Hmap.
    destruct (Nat.ltb 0 (List.length (filter (Mongo.matches (byScope (scopeOf old)))
                                        (Meteor_roleAssignment st)))); [| reflexivity].
    unfold roleAssignment_updateAsync. rewrite update_multi.
    cbn [Meteor_roles Meteor_roleAssignment nextId].
    assert (Hnone : filter (Mongo.matches (byScope (scopeOf old)))
                      (map (rescope (scopeOf old) (scopeOf new)) (Meteor_roleAssignment st))
                    = []).
    { clear Hmap. induction (Meteor_roleAssignment st) as [| a l IH]; simpl; auto.
      now rewrite rescope_leaves_none. }
    rewrite Hnone. cbn [List.length Nat.ltb Nat.leb]. f_equal. f_equal. f_equal.
    rewrite <- (map_id (map _ (Meteor_roleAssignment st))) at 2.
    apply map_ext_in. intros a Ha. apply in_map_iff in Ha. destruct Ha as (b & <- & _).
    now rewrite rescope_leaves_none.
Qed.

(** X19. [renameScope], given two names its validator accepts, always
    ends after at most two rounds of its loop.  It moves exactly the
    assignments of the old scope to the new one and changes nothing else,
    neither in the other assignments nor in the roles; and when no
    assignment was in the new scope before, renaming back restores the
    store. *)
Theorem renameScope_moves_assignments (old new : JS.Val) (st : Store) (fuel : nat) :
  _checkScopeName old = Return tt -> _checkScopeName new = Return tt -> 2 <= fuel ->
  exists st1,
    renameScopeAsync fuel old new st = Some (Return tt, st1)
    /\ Meteor_roles st1 = Meteor_roles st
    /\ Meteor_roleAssignment st1
       = map (rescope (scopeOf old) (scopeOf new)) (Meteor_roleAssignment st)
    /\ ((forall a, In a (Meteor_roleAssignment st) -> scope a <> scopeOf new) ->
        renameScopeAsync fuel new old st1 = Some (Return tt, st)).
Proof.
  intros Ho Hn Hfuel. eexists. split; [now apply renameScope_eval |].
  split; [reflexivity |]. split; [reflexivity |].
  intros Hfree. rewrite renameScope_eval by assumption.
  cbn [Meteor_roles Meteor_roleAssignment nextId]. f_equal. f_equal.
  rewrite <- (store_eta st) at 4. f_equal.
  rewrite map_map. rewrite <- (map_id (Meteor_roleAssignment st)) at 2.
  apply map_ext_in. intros a Ha. apply rescope_back. now apply Hfree.
Qed.

Lemma renameScope_moves_assignments_witness :
  exists st1,
    renameScopeAsync 2 (JS.Str "s1") (JS.Str "s2") adminGlobalAndScoped
    = Some (Return tt, st1)
    /\ Meteor_roles st1 = Meteor_roles adminGlobalAndScoped
    /\ Meteor_roleAssignment st1
       = map (rescope (Some "s1") (Some "s2")) (Meteor_roleAssignment adminGlobalAndScoped)
    /\ ((forall a, In a (Meteor_roleAssignment adminGlobalAndScoped) ->
           scope a <> Some "s2") ->
        renameScopeAsync 2 (JS.Str "s2") (JS.Str "s1") st1
        = Some (Return tt, adminGlobalAndScoped)).
Proof.
  apply (renameScope_moves_assignments (JS.Str "s1") (JS.Str "s2") adminGlobalAndScoped 2);
    [reflexivity | reflexivity | lia].
Defined.

(** X20. [removeScope] with a scope name removes the assignments made in
    that scope and nothing else: the roles stay, and afterwards a user
    passes [userIsInRole] in the removed scope exactly when the user passed
    it globally before.  With [null] it removes the global assignments, so
    that nobody passes the global check any more. *)
Theorem removeScope_keeps_global_grants (name : JS.Val) (st st1 : Store) :
  removeScopeAsync name st = (Return tt, st1) ->
  Meteor_roles st1 = Meteor_roles st
  /\ Meteor_roleAssignment st1
     = filter (fun a => negb (scope_eqb (scope a) (scopeOf name))) (Meteor_roleAssignment st)
  /\ (forall s usr rolesArg,
        name = JS.Str s ->
        userIsInRoleAsync usr rolesArg (OptionsString s) st1 = (Return true, st1)
        <-> userIsInRoleAsync usr rolesArg OptionsUndefined st = (Return true, st))
  /\ (name = JS.Null ->
      forall usr rolesArg,
        userIsInRoleAsync usr rolesArg OptionsUndefined st1 <> (Return true, st1)).
Proof.
  unfold removeScopeAsync, bind, lift.
  destruct (_checkScopeName name) as [[] | e] eqn:Hc; [| discriminate].
  unfold roleAssignment_removeAsync. intros H. inversion H as [Hst]. clear H.
  cbn [Meteor_roles Meteor_roleAssignment].
  assert (Hrem : Mongo.remove (Mongo.matches (byScope (scopeOf name))) (Meteor_roleAssignment st)
                 = filter (fun a => negb (scope_eqb (scope a) (scopeOf name)))
                     (Meteor_roleAssignment st)).
  { unfold Mongo.remove. apply filter_ext. intros a.
    unfold Mongo.matches, byScope. simpl. now rewrite andb_true_r. }
  split; [reflexivity |]. split; [exact Hrem |]. rewrite Hrem. split.
  - intros s usr rolesArg ->. rewrite !userIsInRole_true_iff.
    cbn [_normalizeOptions opt_scope anyScope _normalizeScopeName JS.isNullish scopeOf
         Meteor_roleAssignment].
    split.
    + intros (_ & Ht & Hs & r & a & Hr & Ha & Hu & Hsc & Hi).
      apply filter_In in Ha. destruct Ha as [Ha Hne].
      split; [reflexivity |]. split; [exact Ht |]. split; [exact Hs |].
      exists r, a. repeat (split; [assumption |]). split; [| exact Hi].
      destruct Hsc as [Hany | [Hsc | Hsc]]; [discriminate | | auto].
      rewrite Hsc in Hne. simpl in Hne. unfold scope_eqb, option_eqb in Hne.
      rewrite String.eqb_refl in Hne. discriminate.
    + intros (_ & Ht & Hs & r & a & Hr & Ha & Hu & Hsc & Hi).
      split; [exact Hc |]. split; [exact Ht |]. split; [exact Hs |].
      assert (Hnone : scope a = None) by (destruct Hsc as [Hany | [Hsc | Hsc]]; auto; discriminate).
      exists r, a. split; [exact Hr |]. split.
      { apply filter_In. split; auto. rewrite Hnone. reflexivity. }
      split; [exact Hu |]. split; [auto | exact Hi].
  - intros -> usr rolesArg H. apply userIsInRole_true_iff in H.
    cbn [_normalizeOptions opt_scope anyScope _normalizeScopeName JS.isNullish scopeOf
         Meteor_roleAssignment] in H.
    destruct H as (_ & _ & _ & r & a & _ & Ha & _ & Hsc & _).
    apply filter_In in Ha. destruct Ha as [_ Hne].
    assert (Hnone : scope a = None) by (destruct Hsc as [Hany | [Hsc | Hsc]]; auto; discriminate).
    rewrite Hnone in Hne. discriminate.
Qed.

Lemma removeScope_keeps_global_grants_witness :
  userIsInRoleAsync (UserVal (JS.Str "u1")) (One (JS.Str "admin")) (OptionsString "s1")
    (snd (removeScopeAsync (JS.Str "s1") adminGlobalAndScoped))
  = (Return true, snd (removeScopeAsync (JS.Str "s1") adminGlobalAndScoped)).
Proof.
  destruct (removeScope_keeps_global_grants (JS.Str "s1") adminGlobalAndScoped
              (snd (removeScopeAsync (JS.Str "s1") adminGlobalAndScoped)))
    as (_ & _ & H & _).
  - vm_compute. reflexivity.
  - apply (H "s1" (UserVal (JS.Str "u1")) (One (JS.Str "admin")) eq_refl).
    vm_compute. reflexivity.
Defined.

(** ** The search on a cyclic hierarchy *)

(** A name with a cycle below it has a role document and a child with the
    cycle below it. *)
Lemma cycleBelow_child (st : Store) (x : string) :
  cycleBelow st x ->
  exists r ch,
    find (Mongo.matchesRole (roleById x)) (Meteor_roles st) = Some r
    /\ In ch (children r) /\ cycleBelow st ch.
Proof.
  intros (c & r & ch & Hreach & Hf & Hch & Hback).
  destruct (reaches_inv st x c Hreach) as [-> | (r' & c' & Hf' & Hc' & Hreach')].
  - exists r, ch. split; auto. split; auto. exists c, r, ch. auto.
  - exists r', c'. split; auto. split; auto. exists c, r, ch. auto.
Qed.

Lemma isParentOf_loop_spins (st : Store) (child : string) :
  forall fuel stack,
    (forall x, In x stack -> ~ reaches st x child) ->
    (exists x, In x stack /\ cycleBelow st x) ->
    isParentOf_loop fuel child stack st = None.
Proof.
  induction fuel as [| fuel IH]; intros stack Hno Hcyc; [reflexivity |].
  destruct stack as [| x rest] using rev_ind.
  - destruct Hcyc as (x & [] & _).
  - clear IHrest.
    assert (Hne : x <> child).
    { intros ->. apply (Hno child); [apply in_or_app; right; now left | constructor]. }
    destruct (find (Mongo.matchesRole (roleById x)) (Meteor_roles st)) as [r |] eqn:Hf.
    + rewrite (loop_top_expand st fuel child x rest r Hne Hf). apply IH.
      * intros y Hy. apply in_app_or in Hy. destruct Hy as [Hy | Hy].
        -- apply Hno. apply in_or_app. now left.
        -- intros Hreach. apply (Hno x); [apply in_or_app; right; now left |].
           eapply reaches_step; eauto.
      * destruct Hcyc as (y & Hy & Hcy). apply in_app_or in Hy.
        destruct Hy as [Hy | [<- | []]].
        -- exists y. split; auto. apply in_or_app. now left.
        -- destruct (cycleBelow_child st x Hcy) as (r' & ch & Hf' & Hch & Hc).
           rewrite Hf in Hf'. inversion Hf'; subst r'.
           exists ch. split; auto. apply in_or_app. now right.
    + rewrite (loop_top_dangling st fuel child x rest Hne Hf). apply IH.
      * intros y Hy. apply Hno. apply in_or_app. now left.
      * destruct Hcyc as (y & Hy & Hcy). apply in_app_or in Hy.
        destruct Hy as [Hy | [<- | []]].
        -- exists y. auto.
        -- destruct (cycleBelow_child st x Hcy) as (r' & ch & Hf' & _). congruence.
Qed.

(** X21. On a hierarchy with a cycle the search of [isParentOf] does not
    end: when the children edges lead from the first name to a cycle and
    never to the second name, the loop is still running after any number of
    turns. *)
Theorem isParentOf_spins_on_cycle (st : Store) (a b : string) :
  _checkRoleName (JS.Str a) = Return tt -> _checkRoleName (JS.Str b) = Return tt ->
  ~ reaches st a b ->
  cycleBelow st a ->
  forall fuel, isParentOfAsync fuel (JS.Str a) (JS.Str b) st = None.
Proof.
  intros Ha Hb Hno Hcyc fuel. unfold isParentOfAsync.
  assert (Hne : a <> b) by (intros ->; apply Hno; constructor).
  rewrite (strictEq_false (JS.Str a) (JS.Str b)) by congruence.
  cbn [JS.isNullish orb]. unfold bindF, run, lift. rewrite Ha, Hb.
  apply isParentOf_loop_spins.
  - intros x [<- | []]. exact Hno.
  - exists a. split; [now left | exact Hcyc].
Qed.

Lemma isParentOf_spins_on_cycle_witness :
  isParentOfAsync 1000 (JS.Str "a") (JS.Str "b") selfLoop = None.
Proof.
  apply (isParentOf_spins_on_cycle selfLoop "a" "b"); [reflexivity | reflexivity | |].
  - assert (H : forall x y, reaches selfLoop x y -> x = "a" -> y = "a").
    { intros x y Hr. induction Hr as [x | x y c r Hf Hc Hr IH]; auto.
      intros ->. apply IH. vm_compute in Hf. inversion Hf; subst r.
      destruct Hc as [<- | []]. reflexivity. }
    intros Hr. specialize (H "a" "b" Hr eq_refl). discriminate.
  - exists "a", (mkRole "a" ["a"]), "a".
    split; [constructor |]. split; [reflexivity |]. split; [now left | constructor].
Defined.

(** ** The queries *)

Lemma Set_of_spec {A : Type} (eqb : A -> A -> bool) :
  (forall x y, eqb x y = true <-> x = y) ->
  forall xs seen,
    NoDup (Set_of eqb seen xs)
    /\ forall x, In x (Set_of eqb seen xs) <-> In x xs /\ ~ In x seen.
Proof.
  intros Heq. induction xs as [| y xs IH]; intros seen; simpl.
  - split; [constructor | tauto].
  - destruct (existsb (eqb y) seen) eqn:E.
    + destruct (IH seen) as [Hnd Hin]. split; [exact Hnd |].
      apply existsb_exists in E. destruct E as (z & Hz & Hyz). apply Heq in Hyz. subst z.
      intros x. rewrite Hin. split; [tauto |].
      intros [[<- | Hx] Hno]; [contradiction | auto].
    + destruct (IH (y :: seen)) as [Hnd Hin].
      assert (Hy : ~ In y seen).
      { intros Hy. assert (existsb (eqb y) seen = true)
          by (apply existsb_exists; exists y; split; auto; now apply Heq).
        congruence. }
      split.
      * constructor; auto. rewrite Hin. simpl. tauto.
      * intros x. simpl. rewrite Hin. simpl. split.
        -- intros [<- | [Hx Hno]]; [auto | tauto].
        -- intros [[<- | Hx] Hno]; [auto |].
           destruct (Heq y x) as [_ Hdec].
           destruct (eqb y x) eqn:Eyx.
           ++ left. now apply Heq.
           ++ right. split; auto. intros [-> | H]; [| contradiction].
              specialize (Hdec eq_refl). discriminate.
Qed.

Lemma matches_membershipSelector (id : JS.Val) (o : Options) (a : Assignment) :
  Mongo.matches (membershipSelector id o) a = true
  <-> user a = id
      /\ (anyScope o = true \/ scope a = scopeOf (opt_scope o) \/ scope a = None).
Proof.
  unfold membershipSelector, Mongo.matches. destruct (anyScope o); simpl.
  - rewrite !andb_true_r, strictEq_eq. tauto.
  - rewrite !andb_true_r, andb_true_iff, strictEq_eq, orb_false_r, orb_true_iff.
    rewrite !scope_eqb_eq. split; [intros [H1 H2]; auto |].
    intros [H1 [H2 | H2]]; [discriminate | auto].
Qed.

Lemma collected_names (roles : list Assignment) (acc : list string) (r : string) :
  In r (fold_left
          (fun rev current =>
             match p_inheritedRoles current with
             | Some l => rev ++ l
             | None =>
                 match p_role current with
                 | Some r => rev ++ [r]
                 | None => rev
                 end
             end)
          (map (project false) roles) acc)
  <-> In r acc \/ exists a l, In a roles /\ inheritedRoles a = Some l /\ In r l.
Proof.
  revert acc. induction roles as [| a roles IH]; intros acc; simpl.
  - split; [auto | intros [H | (a & l & [] & _)]; auto].
  - rewrite IH. destruct (inheritedRoles a) as [l |] eqn:El.
    + rewrite in_app_iff. split.
      * intros [[H | H] | (b & l' & Hb & E & H)]; auto.
        -- right. exists a, l. auto.
        -- right. exists b, l'. auto.
      * intros [H | (b & l' & [<- | Hb] & E & H)]; auto.
        -- rewrite El in E. inversion E; subst l'. auto.
        -- right. exists b, l'. auto.
    + split.
      * intros [H | (b & l' & Hb & E & H)]; auto. right. exists b, l'. auto.
      * intros [H | (b & l' & [<- | Hb] & E & H)]; auto; [congruence |].
        right. exists b, l'. auto.
Qed.

(** X22. Without [onlyScoped], [onlyAssigned] and [fullObjects], the
    names [getRolesForUser] returns for a user given by a string id are,
    each once, exactly the role names for which [userIsInRole] answers
    [true] with the same scope options. *)
Theorem getRolesForUser_lists_what_userIsInRole_accepts (usr : UserArg)
    (options : QueryOptionsArg) (st : Store) (names : list string) :
  onlyScopedOf options = false -> onlyAssignedOf options = false ->
  JS.isString (guardedUserIdOf usr) = true ->
  getRolesForUserAsync usr options st = (Return (RoleNames names), st) ->
  NoDup names
  /\ forall r, In r names
       <-> userIsInRoleAsync usr (One (JS.Str r)) (baseOptions options) st
           = (Return true, st).
Proof.
  intros Hscoped Hassigned Hstr. unfold getRolesForUserAsync, bind, lift.
  rewrite Hscoped, Hassigned.
  destruct (_checkScopeName (opt_scope (_normalizeOptions (baseOptions options))))
    as [[] | e] eqn:Hc; [| discriminate].
  destruct (JS.truthy (guardedUserIdOf usr)) eqn:Ht; cbn [negb].
  - destruct (fullObjectsOf options); [discriminate |].
    unfold fetchAsync, ret. cbn [cursor_query]. intros H. inversion H as [Hnames]. clear H.
    destruct (Set_of_spec String.eqb String.eqb_eq
                (fold_left
                   (fun rev current =>
                      match p_inheritedRoles current with
                      | Some l => rev ++ l
                      | None =>
                          match p_role current with
                          | Some r => rev ++ [r]
                          | None => rev
                          end
                      end)
                   (map (project false)
                      (filter
                         (matchesQuery
                            (mkQuery
                               (membershipSelector (guardedUserIdOf usr)
                                  (_normalizeOptions (baseOptions options)))
                               false None))
                         (Meteor_roleAssignment st))) []) []) as [Hnd Hin].
    split; [exact Hnd |].
    intros r. rewrite userIsInRole_true_iff.
    change (In r
              (Set_of String.eqb []
                 (fold_left
                    (fun rev current =>
                       match p_inheritedRoles current with
                       | Some l => rev ++ l
                       | None =>
                           match p_role current with
                           | Some r => rev ++ [r]
                           | None => rev
                           end
                       end)
                    (map (project false)
                       (filter
                          (matchesQuery
                             (mkQuery
                                (membershipSelector (guardedUserIdOf usr)
                                   (_normalizeOptions (baseOptions options)))
                                false None))
                          (Meteor_roleAssignment st))) []))
            <-> _checkScopeName (opt_scope (_normalizeOptions (baseOptions options)))
                = Return tt
                /\ JS.truthy (guardedUserIdOf usr) = true
                /\ JS.isString (guardedUserIdOf usr) = true
                /\ exists r0 a,
                     In (JS.Str r0) [JS.Str r]
                     /\ In a (Meteor_roleAssignment st)
                     /\ user a = guardedUserIdOf usr
                     /\ (anyScope (_normalizeOptions (baseOptions options)) = true
                         \/ scope a = scopeOf (opt_scope (_normalizeOptions (baseOptions options)))
                         \/ scope a = None)
                     /\ exists l, inheritedRoles a = Some l /\ In r0 l).
    rewrite Hin, collected_names. split.
    + intros [[[] | (a & l & Ha & El & Hl)] _].
      apply filter_In in Ha. destruct Ha as [Ha Hm].
      unfold matchesQuery in Hm. cbn [query_base query_scoped query_inherits Mongo.holds] in Hm.
      rewrite !andb_true_r in Hm. apply matches_membershipSelector in Hm.
      destruct Hm as [Hu Hsc].
      split; [exact Hc |]. split; [exact Ht |]. split; [exact Hstr |].
      exists r, a. split; [now left |]. split; [exact Ha |]. split; [exact Hu |].
      split; [exact Hsc |]. exists l. auto.
    + intros (_ & _ & _ & r0 & a & Hr & Ha & Hu & Hsc & l & El & Hl).
      destruct Hr as [Hr | []]. inversion Hr; subst r0.
      split; [| tauto]. right. exists a, l. split; [| auto].
      apply filter_In. split; [exact Ha |].
      unfold matchesQuery. cbn [query_base query_scoped query_inherits Mongo.holds].
      rewrite !andb_true_r. apply matches_membershipSelector. auto.
  - destruct (fullObjectsOf options); [discriminate |].
    unfold ret. intros H. inversion H. split; [constructor |].
    intros r. rewrite userIsInRole_true_iff. split; [intros [] |].
    intros (_ & Ht' & _). congruence.
Qed.

Lemma getRolesForUser_lists_what_userIsInRole_accepts_witness :
  userIsInRoleAsync (UserVal (JS.Str "u1")) (One (JS.Str "admin")) OptionsUndefined
    adminAssigned
  = (Return true, adminAssigned).
Proof.
  destruct (getRolesForUser_lists_what_userIsInRole_accepts (UserVal (JS.Str "u1"))
              QueryUndefined adminAssigned ["admin"]) as [_ H].
  - reflexivity.
  - reflexivity.
  - reflexivity.
  - vm_compute. reflexivity.
  - apply H. now left.
Defined.

Lemma normalizeOptions_again (options : OptionsArg) :
  _normalizeOptions (OptionsObject (_normalizeOptions options)) = _normalizeOptions options.
Proof.
  unfold _normalizeOptions. cbn [opt_scope anyScope ifExists unlessExists]. f_equal.
  unfold _normalizeScopeName.
  destruct (JS.isNullish (opt_scope _)) eqn:E; [reflexivity | now rewrite E].
Qed.

Lemma matches_usersInRole (names : list string) (o : Options) (a : Assignment) :
  matchesQuery
    (mkQuery
       (if negb (anyScope o)
        then withScope (scopeIn (scopeOf (opt_scope o)) false)
               (Mongo.mkSelector None None None None None)
        else Mongo.mkSelector None None None None None)
       false (Some names)) a = true
  <-> (anyScope o = true \/ scope a = scopeOf (opt_scope o) \/ scope a = None)
      /\ exists r l, In r names /\ inheritedRoles a = Some l /\ In r l.
Proof.
  unfold matchesQuery. cbn [query_base query_scoped query_inherits Mongo.holds].
  rewrite andb_true_r, andb_true_iff.
  assert (Hinh : match inheritedRoles a with
                 | Some l => existsb (fun n => memStr n l) names
                 | None => false
                 end = true
                 <-> exists r l, In r names /\ inheritedRoles a = Some l /\ In r l).
  { destruct (inheritedRoles a) as [l |].
    - rewrite existsb_exists. split.
      + intros (r & Hr & Hm). exists r, l. apply memStr_In in Hm. auto.
      + intros (r & l' & Hr & E & Hl). inversion E; subst l'. exists r.
        split; auto. now apply memStr_In.
    - split; [discriminate | intros (r & l & _ & E & _); discriminate]. }
  rewrite Hinh. unfold Mongo.matches. destruct (anyScope o); simpl.
  - intuition auto.
  - rewrite andb_true_r, orb_false_r, orb_true_iff, !scope_eqb_eq. intuition discriminate.
Qed.

(** X23. Without [onlyScoped], the user ids [getUsersInRole] collects for
    some role names contain a non-empty string id exactly when
    [userIsInRole] answers [true] for that user, the same role names and
    the same scope options. *)
Theorem getUsersInRole_lists_who_userIsInRole_accepts (roles : OneOrMany string)
    (options : QueryOptionsArg) (st : Store) (ids : list JS.Val) (u : string) :
  onlyScopedOf options = false ->
  u <> EmptyString ->
  getUsersInRoleAsync roles options st = (Return ids, st) ->
  In (JS.Str u) ids
  <-> userIsInRoleAsync (UserVal (JS.Str u)) (Many (map JS.Str (ensureArray roles)))
        (baseOptions options) st
      = (Return true, st).
Proof.
  intros Hscoped Hu. unfold getUsersInRoleAsync, getUserAssignmentsForRole, _getUsersInRoleCursor.
  cbn [baseOptions onlyScopedOf]. rewrite normalizeOptions_again, Hscoped.
  unfold bind, lift.
  destruct (_checkScopeName (opt_scope (_normalizeOptions (baseOptions options))))
    as [[] | e] eqn:Hc; [| discriminate].
  unfold fetchAsync, ret. cbn [cursor_query]. intros H. inversion H as [Hids]. clear H.
  rewrite userIsInRole_true_iff, in_map_iff. cbn [guardedUserIdOf ensureArray].
  split.
  - intros (a & Hua & Ha). apply filter_In in Ha. destruct Ha as [Ha Hm].
    destruct (proj1 (matches_usersInRole (ensureArray roles)
                       (_normalizeOptions (baseOptions options)) a) Hm)
      as [Hsc (r & l & Hr & El & Hl)].
    split; [exact Hc |]. split; [now apply nonempty_truthy |]. split; [reflexivity |].
    exists r, a. split; [now apply in_map |]. split; [exact Ha |].
    split; [exact Hua |]. split; [exact Hsc |]. exists l. auto.
  - intros (_ & _ & _ & r & a & Hr & Ha & Hua & Hsc & l & El & Hl).
    apply in_map_iff in Hr. destruct Hr as (r' & Er & Hr). inversion Er; subst r'.
    exists a. split; [exact Hua |]. apply filter_In. split; [exact Ha |].
    apply (proj2 (matches_usersInRole (ensureArray roles)
                    (_normalizeOptions (baseOptions options)) a)).
    split; [exact Hsc |]. exists r, l. auto.
Qed.

Lemma getUsersInRole_lists_who_userIsInRole_accepts_witness :
  userIsInRoleAsync (UserVal (JS.Str "u1")) (Many [JS.Str "admin"]) OptionsUndefined
    adminAssigned
  = (Return true, adminAssigned).
Proof.
  apply (getUsersInRole_lists_who_userIsInRole_accepts (One "admin") QueryUndefined
           adminAssigned [JS.Str "u1"] "u1").
  - reflexivity.
  - discriminate.
  - vm_compute. reflexivity.
  - now left.
Defined.

Lemma scopes_of_query (id : JS.Val) (asked : option (list string)) (st : Store) :
  NoDup (Set_of scope_eqb []
           (map scope (filter (matchesQuery (mkQuery (byUser id) true asked))
                         (Meteor_roleAssignment st))))
  /\ forall sc,
       In sc (Set_of scope_eqb []
                (map scope (filter (matchesQuery (mkQuery (byUser id) true asked))
                              (Meteor_roleAssignment st))))
       <-> sc <> None
           /\ exists a, In a (Meteor_roleAssignment st) /\ user a = id /\ scope a = sc
                        /\ match asked with
                           | Some names =>
                               exists r l, In r names /\ inheritedRoles a = Some l /\ In r l
                           | None => True
                           end.
Proof.
  destruct (Set_of_spec scope_eqb scope_eqb_eq
              (map scope (filter (matchesQuery (mkQuery (byUser id) true asked))
                            (Meteor_roleAssignment st))) []) as [Hnd Hin].
  split; [exact Hnd |]. intros sc. rewrite Hin, in_map_iff.
  assert (Hq : forall a,
             matchesQuery (mkQuery (byUser id) true asked) a = true
             <-> user a = id /\ scope a <> None
                 /\ match asked with
                    | Some names =>
                        exists r l, In r names /\ inheritedRoles a = Some l /\ In r l
                    | None => True
                    end).
  { intros a. unfold matchesQuery. cbn [query_base query_scoped query_inherits].
    rewrite !andb_true_iff, matches_byUser, negb_true_iff.
    assert (Hs : scope_eqb (scope a) None = false <-> scope a <> None).
    { split.
      - intros E H. rewrite H in E. discriminate.
      - intros H. apply not_true_false. intros E. apply scope_eqb_eq in E. contradiction. }
    rewrite Hs. destruct asked as [names |]; cbn [Mongo.holds].
    - destruct (inheritedRoles a) as [l |].
      + rewrite existsb_exists. split.
        * intros [[H1 H2] (r & Hr & Hm)]. split; auto. split; auto.
          exists r, l. apply memStr_In in Hm. auto.
        * intros (H1 & H2 & r & l' & Hr & E & Hl). inversion E; subst l'.
          split; auto. exists r. split; auto. now apply memStr_In.
      + split; [intros [_ H]; discriminate |].
        intros (_ & _ & r & l & _ & E & _). discriminate.
    - tauto. }
  split.
  - intros [(a & Hsc & Ha) _]. apply filter_In in Ha. destruct Ha as [Ha Hm].
    apply Hq in Hm. destruct Hm as (Hu & Hne & Hasked).
    split; [congruence |]. exists a. auto.
  - intros (Hne & a & Ha & Hu & Hsc & Hasked). split; [| tauto].
    exists a. split; [exact Hsc |]. apply filter_In. split; [exact Ha |].
    apply Hq. split; [exact Hu |]. split; [congruence | exact Hasked].
Qed.

(** X24. [getScopesForUser] for a user with a truthy id returns, each
    once and never [null], the scopes in which the user has an assignment;
    given an array of role names, only the scopes of assignments that
    inherit one of them, so that an empty array gives no scope at all while
    leaving the argument out gives every scope of the user. *)
Theorem getScopesForUser_lists_scopes (usr : UserArg) (names : list string) (st : Store) :
  JS.truthy (guardedUserIdOf usr) = true ->
  (exists scopes,
     getScopesForUserAsync usr None st = (Return scopes, st)
     /\ NoDup scopes
     /\ forall sc, In sc scopes
          <-> sc <> None
              /\ exists a, In a (Meteor_roleAssignment st)
                           /\ user a = guardedUserIdOf usr /\ scope a = sc)
  /\ (exists scopes,
        getScopesForUserAsync usr (Some (Many names)) st = (Return scopes, st)
        /\ NoDup scopes
        /\ forall sc, In sc scopes
             <-> sc <> None
                 /\ exists a r l, In a (Meteor_roleAssignment st)
                                  /\ user a = guardedUserIdOf usr /\ scope a = sc
                                  /\ In r names /\ inheritedRoles a = Some l /\ In r l).
Proof.
  intros Ht. unfold getScopesForUserAsync. rewrite Ht. cbn [negb namesTruthy ensureArray].
  unfold bind, fetchAsync, ret. cbn [cursor_query].
  split.
  - eexists. split; [reflexivity |].
    destruct (scopes_of_query (guardedUserIdOf usr) None st) as [Hnd Hin].
    split; [exact Hnd |]. intros sc. rewrite Hin. split.
    + intros (Hne & a & Ha & Hu & Hsc & _). split; auto. exists a. auto.
    + intros (Hne & a & Ha & Hu & Hsc). split; auto. exists a. auto.
  - eexists. split; [reflexivity |].
    destruct (scopes_of_query (guardedUserIdOf usr) (Some names) st) as [Hnd Hin].
    split; [exact Hnd |]. intros sc. rewrite Hin. split.
    + intros (Hne & a & Ha & Hu & Hsc & r & l & H). split; auto. exists a, r, l. tauto.
    + intros (Hne & a & r & l & Ha & Hu & Hsc & H). split; auto. exists a.
      repeat (split; [assumption |]). exists r, l. exact H.
Qed.

Lemma getScopesForUser_lists_scopes_witness :
  exists scopes,
    getScopesForUserAsync (UserVal (JS.Str "u1")) (Some (Many ["admin"])) adminGlobalAndScoped
    = (Return scopes, adminGlobalAndScoped)
    /\ NoDup scopes
    /\ (In (Some "s1") scopes
        <-> Some "s1" <> None
            /\ exists a r l, In a (Meteor_roleAssignment adminGlobalAndScoped)
                             /\ user a = JS.Str "u1" /\ scope a = Some "s1"
                             /\ In r ["admin"] /\ inheritedRoles a = Some l /\ In r l).
Proof.
  destruct (getScopesForUser_lists_scopes (UserVal (JS.Str "u1")) ["admin"]
              adminGlobalAndScoped eq_refl) as [_ (scopes & E & Hnd & Hin)].
  exists scopes. split; [exact E |]. split; [exact Hnd |]. apply Hin.
Defined.

(** ** What a rename leaves behind *)

(** A rewriting loop that a complete rewriting [full] absorbs ends with
    the collection rewritten by [full]. *)
Lemma assignment_loop_exact (q : Mongo.Selector) (m : Mongo.Modifier)
    (w : Assignment -> nat) (full : Assignment -> Assignment) :
  (forall a, Mongo.matches q a = true -> w (Mongo.applyModifier q m a) < w a) ->
  (forall a, Mongo.matches q a = true -> full (Mongo.applyModifier q m a) = full a) ->
  (forall a, Mongo.matches q a = false -> full a = a) ->
  forall st fuel, total w (Meteor_roleAssignment st) < fuel ->
    doWhile fuel (roleAssignment_updateAsync q m true) st
    = Some (Return tt,
            mkStore (Meteor_roles st) (map full (Meteor_roleAssignment st)) (nextId st)).
Proof.
  intros Hw Habs Hfix st fuel Hfuel.
  destruct (doWhile_ends (roleAssignment_updateAsync q m true)
              (fun s => Meteor_roles s = Meteor_roles st /\ nextId s = nextId st
                        /\ map full (Meteor_roleAssignment s)
                           = map full (Meteor_roleAssignment st))
              (fun s => forall a, In a (Meteor_roleAssignment s) -> Mongo.matches q a = false)
              (fun s => total w (Meteor_roleAssignment s)))
    with (k := S (total w (Meteor_roleAssignment st))) (st := st)
    as (st' & (Hr & Hn & Hmap) & Hpost & Hloop); auto.
  - intros s (Hr & Hn & Hmap). unfold roleAssignment_updateAsync. rewrite update_multi.
    eexists. eexists. split; [reflexivity |].
    cbn [Meteor_roles Meteor_roleAssignment nextId]. split; [| split].
    + split; [exact Hr |]. split; [exact Hn |]. rewrite <- Hmap, map_map.
      apply map_ext. intros a. destruct (Mongo.matches q a) eqn:E; auto.
    + intros H. apply total_decreased; auto.
    + intros H. destruct (no_match_unchanged (Mongo.matches q) (Mongo.applyModifier q m)
                            (Meteor_roleAssignment s) H) as [E Hno].
      rewrite E. exact Hno.
  - rewrite (Hloop fuel Hfuel). f_equal. f_equal.
    rewrite <- (store_eta st'). rewrite Hr, Hn. f_equal.
    rewrite <- Hmap. rewrite <- (map_id (Meteor_roleAssignment st')) at 1.
    apply map_ext_in. intros a Ha. symmetry. apply Hfix. now apply Hpost.
Qed.

Lemma role_loop_exact (q : Mongo.RoleSelector) (m : Mongo.RoleModifier)
    (w : RoleDoc -> nat) (full : RoleDoc -> RoleDoc) :
  (forall r, Mongo.matchesRole q r = true -> w (Mongo.applyRoleModifier q m r) < w r) ->
  (forall r, Mongo.matchesRole q r = true -> full (Mongo.applyRoleModifier q m r) = full r) ->
  (forall r, Mongo.matchesRole q r = false -> full r = r) ->
  forall st fuel, total w (Meteor_roles st) < fuel ->
    doWhile fuel (roles_updateAsync q m true) st
    = Some (Return tt,
            mkStore (map full (Meteor_roles st)) (Meteor_roleAssignment st) (nextId st)).
Proof.
  intros Hw Habs Hfix st fuel Hfuel.
  destruct (doWhile_ends (roles_updateAsync q m true)
              (fun s => Meteor_roleAssignment s = Meteor_roleAssignment st
                        /\ nextId s = nextId st
                        /\ map full (Meteor_roles s) = map full (Meteor_roles st))
              (fun s => forall r, In r (Meteor_roles s) -> Mongo.matchesRole q r = false)
              (fun s => total w (Meteor_roles s)))
    with (k := S (total w (Meteor_roles st))) (st := st)
    as (st' & (Ha & Hn & Hmap) & Hpost & Hloop); auto.
  - intros s (Ha & Hn & Hmap). unfold roles_updateAsync. rewrite update_multi.
    eexists. eexists. split; [reflexivity |].
    cbn [Meteor_roles Meteor_roleAssignment nextId]. split; [| split].
    + split; [exact Ha |]. split; [exact Hn |]. rewrite <- Hmap, map_map.
      apply map_ext. intros r. destruct (Mongo.matchesRole q r) eqn:E; auto.
    + intros H. apply total_decreased; auto.
    + intros H. destruct (no_match_unchanged (Mongo.matchesRole q) (Mongo.applyRoleModifier q m)
                            (Meteor_roles s) H) as [E Hno].
      rewrite E. exact Hno.
  - rewrite (Hloop fuel Hfuel). f_equal. f_equal.
    rewrite <- (store_eta st'). rewrite Ha, Hn. f_equal.
    rewrite <- Hmap. rewrite <- (map_id (Meteor_roles st')) at 1.
    apply map_ext_in. intros r Hr. symmetry. apply Hfix. now apply Hpost.
Qed.

Lemma renamed_replaceFirst (old new : string) (l : list string) :
  map (renamed old new) (Mongo.replaceFirst old new l) = map (renamed old new) l.
Proof.
  induction l as [| x l IH]; simpl; auto.
  destruct (String.eqb x old) eqn:E; simpl.
  - f_equal. unfold renamed. rewrite E. destruct (String.eqb new old); reflexivity.
  - now rewrite IH.
Qed.

Lemma renamed_absent (old new : string) (l : list string) :
  ~ In old l -> map (renamed old new) l = l.
Proof.
  intros Hno. rewrite <- (map_id l) at 2. apply map_ext_in. intros x Hx.
  unfold renamed. destruct (String.eqb x old) eqn:E; auto.
  apply String.eqb_eq in E. subst x. contradiction.
Qed.

Lemma bindF_step {A B : Type} (m : Fueled A) (k : A -> Fueled B) (st st' : Store) (a : A) :
  m st = Some (Return a, st') -> bindF m k st = k a st'.
Proof. intros E. unfold bindF. now rewrite E. Qed.

(** X25. [renameRole] replaces the old name everywhere. For two valid
    names, the old one a role and the new one not, the three loops end and
    the call returns; afterwards every assignment has the new name where
    its role or an entry of its [inheritedRoles] was the old one, every
    role has it where a child was the old one, the role documents of the
    old name are gone and a document of the new name with the first one's
    (renamed) children is the last of the collection.  Users, scopes and
    assignment ids are as before. *)
Theorem renameRole_replaces_everywhere (oldName newName : string) (rd : RoleDoc)
    (st : Store) :
  _checkRoleName (JS.Str oldName) = Return tt ->
  _checkRoleName (JS.Str newName) = Return tt ->
  oldName <> newName ->
  find (Mongo.matchesRole (roleById oldName)) (Meteor_roles st) = Some rd ->
  ~ In newName (map role_id (Meteor_roles st)) ->
  exists n, forall fuel, n <= fuel ->
    renameRoleAsync fuel oldName newName st
    = Some (Return tt,
            mkStore
              (map (renamedChildren oldName newName)
                 (filter (fun r => negb (String.eqb (role_id r) oldName)) (Meteor_roles st))
               ++ [mkRole newName (map (renamed oldName newName) (children rd))])
              (map (renamedAssignment oldName newName) (Meteor_roleAssignment st))
              (nextId st)).
Proof.
  intros Ho Hn Hne Hfind Hfresh.
  set (full1 := fun a => mkAssignment (a_id a) (user a) (renamed oldName newName (role a))
                           (scope a) (inheritedRoles a)).
  set (full2 := fun a => mkAssignment (a_id a) (user a) (role a) (scope a)
                           (option_map (map (renamed oldName newName)) (inheritedRoles a))).
  set (inserted := Meteor_roles st ++ [mkRole newName (children rd)]).
  exists (S (total (indicator (Mongo.matches (byRole oldName))) (Meteor_roleAssignment st)
             + total (inheritedWeight oldName) (map full1 (Meteor_roleAssignment st))
             + total (childrenWeight oldName) inserted)).
  intros fuel Hfuel. unfold renameRoleAsync.
  rewrite (bindF_step _ _ st st tt) by (unfold run, lift; now rewrite Ho).
  rewrite (bindF_step _ _ st st tt) by (unfold run, lift; now rewrite Hn).
  apply String.eqb_neq in Hne. rewrite Hne. apply String.eqb_neq in Hne.
  rewrite (bindF_step _ _ st st (Some rd)) by (unfold run, roles_findOneAsync; now rewrite Hfind).
  rewrite (bindF_step _ _ st
             (mkStore inserted (Meteor_roleAssignment st) (nextId st)) newName).
  2:{ unfold run, roles_insertAsync. cbn [role_id].
      assert (Hex : existsb (fun r => String.eqb (role_id r) newName) (Meteor_roles st) = false).
      { apply not_true_false. intros H. apply existsb_exists in H.
        destruct H as (r & Hr & E). apply String.eqb_eq in E.
        apply Hfresh. rewrite <- E. now apply in_map. }
      now rewrite Hex. }
  rewrite (bindF_step _ _ _
             (mkStore inserted (map full1 (Meteor_roleAssignment st)) (nextId st)) tt).
  2:{ rewrite (assignment_loop_exact (byRole oldName) (Mongo.SetRoleId newName)
                 (indicator (Mongo.matches (byRole oldName))) full1).
      - reflexivity.
      - intros a. now apply role_loop_lowers.
      - intros a Hm. apply matches_byRole in Hm. unfold full1. simpl.
        unfold renamed. rewrite Hm, String.eqb_refl.
        destruct (String.eqb newName oldName); reflexivity.
      - intros a Hm. unfold full1, renamed.
        destruct (String.eqb (role a) oldName) eqn:E.
        + apply String.eqb_eq in E.
          assert (Mongo.matches (byRole oldName) a = true) by now apply matches_byRole.
          congruence.
        + destruct a; reflexivity.
      - cbn [Meteor_roleAssignment]. lia. }
  rewrite (bindF_step _ _ _
             (mkStore inserted (map (renamedAssignment oldName newName)
                                  (Meteor_roleAssignment st)) (nextId st)) tt).
  2:{ rewrite (assignment_loop_exact (byInherited oldName)
                 (Mongo.SetInheritedRolePositional newName)
                 (inheritedWeight oldName) full2).
      - cbn [Meteor_roles Meteor_roleAssignment nextId]. now rewrite map_map.
      - intros a. now apply inherited_loop_lowers.
      - intros a Hm. apply matches_byInherited in Hm. destruct Hm as (l & E & Hin).
        unfold full2. simpl. rewrite E. simpl. now rewrite renamed_replaceFirst.
      - intros a Hm. unfold full2.
        destruct (inheritedRoles a) as [l |] eqn:E; simpl.
        + rewrite renamed_absent.
          * destruct a. simpl in *. now subst.
          * intros Hin.
            assert (Mongo.matches (byInherited oldName) a = true)
              by (apply matches_byInherited; eauto).
            congruence.
        + destruct a. simpl in *. now subst.
      - cbn [Meteor_roleAssignment]. lia. }
  rewrite (bindF_step _ _ _
             (mkStore (map (renamedChildren oldName newName) inserted)
                (map (renamedAssignment oldName newName) (Meteor_roleAssignment st))
                (nextId st)) tt).
  2:{ rewrite (role_loop_exact (roleWithChild oldName) (Mongo.SetChildPositional newName)
                 (childrenWeight oldName) (renamedChildren oldName newName)).
      - reflexivity.
      - intros r. now apply children_loop_lowers.
      - intros r Hm. unfold renamedChildren. simpl. now rewrite renamed_replaceFirst.
      - intros r Hm. unfold renamedChildren. rewrite renamed_absent.
        + destruct r; reflexivity.
        + intros Hin.
          assert (Mongo.matchesRole (roleWithChild oldName) r = true)
            by now apply matchesRole_withChild.
          congruence.
      - cbn [Meteor_roles]. lia. }
  unfold run, roles_removeAsync, Mongo.remove. cbn [Meteor_roles Meteor_roleAssignment nextId].
  f_equal. f_equal. f_equal. unfold inserted.
  rewrite map_app, filter_app. cbn [map filter].
  rewrite matches_roleById. cbn [renamedChildren role_id children].
  assert (E : String.eqb newName oldName = false) by (apply String.eqb_neq; congruence).
  rewrite E. cbn [negb]. f_equal.
  clear. induction (Meteor_roles st) as [| r l IH]; simpl; auto.
  rewrite matches_roleById. cbn [renamedChildren role_id].
  destruct (String.eqb (role_id r) oldName); simpl; now rewrite IH.
Qed.

Lemma renameRole_replaces_everywhere_witness :
  exists n, forall fuel, n <= fuel ->
    renameRoleAsync fuel "editor" "writer" adminOverEditor
    = Some (Return tt,
            mkStore [mkRole "admin" ["writer"]; mkRole "writer" []] [] 1).
Proof.
  apply (renameRole_replaces_everywhere "editor" "writer" (mkRole "editor" [])
           adminOverEditor).
  - reflexivity.
  - reflexivity.
  - discriminate.
  - reflexivity.
  - vm_compute. intuition discriminate.
Defined.

(** ** A list of roles with a missing one *)

Lemma forOf_app {A : Type} (xs ys : list A) (body : A -> Async unit) (st : Store) :
  forOf (xs ++ ys) body st
  = match forOf xs body st with
    | (Return _, st1) => forOf ys body st1
    | (Throw e, st1) => (Throw e, st1)
    end.
Proof.
  revert st. induction xs as [| x xs IH]; intros st; simpl; auto.
  unfold bind. destruct (body x st) as [[[] | e] st1]; auto.
Qed.

(** The loop of [addUsersToRoles] over roles that exist returns and leaves
    the roles alone. *)
Lemma grant_loop_returns (u : JS.Val) (o : Options) (names : list string) :
  JS.truthy u = true -> _checkScopeName (opt_scope o) = Return tt ->
  forall st,
    wfStore st ->
    (forall r, In r names ->
       _checkRoleName (JS.Str r) = Return tt /\ In r (map role_id (Meteor_roles st))) ->
    exists st1,
      forOf names (fun role => _addUserToRoleAsync u role o ;; ret tt) st = (Return tt, st1)
      /\ wfStore st1 /\ Meteor_roles st1 = Meteor_roles st.
Proof.
  intros Hu Hs. induction names as [| r names IH]; intros st Hwf Hall.
  - exists st. simpl. auto.
  - destruct (Hall r (or_introl eq_refl)) as [Hr Hin].
    destruct (find (Mongo.matchesRole (roleById r)) (Meteor_roles st)) as [rd |] eqn:Hrd.
    2:{ apply find_role_none in Hrd. contradiction. }
    assert (Hstep : exists res st1,
               _addUserToRoleAsync u r o st = (Return res, st1)
               /\ wfStore st1 /\ Meteor_roles st1 = Meteor_roles st).
    { destruct (find (Mongo.matches (byTriple u r (scopeOf (opt_scope o))))
                  (Meteor_roleAssignment st)) as [ex |] eqn:Hex.
      - eexists. exists st. split; [| auto].
        now apply (addUserToRoleAsync_existing u r o st rd ex).
      - eexists. eexists. split; [now apply (addUserToRoleAsync_fresh u r o st rd) |].
        split; [now apply wfStore_insert | reflexivity]. }
    destruct Hstep as (res & st1 & E & Hwf1 & Hroles1).
    destruct (IH st1 Hwf1) as (st2 & E2 & Hwf2 & Hroles2).
    { intros x Hx. rewrite Hroles1. apply Hall. now right. }
    exists st2. cbn [forOf]. unfold bind at 1 2. rewrite E. unfold ret at 1.
    split; [exact E2 |]. split; [exact Hwf2 | congruence].
Qed.

Lemma addUsersToRoles_many (usr : UserArg) (u : JS.Val) (names : list string)
    (options : OptionsArg) (st : Store) :
  userIdOf usr = Return u -> JS.truthy u = true ->
  _checkScopeName (opt_scope (_normalizeOptions options)) = Return tt ->
  addUsersToRolesAsync (One usr) (Many names) options st
  = match forOf names
            (fun role => _addUserToRoleAsync u role (_normalizeOptions options) ;; ret tt) st
    with
    | (Return _, st1) => (Return tt, st1)
    | (Throw e, st1) => (Throw e, st1)
    end.
Proof.
  intros Hid Hu Hs.
  assert (Hut : usersTruthy (One usr) = true).
  { destruct usr as [v | i]; simpl in *; auto. destruct v; inversion Hid; subst; auto. }
  unfold addUsersToRolesAsync. rewrite Hut. cbn [negb namesTruthy ensureArray forOf].
  rewrite (bind_step _ _ st st tt) by (unfold lift; now rewrite Hs).
  unfold bind at 1.
  rewrite (bind_step _ _ st st u) by (unfold lift; now rewrite Hid).
  destruct (forOf names _ st) as [[[] | e] st1]; reflexivity.
Qed.

(** X26. [addUsersToRoles] does not undo what it has done when it fails:
    given a list of roles of which one does not exist (and no [ifExists]),
    it throws at that one, and the store it leaves is the store of the
    grants of the roles before it, which all went through. *)
Theorem addUsersToRoles_stops_at_missing_role (usr : UserArg) (u : JS.Val)
    (before after : list string) (bad : string) (options : OptionsArg) (st : Store) :
  userIdOf usr = Return u -> JS.truthy u = true ->
  _checkScopeName (opt_scope (_normalizeOptions options)) = Return tt ->
  ifExists (_normalizeOptions options) = false ->
  wfStore st ->
  (forall r, In r before ->
     _checkRoleName (JS.Str r) = Return tt /\ In r (map role_id (Meteor_roles st))) ->
  _checkRoleName (JS.Str bad) = Return tt ->
  ~ In bad (map role_id (Meteor_roles st)) ->
  fst (addUsersToRolesAsync (One usr) (Many before) options st) = Return tt
  /\ addUsersToRolesAsync (One usr) (Many (before ++ bad :: after)) options st
     = (Throw (Error ("Role '" ++ bad ++ "' does not exist.")),
        snd (addUsersToRolesAsync (One usr) (Many before) options st)).
Proof.
  intros Hid Hu Hs Hif Hwf Hall Hbad Hmiss.
  destruct (grant_loop_returns u (_normalizeOptions options) before Hu Hs st Hwf Hall)
    as (st1 & E & Hwf1 & Hroles1).
  rewrite !(addUsersToRoles_many usr u) by assumption.
  rewrite forOf_app, E. cbn [fst snd]. split; [reflexivity |].
  cbn [forOf].
  assert (Hthrow : _addUserToRoleAsync u bad (_normalizeOptions options) st1
                   = (Throw (Error ("Role '" ++ bad ++ "' does not exist.")), st1)).
  { unfold _addUserToRoleAsync, bind, lift. rewrite Hbad, Hs, Hu. cbn [negb].
    unfold roles_findOneAsync. rewrite Hroles1.
    apply find_role_none in Hmiss. rewrite Hmiss, Hif. reflexivity. }
  unfold bind at 1 2. rewrite Hthrow. reflexivity.
Qed.

Lemma addUsersToRoles_stops_at_missing_role_witness :
  addUsersToRolesAsync (One (UserVal (JS.Str "u2"))) (Many ["editor"; "ghost"; "admin"])
    OptionsUndefined adminAssigned
  = (Throw (Error "Role 'ghost' does not exist."),
     snd (addUsersToRolesAsync (One (UserVal (JS.Str "u2"))) (Many ["editor"])
            OptionsUndefined adminAssigned)).
Proof.
  destruct (addUsersToRoles_stops_at_missing_role (UserVal (JS.Str "u2")) (JS.Str "u2")
              ["editor"] ["admin"] "ghost" OptionsUndefined adminAssigned) as [_ H].
  - reflexivity.
  - reflexivity.
  - reflexivity.
  - reflexivity.
  - apply consistent_adminAssigned.
  - intros r [<- | []]. split; [reflexivity | vm_compute; auto].
  - reflexivity.
  - vm_compute. intuition discriminate.
  - exact H.
Defined.
